(** * OCR image pipeline: tensor preparation, input normalisation, call serialisation

    A shallow embedding of the parts of the OCR library that its design
    document makes promises about:

    - [ModelBase.imageToInput]   (common package, tensor preparer),
    - [ImageRaw] of the browser package, in its two variants: the one that
      also runs in a Web Worker (canvas factory, context cache) and the
      document-only one,
    - [Ocr.detect]               (promise-chained mutex).

    JavaScript numbers are IEEE-754 binary64 values.  They are modelled by
    [spec_float] with the operations of [SpecFloat] at precision 53 and
    maximal exponent 1024, so every arithmetic result below is the one a
    JavaScript engine produces, including the rounding of quotients. *)

From stdpp Require Import base list gmap strings.
From Stdlib Require Import ZArith QArith Qround Qpower Floats.SpecFloat Lia Lqa Strings.Byte.

Local Open Scope Z_scope.

(* ===================================================================== *)
(** * JavaScript numbers                                                  *)
(* ===================================================================== *)

Module Number.

(** A JavaScript [number]. *)
Definition number : Type := spec_float.

Definition prec : Z := 53.
Definition emax : Z := 1024.

Definition NaN : number := S754_nan.
Definition pos_zero : number := S754_zero false.

(** An integer literal, or an integer read from a typed array of bytes. *)
Definition of_Z (n : Z) : number := binary_normalize prec emax n 0 false.

Definition of_byte (b : byte) : number := of_Z (Z.of_N (Byte.to_N b)).

Definition div : number -> number -> number := SFdiv prec emax.
Definition mul : number -> number -> number := SFmul prec emax.
Definition sub : number -> number -> number := SFsub prec emax.
Definition add : number -> number -> number := SFadd prec emax.
Definition leb : number -> number -> bool := SFleb.
Definition ltb : number -> number -> bool := SFltb.

(** [ToBoolean] on a number: [0], [-0] and [NaN] are falsy. *)
Definition truthy (x : number) : bool :=
  match x with
  | S754_zero _ | S754_nan => false
  | _ => true
  end.

(** Rounding of a binary64 value to binary32 (round to nearest, ties to
    even), as performed by a store into a [Float32Array]. *)
Definition round32 (x : number) : spec_float :=
  match x with
  | S754_finite s m e => binary_round 24 128 s m e
  | _ => x
  end.

(** A binary32 value read back as a JavaScript number (exact). *)
Definition widen (x : spec_float) : number :=
  match x with
  | S754_finite s m e => binary_round prec emax s m e
  | _ => x
  end.

(** [Math.fround]: the number a [Float32Array] element holds after a
    store of [x]. *)
Definition fround (x : number) : number := widen (round32 x).

(** The rational a finite number denotes ([0] for the non-finite ones,
    which the statements below exclude separately). *)
Definition to_Q (x : number) : Q :=
  match x with
  | S754_finite s m e =>
      let v := (inject_Z (Z.pos m) * Qpower 2 e)%Q in
      if s then (- v)%Q else v
  | _ => 0%Q
  end.

Definition is_finite (x : number) : bool :=
  match x with
  | S754_finite _ _ _ | S754_zero _ => true
  | _ => false
  end.

(** [Math.round]: the integral number closest to [x], the one closer to
    plus infinity when two are equally close; [-0] for [-0.5 <= x < 0].  A
    finite number with a non-negative exponent is integral already;
    otherwise [floor (x + 1/2)] is computed on the integer mantissa. *)
Definition Math_round (x : number) : number :=
  match x with
  | S754_finite s m e =>
      if 0 <=? e then x
      else
        let n := Z.shiftr (2 * cond_Zopp s (Z.pos m) + 2 ^ (- e)) (- e + 1) in
        if n =? 0 then S754_zero s else of_Z n
  | _ => x
  end.

End Number.

Import Number.

(* ===================================================================== *)
(** * Typed arrays                                                        *)
(* ===================================================================== *)

(** Array indices computed by the program are numbers; the ones that occur
    are sums and products of an array length with [1/4], [2], [3] and a
    loop counter, which binary64 represents exactly, so they are kept as
    exact rationals. *)

(** [a[i]] on a [Uint8Array] / [Uint8ClampedArray], used as a number: an
    index outside the array reads [undefined], which arithmetic converts to
    [NaN]. *)
Definition u8_get (a : list byte) (i : nat) : number :=
  match a !! i with
  | Some b => of_byte b
  | None => NaN
  end.

(** [a[i]] on a [number[]], used as a number. *)
Definition arr_get (a : list number) (i : nat) : number :=
  match a !! i with
  | Some x => x
  | None => NaN
  end.

(** [new Float32Array(n)]: the length is [n] truncated to an integer, every
    element is [+0]. *)
Definition f32_new (n : Q) : list number :=
  replicate (Z.to_nat (Qfloor n)) pos_zero.

(** [a[k] = v] on a [Float32Array]: a store at a key that is not an integer
    index inside the array is ignored; otherwise the element becomes [v]
    rounded to binary32. *)
Definition f32_set (a : list number) (k : Q) (v : number) : list number :=
  let k' := Qred k in
  if (Qden k' =? 1)%positive && (0 <=? Qnum k') then
    <[Z.to_nat (Qnum k') := fround v]> a
  else a.

(* ===================================================================== *)
(** * ModelBase.imageToInput                                              *)
(* ===================================================================== *)

Module ModelBase.

Record ImageRaw := {
  data : list byte;
  width : number;
  height : number;
}.

Record ReshapeOptions := {
  mean : option (list number);
  std : option (list number);
}.

Record ModelData := {
  md_data : list number;
  md_width : number;
  md_height : number;
}.

Definition default_mean : list number := [of_Z 0; of_Z 0; of_Z 0].
Definition default_std : list number := [of_Z 1; of_Z 1; of_Z 1].

(** [(image.data[i] / 255 - mean[c]) / std[c]]. *)
Definition normalise (image_data : list byte) (mean std : list number)
    (i c : nat) : number :=
  div (sub (div (u8_get image_data i) (of_Z 255)) (arr_get mean c))
      (arr_get std c).

(** What the loop stores for pixel [p] in the plane [plane] of the output:
    the source channel is [2 - plane], read at byte [4 * p + (2 - plane)],
    and the store rounds to a 32-bit float. *)
Definition stored (image_data : list byte) (mean std : list number)
    (plane p : nat) : number :=
  fround (normalise image_data mean std (4 * p + (2 - plane)) (2 - plane)).

(** The [for] loop, one iteration per unit of fuel:
    [for (let i = 0, p = 0; i < image.data.length; i += 4, p++)]. *)
Fixpoint loop (fuel : nat) (image_data : list byte) (mean std : list number)
    (bOffset gOffset rOffset : Q) (i p : nat) (newData : list number)
    : list number :=
  match fuel with
  | O => newData
  | S fuel' =>
      if (i <? length image_data)%nat then
        let q := inject_Z (Z.of_nat p) in
        let newData :=
          f32_set newData (rOffset + q) (normalise image_data mean std i 0) in
        let newData :=
          f32_set newData (gOffset + q)
            (normalise image_data mean std (i + 1) 1) in
        let newData :=
          f32_set newData (bOffset + q)
            (normalise image_data mean std (i + 2) 2) in
        loop fuel' image_data mean std bOffset gOffset rOffset
          (i + 4) (p + 1) newData
      else newData
  end.

(** The loop advances [i] by four from zero, so it runs at most
    [length image.data] times. *)
Definition imageToInput (image : ImageRaw) (opts : ReshapeOptions) : ModelData :=
  let mean := default default_mean (mean opts) in
  let std := default default_std (std opts) in
  let pixelCount := (inject_Z (Z.of_nat (length (data image))) / 4)%Q in
  let newData := f32_new (pixelCount * 3) in
  let bOffset := 0%Q in
  let gOffset := pixelCount in
  let rOffset := (pixelCount * 2)%Q in
  {| md_data :=
       loop (length (data image)) (data image) mean std
         bOffset gOffset rOffset 0 0 newData;
     md_width := width image;
     md_height := height image |}.

(** The canonical buffer of the design document's scenario:
    [{width: 2, height: 1, data: [255,0,0,255, 0,255,0,255]}]. *)
Definition canonical_buffer : ImageRaw :=
  {| data := [xff; x00; x00; xff; x00; xff; x00; xff];
     width := of_Z 2;
     height := of_Z 1 |}.

Definition explicit_options : ReshapeOptions :=
  {| mean := Some [of_Z 0; of_Z 0; of_Z 0];
     std := Some [of_Z 1; of_Z 1; of_Z 1] |}.

Definition no_options : ReshapeOptions := {| mean := None; std := None |}.

(** JavaScript's [0 <= x && x <= 1]. *)
Definition in_unit_interval (x : number) : bool :=
  leb (of_Z 0) x && leb x (of_Z 1).

End ModelBase.

(* ===================================================================== *)
(** * Binary64 rounding: vocabulary                                       *)
(* ===================================================================== *)

Module Binary64.


(** The power of two [2 ^ n] as a rational. *)
Definition pow2 (n : Z) : Q := Qpower 2 n.


(** The rational a positive finite number denotes. *)
Definition F2Q (m : positive) (e : Z) : Q := inject_Z (Z.pos m) * pow2 e.

End Binary64.

(* ===================================================================== *)
(** * JavaScript values, as far as the type guards inspect them           *)
(* ===================================================================== *)

Module JS.

(** The constructor an object was made by. *)
Inductive class :=
| Object
| Array
| Uint8Array
| Uint8ClampedArray
| Float32Array
| ImageData
| ImageBitmap
| HTMLImageElement
| HTMLCanvasElement
| HTMLVideoElement
| OffscreenCanvas.

#[export] Instance class_eq_dec : EqDecision class.
Proof. solve_decision. Defined.

(** A value: a primitive, or a function or an object of some class, with
    the properties that [in] finds on it, in lookup order.  A function is
    an object too and can carry any property, only [typeof] tells it
    apart. *)
#[warnings="-register-all"]
Inductive value :=
| VUndefined
| VNull
| VBoolean (b : bool)
| VNumber (x : number)
| VString (s : string)
| VFunction (props : list (string * value))
| VObject (cls : class) (props : list (string * value)).

Definition typeof (v : value) : string :=
  match v with
  | VUndefined => "undefined"
  | VNull => "object"
  | VBoolean _ => "boolean"
  | VNumber _ => "number"
  | VString _ => "string"
  | VFunction _ => "function"
  | VObject _ _ => "object"
  end.

Definition is_null (v : value) : bool :=
  match v with VNull => true | _ => false end.

(** The properties of an object or of a function; a primitive has none of
    the ones the guards ask for. *)
Definition properties (v : value) : list (string * value) :=
  match v with
  | VObject _ props | VFunction props => props
  | _ => []
  end.

(** [k in v], for a [v] that is an object or a function; the guard asks
    it of nothing else. *)
Definition has_property (k : string) (v : value) : bool :=
  existsb (fun kv => String.eqb (fst kv) k) (properties v).

(** [v.k]. *)
Definition get_property (k : string) (v : value) : value :=
  match find (fun kv => String.eqb (fst kv) k) (properties v) with
  | Some kv => snd kv
  | None => VUndefined
  end.

(** [v instanceof C]. *)
Definition instanceof (v : value) (C : class) : bool :=
  match v with
  | VObject cls _ => bool_decide (cls = C)
  | _ => false
  end.

End JS.

(* ===================================================================== *)
(** * ImageRaw (browser): what both variants share                        *)
(* ===================================================================== *)

(** The type guard [isImageRawData] and the dimension arithmetic of
    [resize] read the same in the worker-capable variant and in the
    document-only variant of the class. *)

Module ImageRaw.
Import JS.

Definition isImageRawData (input : value) : bool :=
  String.eqb (typeof input) "object"
  && negb (is_null input)
  && has_property "data" input
  && has_property "width" input
  && has_property "height" input
  && (instanceof (get_property "data" input) Uint8Array
      || instanceof (get_property "data" input) Uint8ClampedArray).

(** The recognition test in the words of the design document: numeric
    width, numeric height, and a byte array of one of the two accepted
    element types. *)
Definition has_numeric (k : string) (input : value) : bool :=
  String.eqb (typeof (get_property k input)) "number".

Definition has_byte_array_data (input : value) : bool :=
  instanceof (get_property "data" input) Uint8Array
  || instanceof (get_property "data" input) Uint8ClampedArray.

Definition canonical_data_by_design (input : value) : bool :=
  has_numeric "width" input && has_numeric "height" input
  && has_byte_array_data input.

(** [{ data: new Uint8Array(4), width: '1', height: 1 }]: the width is
    present and is a string. *)
Definition string_width_input : value :=
  VObject Object
    [("data", VObject Uint8Array []);
     ("width", VString "1");
     ("height", VNumber (of_Z 1))].

(** A function that carries the three fields, numeric width and height
    and a byte array:
    [Object.assign(function () {}, { data: new Uint8Array(4), width: 1, height: 1 })]. *)
Definition function_with_fields : value :=
  VFunction
    [("data", VObject Uint8Array []);
     ("width", VNumber (of_Z 1));
     ("height", VNumber (of_Z 1))].

(** The same three fields on a plain object. *)
Definition object_with_fields : value :=
  VObject Object
    [("data", VObject Uint8Array []);
     ("width", VNumber (of_Z 1));
     ("height", VNumber (of_Z 1))].

(** [SizeOption]: an absent field reads [undefined]. *)
Record SizeOption := {
  so_width : option number;
  so_height : option number;
}.

(** [a || b] for an optional number [a]. *)
Definition or_else (a : option number) (b : number) : number :=
  match a with
  | Some x => if truthy x then x else b
  | None => b
  end.

(** An optional number used as an operand: [undefined] converts to [NaN]. *)
Definition to_number (a : option number) : number := default NaN a.

(** [Math.round((this.width / this.height) * height!)]. *)
Definition scaled (a b : number) (c : option number) : number :=
  Math_round (mul (div a b) (to_number c)).

(** The first three lines of [resize]: [None] when [invariant] throws,
    otherwise the pair [(newWidth, newHeight)] handed to the canvas. *)
Definition resize (this_width this_height : number) (size : SizeOption)
    : option (number * number) :=
  match so_width size, so_height size with
  | None, None => None
  | width, height =>
      let newWidth := or_else width (scaled this_width this_height height) in
      let newHeight := or_else height (scaled this_height this_width width) in
      Some (newWidth, newHeight)
  end.





End ImageRaw.

(* ===================================================================== *)
(** * The browser platform, as far as ImageRaw calls it                   *)
(* ===================================================================== *)

Module Platform.

(** Canvases and drawing contexts are objects compared by identity. *)
Definition canvas : Type := nat.
Definition context : Type := nat.

Record ImageBitmap := {
  bitmap_id : nat;
  bitmap_width : Z;
  bitmap_height : Z;
}.

Record HTMLImageElement := {
  image_id : nat;
  complete : bool;
  naturalWidth : Z;
  naturalHeight : Z;
}.

Record HTMLVideoElement := {
  video_id : nat;
  readyState : Z;
  videoWidth : Z;
  videoHeight : Z;
}.

Record ImageData := {
  id_data : list byte;
  id_width : number;
  id_height : number;
}.

(** What [drawImage] and [createImageBitmap] accept. *)
Inductive source :=
| SrcBlob (blob : nat)
| SrcBitmap (bitmap : ImageBitmap)
| SrcImage (img : HTMLImageElement)
| SrcVideo (video : HTMLVideoElement)
| SrcCanvas (c : canvas).

(** What can be thrown: [new Error(message)] by the library itself, an
    exception raised inside a platform call, or the [TypeError] of a method
    call on [null]. *)
Inductive exn :=
| Error (message : string)
| PlatformException (name : string)
| TypeError.

Inductive completion (A : Type) :=
| Normal (a : A)
| Throw (e : exn).
Arguments Normal {A} a.
Arguments Throw {A} e.

(** The calls into the platform, in the order they happen. *)
Inductive event :=
| BitmapWidth (bitmap : nat)
| BitmapHeight (bitmap : nat)
| BitmapClose (bitmap : nat)
| NewCanvas (c : canvas)
| SetWidth (c : canvas) (x : number)
| SetHeight (c : canvas) (x : number)
| GetContext (c : canvas)
| DrawImage (ctx : context) (src : source)
| GetImageData (ctx : context)
| PutImageData (ctx : context)
| Decode (img : nat)
| CreateImageBitmap (src : source) (with_options : bool).

(** The environment the module was loaded in, and the platform's answers.
    An answer may depend on everything that happened before (the list of
    events, latest first), so nothing is assumed about the platform beyond
    its being a function of the history.  [drawable_width] and
    [drawable_height] are the [width] and [height] properties of a drawable
    read through [(image as any)]. *)
Record platform := {
  IS_WORKER : bool;
  HAS_OFFSCREEN_CANVAS : bool;
  HAS_DOCUMENT : bool;
  HAS_IMAGE : bool;
  HAS_CREATE_IMAGE_BITMAP : bool;
  drawable_width : list event -> source -> number;
  drawable_height : list event -> source -> number;
  canvas_getContext : list event -> canvas -> option context;
  ctx_drawImage : list event -> context -> source -> option exn;
  ctx_getImageData : list event -> context -> completion ImageData;
  ctx_putImageData : list event -> context -> ImageData -> option exn;
  new_ImageData : list byte -> number -> number -> completion ImageData;
  bitmap_close : list event -> ImageBitmap -> option exn;
  image_decode : list event -> HTMLImageElement -> completion HTMLImageElement;
  createImageBitmap : list event -> source -> bool -> completion ImageBitmap;
}.

(** The wire shape of a pixel buffer. *)
Record ImageRawData := {
  data : list byte;
  width : number;
  height : number;
}.

(** An [ImageRaw] instance: the fields of the base class and the two
    private ones. *)
Record ImageRaw := {
  this_data : list byte;
  this_width : number;
  this_height : number;
  this_canvas : canvas;
  this_imageData : ImageData;
}.

(** The state the module keeps ([contextCache], a [WeakMap] keyed by the
    canvas object), the canvases allocated so far, and the history. *)
Record world := {
  contextCache : gmap canvas context;
  canvases : nat;
  history : list event;
}.

Definition initial_world : world :=
  {| contextCache := ∅; canvases := 0; history := [] |}.

(** Computations: state passing with exceptions. *)
Definition M (A : Type) : Type := world -> completion A * world.

Definition mret {A} (a : A) : M A := fun w => (Normal a, w).

Definition throw {A} (e : exn) : M A := fun w => (Throw e, w).

Definition bind {A B} (c : M A) (k : A -> M B) : M B :=
  fun w =>
    match c w with
    | (Normal a, w') => k a w'
    | (Throw e, w') => (Throw e, w')
    end.

(** [try { body } catch { handler }]. *)
Definition try_catch {A} (body : M A) (handler : exn -> M A) : M A :=
  fun w =>
    match body w with
    | (Normal a, w') => (Normal a, w')
    | (Throw e, w') => handler e w'
    end.

(** [try { body } finally { finalizer }]: the finalizer runs on both exits;
    if it throws, its exception replaces the body's completion. *)
Definition try_finally {A} (body : M A) (finalizer : M unit) : M A :=
  fun w =>
    let '(r, w') := body w in
    match finalizer w' with
    | (Normal _, w'') => (r, w'')
    | (Throw e, w'') => (Throw e, w'')
    end.

Definition record (ev : event) (w : world) : world :=
  {| contextCache := contextCache w;
     canvases := canvases w;
     history := ev :: history w |}.

(** A platform call that returns or throws; the answer is computed from
    the history before the call. *)
Definition call {A} (ev : event) (answer : list event -> completion A) : M A :=
  fun w => (answer (history w), record ev w).

(** A platform call that returns nothing or throws. *)
Definition call_unit (ev : event) (answer : list event -> option exn) : M unit :=
  call ev (fun h => match answer h with Some e => Throw e | None => Normal tt end).

(** [a || b] where [b] is only evaluated when [a] is falsy. *)
Definition or_else_lazy (a : option number) (b : M number) : M number :=
  match a with
  | Some x => if truthy x then mret x else b
  | None => b
  end.

(** [(image as any).width] and [(image as any).height]. *)
Definition read_width (pf : platform) (image : source) : M number :=
  fun w => (Normal (drawable_width pf (history w) image), w).

Definition read_height (pf : platform) (image : source) : M number :=
  fun w => (Normal (drawable_height pf (history w) image), w).

(** A bitmap that has been closed already: its dimensions read zero. *)
Definition neutered_bitmap : ImageBitmap :=
  {| bitmap_id := 7; bitmap_width := 0; bitmap_height := 0 |}.

Definition small_bitmap : ImageBitmap :=
  {| bitmap_id := 7; bitmap_width := 1; bitmap_height := 1 |}.

(** ** Vocabulary for statements about histories *)

(** The events a computation performs from the world [w], oldest first. *)
Definition performed {A} (c : M A) (w : world) : list event :=
  let h := history (snd (c w)) in
  rev (take (length h - length (history w)) h).

(** [bitmap.close()] on the bitmap [b]. *)
Definition is_close (b : nat) (ev : event) : bool :=
  match ev with
  | BitmapClose b' => Nat.eqb b' b
  | _ => false
  end.

(** A read of the bitmap [b]: of a property, or of its pixels. *)
Definition reads (b : nat) (ev : event) : bool :=
  match ev with
  | BitmapWidth b' | BitmapHeight b' => Nat.eqb b' b
  | DrawImage _ (SrcBitmap bm) | CreateImageBitmap (SrcBitmap bm) _ =>
      Nat.eqb (bitmap_id bm) b
  | _ => false
  end.

(** How often the bitmap [b] is closed. *)
Fixpoint closes (b : nat) (evs : list event) : nat :=
  match evs with
  | [] => 0
  | ev :: rest => (if is_close b ev then 1 else 0) + closes b rest
  end.

(** No read of the bitmap [b] follows a close of it ([evs] oldest first). *)
Fixpoint never_read_after_close (b : nat) (evs : list event) : bool :=
  match evs with
  | [] => true
  | ev :: rest =>
      if is_close b ev then forallb (fun e => negb (reads b e)) rest
      else never_read_after_close b rest
  end.

(** Every event the computation performs satisfies [P]. *)
Definition emits (P : event -> Prop) {A} (c : M A) : Prop :=
  forall w, exists evs,
    history (snd (c w)) = evs ++ history w /\ Forall P evs.

(** A computation keeps the context cache when every entry present before
    it is present, unchanged, after it. *)
Definition keeps {A} (c : M A) : Prop :=
  forall w canvas ctx,
    contextCache w !! canvas = Some ctx ->
    contextCache (snd (c w)) !! canvas = Some ctx.

(** The computation returns normally, with a result that satisfies [Q]. *)
Definition returns {A} (Q : A -> Prop) (c : M A) : Prop :=
  forall w, exists a w', c w = (Normal a, w') /\ Q a.

(** A platform on which every call made during a conversion succeeds. *)
Record cooperative (pf : platform) : Prop := {
  coop_canvas : HAS_OFFSCREEN_CANVAS pf || HAS_DOCUMENT pf = true;
  coop_context : forall h c, is_Some (canvas_getContext pf h c);
  coop_draw : forall h ctx src, ctx_drawImage pf h ctx src = None;
  coop_read : forall h ctx, exists d, ctx_getImageData pf h ctx = Normal d;
  coop_put : forall h ctx d, ctx_putImageData pf h ctx d = None;
  coop_new : forall d x y, exists i, new_ImageData pf d x y = Normal i;
  coop_decode : forall h img, exists img', image_decode pf h img = Normal img';
  coop_bitmap : forall h src, exists b,
    createImageBitmap pf h src true = Normal b
    /\ bitmap_width b <> 0 /\ bitmap_height b <> 0;
}.

(** An image element that has not been loaded yet. *)
Definition pending_image : HTMLImageElement :=
  {| image_id := 3; complete := false; naturalWidth := 0; naturalHeight := 0 |}.

(** A video element that has no current frame yet ([HAVE_METADATA]). *)
Definition pending_video : HTMLVideoElement :=
  {| video_id := 4; readyState := 1; videoWidth := 0; videoHeight := 0 |}.

End Platform.

Declare Scope js_scope.
Delimit Scope js_scope with js.
Notation "'let*' x ':=' c 'in' k" :=
  (Platform.bind c (fun x => k))
  (at level 10, x pattern, c at level 100, k at level 200) : js_scope.
Notation "c ';;' k" :=
  (Platform.bind c (fun _ => k))
  (at level 100, k at level 200, right associativity) : js_scope.

(* ===================================================================== *)
(** * ImageRaw (browser), worker-capable variant                          *)
(* ===================================================================== *)

Module ImageRawWorker.
Import Platform.
Local Open Scope js_scope.

Section WithPlatform.
Variable pf : platform.

Definition new_canvas : M canvas :=
  fun w =>
    (Normal (canvases w),
     {| contextCache := contextCache w;
        canvases := S (canvases w);
        history := NewCanvas (canvases w) :: history w |}).

(** [createCanvas(width, height)]. *)
Definition createCanvas (width height : number) : M canvas :=
  if HAS_OFFSCREEN_CANVAS pf then new_canvas
  else if HAS_DOCUMENT pf then
    let* canvas := new_canvas in
    call_unit (SetWidth canvas width) (fun _ => None);;
    call_unit (SetHeight canvas height) (fun _ => None);;
    mret canvas
  else
    throw (Error "No canvas support available. Neither OffscreenCanvas nor document is available.").

(** [getContext2D(canvas)]: the cached context if there is one, otherwise
    the platform's, remembered when it is not [null]. *)
Definition getContext2D (canvas : canvas) : M (option context) :=
  fun w =>
    match contextCache w !! canvas with
    | Some cached => (Normal (Some cached), w)
    | None =>
        let ctx := canvas_getContext pf (history w) canvas in
        let w := record (GetContext canvas) w in
        match ctx with
        | Some c =>
            (Normal (Some c),
             {| contextCache := <[canvas := c]> (contextCache w);
                canvases := canvases w;
                history := history w |})
        | None => (Normal None, w)
        end
    end.

(** [ctx.getImageData(0, 0, canvas.width, canvas.height)]. *)
Definition ctx_read (ctx : context) : M ImageData :=
  call (GetImageData ctx) (fun h => ctx_getImageData pf h ctx).

(** [getImageData(canvas)]. *)
Definition getImageData (canvas : canvas) : M ImageData :=
  let* ctx := getContext2D canvas in
  match ctx with
  | None => throw (Error "Failed to get 2D context")
  | Some ctx => ctx_read ctx
  end.

(** [createOptimizedImageBitmap(source)]. *)
Definition createOptimizedImageBitmap (src : source) : M ImageBitmap :=
  if negb (HAS_CREATE_IMAGE_BITMAP pf) then
    throw (Error "createImageBitmap is not supported")
  else
    try_catch
      (call (CreateImageBitmap src true) (fun h => createImageBitmap pf h src true))
      (fun _ =>
         call (CreateImageBitmap src false) (fun h => createImageBitmap pf h src false)).

(** [canvasDrawImage(canvas, image, width, height)]. *)
Definition canvasDrawImage (canvas : canvas) (image : source)
    (width height : option number) : M unit :=
  let* w := or_else_lazy width (read_width pf image) in
  call_unit (SetWidth canvas w) (fun _ => None);;
  let* h := or_else_lazy height (read_height pf image) in
  call_unit (SetHeight canvas h) (fun _ => None);;
  let* ctx := getContext2D canvas in
  match ctx with
  | None => throw (Error "Failed to get 2D context")
  | Some ctx => call_unit (DrawImage ctx image) (fun h => ctx_drawImage pf h ctx image)
  end.

(** [canvasPutImageData(canvas, imageData)]. *)
Definition canvasPutImageData (canvas : canvas) (imageData : ImageData) : M unit :=
  call_unit (SetWidth canvas (id_width imageData)) (fun _ => None);;
  call_unit (SetHeight canvas (id_height imageData)) (fun _ => None);;
  let* ctx := getContext2D canvas in
  match ctx with
  | None => throw (Error "Failed to get 2D context")
  | Some ctx =>
      call_unit (PutImageData ctx) (fun h => ctx_putImageData pf h ctx imageData)
  end.

(** [new ImageRaw({ data, width, height })].  The base class constructor,
    which is not part of this package, is taken to store the three fields. *)
Definition new_ImageRaw (d : ImageRawData) : M ImageRaw :=
  let newData := data d in
  let* canvas := createCanvas (width d) (height d) in
  let* imageData :=
    (fun w => (new_ImageData pf newData (width d) (height d), w)) in
  canvasPutImageData canvas imageData;;
  mret {| this_data := newData;
          this_width := width d;
          this_height := height d;
          this_canvas := canvas;
          this_imageData := imageData |}.

Definition read_bitmap_width (bitmap : ImageBitmap) : M Z :=
  call (BitmapWidth (bitmap_id bitmap)) (fun _ => Normal (bitmap_width bitmap)).

Definition read_bitmap_height (bitmap : ImageBitmap) : M Z :=
  call (BitmapHeight (bitmap_id bitmap)) (fun _ => Normal (bitmap_height bitmap)).

(** [try { bitmap.close() } catch { /* ignore */ }]. *)
Definition close_quietly (bitmap : ImageBitmap) : M unit :=
  try_catch
    (call_unit (BitmapClose (bitmap_id bitmap)) (fun h => bitmap_close pf h bitmap))
    (fun _ => mret tt).

(** [bitmap.width === 0 || bitmap.height === 0]. *)
Definition has_zero_dimension (bitmap : ImageBitmap) : M bool :=
  let* w := read_bitmap_width bitmap in
  if w =? 0 then mret true
  else
    let* h := read_bitmap_height bitmap in
    mret (h =? 0).

(** [ImageRaw.fromImageBitmap(bitmap)]. *)
Definition fromImageBitmap (bitmap : ImageBitmap) : M ImageRaw :=
  let* invalid := has_zero_dimension bitmap in
  if invalid : bool then
    throw (Error "Invalid ImageBitmap: dimensions are zero (bitmap may be closed or neutered)")
  else
    let* w := read_bitmap_width bitmap in
    let* h := read_bitmap_height bitmap in
    let* canvas := createCanvas (of_Z w) (of_Z h) in
    let* ctx := getContext2D canvas in
    match ctx with
    | None =>
        close_quietly bitmap;;
        throw (Error "Failed to create canvas 2D context")
    | Some ctx =>
        try_finally
          (call_unit (DrawImage ctx (SrcBitmap bitmap))
             (fun h => ctx_drawImage pf h ctx (SrcBitmap bitmap));;
           let* imageData := ctx_read ctx in
           new_ImageRaw {| data := id_data imageData;
                           width := id_width imageData;
                           height := id_height imageData |})
          (close_quietly bitmap)
    end.

(** [!img.complete || img.naturalWidth === 0]. *)
Definition not_loaded (img : HTMLImageElement) : bool :=
  negb (complete img) || (naturalWidth img =? 0).

(** [await img.decode()]: resolves with the element loaded, or rejects. *)
Definition decode (img : HTMLImageElement) : M HTMLImageElement :=
  call (Decode (image_id img)) (fun h => image_decode pf h img).

(** What [fromHTMLImageElement] does with an element once it is loaded. *)
Definition rasterize_image (img : HTMLImageElement) : M ImageRaw :=
  if HAS_CREATE_IMAGE_BITMAP pf then
    let* bitmap := createOptimizedImageBitmap (SrcImage img) in
    fromImageBitmap bitmap
  else
    let* canvas := createCanvas (of_Z (naturalWidth img)) (of_Z (naturalHeight img)) in
    canvasDrawImage canvas (SrcImage img)
      (Some (of_Z (naturalWidth img))) (Some (of_Z (naturalHeight img)));;
    let* imageData := getImageData canvas in
    new_ImageRaw {| data := id_data imageData;
                    width := id_width imageData;
                    height := id_height imageData |}.

(** [ImageRaw.fromHTMLImageElement(img)]. *)
Definition fromHTMLImageElement (img : HTMLImageElement) : M ImageRaw :=
  if IS_WORKER pf then
    throw (Error "HTMLImageElement is not available in Web Worker. Use ImageBitmap instead.")
  else
    let* img := (if not_loaded img then decode img else mret img) in
    rasterize_image img.

(** [ImageRaw.fromHTMLVideoElement(video)]. *)
Definition fromHTMLVideoElement (video : HTMLVideoElement) : M ImageRaw :=
  if IS_WORKER pf then
    throw (Error "HTMLVideoElement is not available in Web Worker. Use ImageBitmap instead.")
  else if readyState video <? 2 then
    throw (Error "Video is not ready. Ensure video has loaded metadata and data.")
  else if HAS_CREATE_IMAGE_BITMAP pf then
    let* bitmap := createOptimizedImageBitmap (SrcVideo video) in
    fromImageBitmap bitmap
  else
    let* canvas := createCanvas (of_Z (videoWidth video)) (of_Z (videoHeight video)) in
    let* ctx := getContext2D canvas in
    match ctx with
    | None => throw (Error "Failed to create canvas 2D context")
    | Some ctx =>
        call_unit (DrawImage ctx (SrcVideo video))
          (fun h => ctx_drawImage pf h ctx (SrcVideo video));;
        let* imageData := ctx_read ctx in
        new_ImageRaw {| data := id_data imageData;
                        width := id_width imageData;
                        height := id_height imageData |}
    end.

(** The calls that reach this module's canvas helpers, from a client of
    the class or from the class itself. *)
Inductive request :=
| CreateCanvasReq (width height : number)
| GetContext2D (canvas : canvas)
| GetImageDataReq (canvas : canvas)
| CanvasDrawImage (canvas : canvas) (image : source) (width height : option number)
| CanvasPutImageData (canvas : canvas) (imageData : ImageData)
| CreateOptimizedImageBitmap (src : source)
| New (d : ImageRawData)
| FromImageBitmap (bitmap : ImageBitmap)
| FromHTMLImageElement (img : HTMLImageElement)
| FromHTMLVideoElement (video : HTMLVideoElement).

(** The world after a call, whatever it returned or threw. *)
Definition after {A} (c : M A) (w : world) : world := snd (c w).

Definition perform (r : request) (w : world) : world :=
  match r with
  | CreateCanvasReq width height => after (createCanvas width height) w
  | GetContext2D canvas => after (getContext2D canvas) w
  | GetImageDataReq canvas => after (getImageData canvas) w
  | CanvasDrawImage canvas image width height =>
      after (canvasDrawImage canvas image width height) w
  | CanvasPutImageData canvas imageData =>
      after (canvasPutImageData canvas imageData) w
  | CreateOptimizedImageBitmap src => after (createOptimizedImageBitmap src) w
  | New d => after (new_ImageRaw d) w
  | FromImageBitmap bitmap => after (fromImageBitmap bitmap) w
  | FromHTMLImageElement img => after (fromHTMLImageElement img) w
  | FromHTMLVideoElement video => after (fromHTMLVideoElement video) w
  end.

Definition perform_all (rs : list request) (w : world) : world :=
  foldl (fun w r => perform r w) w rs.

End WithPlatform.

(** A platform that hands out a new context object at every request, and
    otherwise answers every call normally. *)
Definition fickle_platform : platform :=
  {| IS_WORKER := false;
     HAS_OFFSCREEN_CANVAS := true;
     HAS_DOCUMENT := true;
     HAS_IMAGE := true;
     HAS_CREATE_IMAGE_BITMAP := true;
     drawable_width := fun _ _ => of_Z 1;
     drawable_height := fun _ _ => of_Z 1;
     canvas_getContext := fun h _ => Some (length h);
     ctx_drawImage := fun _ _ _ => None;
     ctx_getImageData := fun _ _ =>
       Normal {| id_data := [x00; x00; x00; xff];
                 id_width := of_Z 1; id_height := of_Z 1 |};
     ctx_putImageData := fun _ _ _ => None;
     new_ImageData := fun d w h =>
       Normal {| id_data := d; id_width := w; id_height := h |};
     bitmap_close := fun _ _ => None;
     image_decode := fun _ img =>
       Normal {| image_id := image_id img; complete := true;
                 naturalWidth := 1; naturalHeight := 1 |};
     createImageBitmap := fun _ _ _ =>
       Normal {| bitmap_id := 0; bitmap_width := 1; bitmap_height := 1 |} |}.

End ImageRawWorker.

(* ===================================================================== *)
(** * ImageRaw (browser), document-only variant                           *)
(* ===================================================================== *)

(** This variant makes every canvas with [document.createElement] and asks
    the canvas for its context each time, without a cache. *)

Module ImageRawDocument.
Import Platform.
Local Open Scope js_scope.

Section WithPlatform.
Variable pf : platform.

(** [document.createElement('canvas')]. *)
Definition createElement_canvas : M canvas :=
  fun w =>
    (Normal (canvases w),
     {| contextCache := contextCache w;
        canvases := S (canvases w);
        history := NewCanvas (canvases w) :: history w |}).

(** [canvas.getContext('2d', ...)]. *)
Definition getContext (canvas : canvas) : M (option context) :=
  fun w => (Normal (canvas_getContext pf (history w) canvas),
            record (GetContext canvas) w).

(** [canvas.getContext('2d')!]: a method call on the result throws a
    [TypeError] when the result is [null]. *)
Definition getContext_nonnull (canvas : canvas) : M context :=
  let* ctx := getContext canvas in
  match ctx with
  | None => throw TypeError
  | Some ctx => mret ctx
  end.

Definition ctx_read (ctx : context) : M ImageData :=
  call (GetImageData ctx) (fun h => ctx_getImageData pf h ctx).

(** [canvasGetImageData(canvas)]. *)
Definition canvasGetImageData (canvas : canvas) : M ImageData :=
  let* ctx := getContext_nonnull canvas in
  ctx_read ctx.

(** [canvasDrawImage(canvas, image, width, height)]. *)
Definition canvasDrawImage (canvas : canvas) (image : source)
    (width height : option number) : M unit :=
  let* w := or_else_lazy width (read_width pf image) in
  call_unit (SetWidth canvas w) (fun _ => None);;
  let* h := or_else_lazy height (read_height pf image) in
  call_unit (SetHeight canvas h) (fun _ => None);;
  let* ctx := getContext_nonnull canvas in
  call_unit (DrawImage ctx image) (fun h => ctx_drawImage pf h ctx image).

(** [canvasPutImageData(canvas, imageData)]. *)
Definition canvasPutImageData (canvas : canvas) (imageData : ImageData) : M unit :=
  let* ctx := getContext canvas in
  call_unit (SetWidth canvas (id_width imageData)) (fun _ => None);;
  call_unit (SetHeight canvas (id_height imageData)) (fun _ => None);;
  match ctx with
  | None => throw TypeError
  | Some ctx =>
      call_unit (PutImageData ctx) (fun h => ctx_putImageData pf h ctx imageData)
  end.

(** [new ImageRaw({ data, width, height })]. *)
Definition new_ImageRaw (d : ImageRawData) : M ImageRaw :=
  let newData := data d in
  let* canvas := createElement_canvas in
  let* imageData :=
    (fun w => (new_ImageData pf newData (width d) (height d), w)) in
  canvasPutImageData canvas imageData;;
  mret {| this_data := newData;
          this_width := width d;
          this_height := height d;
          this_canvas := canvas;
          this_imageData := imageData |}.

Definition read_bitmap_width (bitmap : ImageBitmap) : M Z :=
  call (BitmapWidth (bitmap_id bitmap)) (fun _ => Normal (bitmap_width bitmap)).

Definition read_bitmap_height (bitmap : ImageBitmap) : M Z :=
  call (BitmapHeight (bitmap_id bitmap)) (fun _ => Normal (bitmap_height bitmap)).

Definition close_quietly (bitmap : ImageBitmap) : M unit :=
  try_catch
    (call_unit (BitmapClose (bitmap_id bitmap)) (fun h => bitmap_close pf h bitmap))
    (fun _ => mret tt).

Definition has_zero_dimension (bitmap : ImageBitmap) : M bool :=
  let* w := read_bitmap_width bitmap in
  if w =? 0 then mret true
  else
    let* h := read_bitmap_height bitmap in
    mret (h =? 0).

(** [ImageRaw.fromImageBitmap(bitmap)]. *)
Definition fromImageBitmap (bitmap : ImageBitmap) : M ImageRaw :=
  let* invalid := has_zero_dimension bitmap in
  if invalid : bool then
    throw (Error "Invalid ImageBitmap: dimensions are zero (bitmap may be closed or neutered)")
  else
    let* canvas := createElement_canvas in
    let* w := read_bitmap_width bitmap in
    call_unit (SetWidth canvas (of_Z w)) (fun _ => None);;
    let* h := read_bitmap_height bitmap in
    call_unit (SetHeight canvas (of_Z h)) (fun _ => None);;
    let* ctx := getContext canvas in
    match ctx with
    | None =>
        close_quietly bitmap;;
        throw (Error "Failed to create canvas 2D context")
    | Some ctx =>
        try_finally
          (call_unit (DrawImage ctx (SrcBitmap bitmap))
             (fun h => ctx_drawImage pf h ctx (SrcBitmap bitmap));;
           let* imageData := ctx_read ctx in
           new_ImageRaw {| data := id_data imageData;
                           width := id_width imageData;
                           height := id_height imageData |})
          (close_quietly bitmap)
    end.

Definition not_loaded (img : HTMLImageElement) : bool :=
  negb (complete img) || (naturalWidth img =? 0).

Definition decode (img : HTMLImageElement) : M HTMLImageElement :=
  call (Decode (image_id img)) (fun h => image_decode pf h img).

(** What [fromHTMLImageElement] does with an element once it is loaded. *)
Definition rasterize_image (img : HTMLImageElement) : M ImageRaw :=
  let* canvas := createElement_canvas in
  canvasDrawImage canvas (SrcImage img)
    (Some (of_Z (naturalWidth img))) (Some (of_Z (naturalHeight img)));;
  let* imageData := canvasGetImageData canvas in
  new_ImageRaw {| data := id_data imageData;
                  width := id_width imageData;
                  height := id_height imageData |}.

(** [ImageRaw.fromHTMLImageElement(img)]. *)
Definition fromHTMLImageElement (img : HTMLImageElement) : M ImageRaw :=
  let* img := (if not_loaded img then decode img else mret img) in
  rasterize_image img.

(** [ImageRaw.fromHTMLVideoElement(video)]. *)
Definition fromHTMLVideoElement (video : HTMLVideoElement) : M ImageRaw :=
  if readyState video <? 2 then
    throw (Error "Video is not ready. Ensure video has loaded metadata and data.")
  else
    let* canvas := createElement_canvas in
    call_unit (SetWidth canvas (of_Z (videoWidth video))) (fun _ => None);;
    call_unit (SetHeight canvas (of_Z (videoHeight video))) (fun _ => None);;
    let* ctx := getContext canvas in
    match ctx with
    | None => throw (Error "Failed to create canvas 2D context")
    | Some ctx =>
        call_unit (DrawImage ctx (SrcVideo video))
          (fun h => ctx_drawImage pf h ctx (SrcVideo video));;
        let* imageData := ctx_read ctx in
        new_ImageRaw {| data := id_data imageData;
                        width := id_width imageData;
                        height := id_height imageData |}
    end.

End WithPlatform.

End ImageRawDocument.

(* ===================================================================== *)
(** * Ocr.detect: the promise-chained mutex                               *)
(* ===================================================================== *)

(** JavaScript runs one task at a time, and an [async] function gives up
    control only at an [await].  A call of [detect] therefore proceeds in
    three atomic steps:

    - the call itself, up to [await currentMutex]: it reads [this.#mutex],
      makes a new pending promise, stores it in [this.#mutex] and suspends;
    - the resumption after [await currentMutex], possible once that promise
      is resolved: [#detectInternal] starts;
    - the settlement of [#detectInternal]'s promise, fulfilled or rejected:
      the [finally] block calls [releaseMutex], and [detect]'s own promise
      settles the same way.

    Between these steps any other call of the session may take its own. *)

Module Ocr.

(** How the promise of [#detectInternal] settles. *)
Inductive outcome :=
| Fulfilled (result : nat)
| Rejected (reason : string).

Inductive phase :=
| Waiting
| Running
| Settled (o : outcome).

(** One call of [detect]: the promise it awaits ([currentMutex]), the
    promise its [releaseMutex] resolves, and how far it has come. *)
Record call := {
  currentMutex : nat;
  releaseMutex : nat;
  progress : phase;
}.

(** A session: [this.#mutex] (a promise, by its index), the promises made
    so far with whether each is resolved, the calls in the order they were
    made, and, as instrumentation, the order in which the bodies started. *)
Record session := {
  mutex : nat;
  promises : list bool;
  calls : list call;
  started : list nat;
}.

(** [new Ocr(...)]: [#mutex = Promise.resolve()]. *)
Definition create : session :=
  {| mutex := 0; promises := [true]; calls := []; started := [] |}.

Inductive event :=
| Detect
| Resume (k : nat)
| Settle (k : nat) (o : outcome).

Definition set_progress (p : phase) (c : call) : call :=
  {| currentMutex := currentMutex c;
     releaseMutex := releaseMutex c;
     progress := p |}.

Definition is_waiting (c : call) : bool :=
  match progress c with Waiting => true | _ => false end.

Definition is_running (c : call) : bool :=
  match progress c with Running => true | _ => false end.

Definition step (ev : event) (s : session) : option session :=
  match ev with
  | Detect =>
      let currentMutex := mutex s in
      let fresh := length (promises s) in
      Some {| mutex := fresh;
              promises := promises s ++ [false];
              calls := calls s ++ [{| currentMutex := currentMutex;
                                      releaseMutex := fresh;
                                      progress := Waiting |}];
              started := started s |}
  | Resume k =>
      match calls s !! k with
      | Some c =>
          if is_waiting c && default false (promises s !! currentMutex c) then
            Some {| mutex := mutex s;
                    promises := promises s;
                    calls := <[k := set_progress Running c]> (calls s);
                    started := started s ++ [k] |}
          else None
      | None => None
      end
  | Settle k o =>
      match calls s !! k with
      | Some c =>
          if is_running c then
            Some {| mutex := mutex s;
                    promises := <[releaseMutex c := true]> (promises s);
                    calls := <[k := set_progress (Settled o) c]> (calls s);
                    started := started s |}
          else None
      | None => None
      end
  end.

(** A schedule: the steps in the order they are taken. *)
Fixpoint run (schedule : list event) (s : session) : option session :=
  match schedule with
  | [] => Some s
  | ev :: rest =>
      match step ev s with
      | Some s' => run rest s'
      | None => None
      end
  end.

(** The number of [#detectInternal] bodies in execution. *)
Definition running (s : session) : nat :=
  length (filter (fun c => is_running c = true) (calls s)).

Definition progress_of (s : session) (k : nat) : option phase :=
  progress <$> calls s !! k.

(** Whether the promise [p] is resolved. *)
Definition resolved (s : session) (p : nat) : bool :=
  default false (promises s !! p).

Definition is_settled (c : call) : bool :=
  match progress c with Settled _ => true | _ => false end.

(** What holds of a session at every moment.  The calls are chained: call
    [k] awaits promise [k] and resolves promise [k + 1], which is resolved
    exactly when the call has settled; the bodies started so far are those
    of the calls [0 .. n-1] in this order, and all of them but possibly the
    last have settled. *)
Record consistent (s : session) : Prop := {
  promises_length : length (promises s) = S (length (calls s));
  mutex_last : mutex s = length (calls s);
  first_resolved : promises s !! 0%nat = Some true;
  chained : forall k c, calls s !! k = Some c ->
    currentMutex c = k /\ releaseMutex c = S k
    /\ promises s !! S k = Some (is_settled c);
  fifo : started s = seq 0 (length (started s));
  started_bound : (length (started s) <= length (calls s))%nat;
  waiting_behind : forall k c, calls s !! k = Some c ->
    (is_waiting c = true <-> (length (started s) <= k)%nat);
  settled_before : forall k c, calls s !! k = Some c ->
    (S k < length (started s))%nat -> is_settled c = true;
}.

(** No body is in execution. *)
Definition idle (s : session) : Prop :=
  forall k c, calls s !! k = Some c -> is_running c = false.

(** The scenario of the design document: the first call fails (its fetch
    is rejected) while a second one is queued, which then runs and
    succeeds. *)
Definition failing_then_succeeding : list event :=
  [Detect; Detect; Resume 0; Settle 0 (Rejected "ResourceFetchFailed");
   Resume 1; Settle 1 (Fulfilled 42)].

End Ocr.

(* ===================================================================== *)
(** * ModelBase: the tensor handed to the network                         *)
(* ===================================================================== *)

Module ModelInput.

(** [ModelData.data]: [number[] | Uint8Array | Float32Array]. *)
Inductive model_array :=
| Numbers (xs : list number)
| Bytes (bs : list byte)
| Floats (xs : list number).

(** [new Tensor('float32', data, dims)], as [#prepareInput] builds it. *)
Record Tensor := {
  tensor_type : string;
  tensor_data : list number;
  tensor_dims : list number;
}.

(** [Float32Array.from(data)]: every element is converted to a number and
    stored as a 32-bit float. *)
Definition Float32Array_from (data : model_array) : list number :=
  match data with
  | Numbers xs => fround <$> xs
  | Bytes bs => (fun b => fround (of_byte b)) <$> bs
  | Floats xs => fround <$> xs
  end.

(** [#prepareInput(modelData)]: a [Float32Array] is used as it is. *)
Definition prepareInput (data : model_array) (width height : number) : Tensor :=
  let input :=
    match data with
    | Floats xs => xs
    | _ => Float32Array_from data
    end in
  {| tensor_type := "float32";
     tensor_data := input;
     tensor_dims := [of_Z 1; of_Z 3; height; width] |}.

(** [#prepareInput] applied to what [imageToInput] returns. *)
Definition prepareInput_of (m : ModelBase.ModelData) : Tensor :=
  prepareInput (Floats (ModelBase.md_data m)) (ModelBase.md_width m)
    (ModelBase.md_height m).

End ModelInput.

Module ByteTable.

(** The 256 byte values, in increasing order. *)
Definition all_bytes : list byte :=
  (fun n => default x00 (Byte.of_N (N.of_nat n))) <$> seq 0 256.

(** What [imageToInput] stores for a byte under the default parameters:
    [(b / 255 - 0) / 1], rounded to a 32-bit float. *)
Definition default_element (b : byte) : number :=
  fround (div (sub (div (of_byte b) (of_Z 255)) (of_Z 0)) (of_Z 1)).

(** The table of stored values, each computed once. *)
Definition element_table : list (byte * number) :=
  (fun b => (b, default_element b)) <$> all_bytes.

(** The stored values are strictly increasing along the table: checked on
    all pairs of entries. *)
Definition increasing (table : list (byte * number)) : bool :=
  forallb (fun e1 =>
    forallb (fun e2 =>
      implb (Byte.to_N (fst e1) <? Byte.to_N (fst e2))%N
            (ltb (snd e1) (snd e2)))
      table)
    table.

End ByteTable.

(* ===================================================================== *)
(** * ImageRaw (browser): the universal factory and the URL loader        *)
(* ===================================================================== *)

Module Realm.
Import Platform.

(** How the running realm reads an arbitrary value: which of the platform
    classes are defined at all ([typeof C !== 'undefined']), and the
    platform object, or the pixel buffer, that a value of the matching kind
    stands for. *)
Record realm := {
  class_defined : JS.class -> bool;
  as_bitmap : JS.value -> ImageBitmap;
  as_image : JS.value -> HTMLImageElement;
  as_video : JS.value -> HTMLVideoElement;
  as_canvas : JS.value -> canvas;
  as_raw : JS.value -> ImageRawData;
}.

(** The network and the image decoder behind [fetch(url)],
    [response.blob()] and [new Image()] with [src] set and [decode()]
    awaited.  As with the other platform calls, an answer may depend on the
    history; these three calls leave no entry in it. *)
Record loader := {
  fetch : list event -> string -> completion nat;
  response_blob : list event -> nat -> completion nat;
  image_from_url : list event -> string -> completion HTMLImageElement;
}.

(** A platform call that is not recorded in the history. *)
Definition ask {A} (answer : list event -> completion A) : M A :=
  fun w => (answer (history w), w).

(** [typeof C !== 'undefined' && input instanceof C]. *)
Definition is_instance (rl : realm) (C : JS.class) (input : JS.value) : bool :=
  class_defined rl C && JS.instanceof input C.

End Realm.

Module ImageRawWorkerFactory.
Import Platform Realm ImageRawWorker.
Local Open Scope js_scope.

Section WithPlatform.
Variable pf : platform.
Variable rl : realm.
Variable ld : loader.

Definition isImageBitmap : JS.value -> bool := is_instance rl JS.ImageBitmap.
Definition isHTMLImageElement : JS.value -> bool := is_instance rl JS.HTMLImageElement.
Definition isHTMLCanvasElement : JS.value -> bool := is_instance rl JS.HTMLCanvasElement.
Definition isHTMLVideoElement : JS.value -> bool := is_instance rl JS.HTMLVideoElement.

(** [HAS_OFFSCREEN_CANVAS && input instanceof OffscreenCanvas]. *)
Definition isOffscreenCanvas (input : JS.value) : bool :=
  HAS_OFFSCREEN_CANVAS pf && JS.instanceof input JS.OffscreenCanvas.

(** [new ImageRaw({ data: imageData.data, width: imageData.width,
    height: imageData.height })]. *)
Definition of_ImageData (imageData : ImageData) : M ImageRaw :=
  new_ImageRaw pf {| data := id_data imageData;
                     width := id_width imageData;
                     height := id_height imageData |}.

(** [ImageRaw.fromOffscreenCanvas(canvas)]. *)
Definition fromOffscreenCanvas (canvas : canvas) : M ImageRaw :=
  let* imageData := getImageData pf canvas in
  of_ImageData imageData.

(** [ImageRaw.fromHTMLCanvasElement(canvas)]. *)
Definition fromHTMLCanvasElement (canvas : canvas) : M ImageRaw :=
  if IS_WORKER pf then
    throw (Error "HTMLCanvasElement is not available in Web Worker. Use OffscreenCanvas instead.")
  else
    let* imageData := getImageData pf canvas in
    of_ImageData imageData.

(** [imageFromUrl(url)]. *)
Definition imageFromUrl (url : string) : M HTMLImageElement :=
  ask (fun h => image_from_url ld h url).

(** [ImageRaw.open(url)]. *)
Definition open (url : string) : M ImageRaw :=
  if HAS_CREATE_IMAGE_BITMAP pf then
    let* response := ask (fun h => fetch ld h url) in
    let* blob := ask (fun h => response_blob ld h response) in
    let* bitmap := createOptimizedImageBitmap pf (SrcBlob blob) in
    fromImageBitmap pf bitmap
  else if negb (IS_WORKER pf) && HAS_IMAGE pf then
    let* image := imageFromUrl url in
    let* canvas :=
      createCanvas pf (of_Z (naturalWidth image)) (of_Z (naturalHeight image)) in
    canvasDrawImage pf canvas (SrcImage image)
      (Some (of_Z (naturalWidth image))) (Some (of_Z (naturalHeight image)));;
    let* imageData := getImageData pf canvas in
    of_ImageData imageData
  else
    throw (Error "Cannot load image from URL: no supported method available").

(** [ImageRaw.from(input)]. *)
Definition from (input : JS.value) : M ImageRaw :=
  match input with
  | JS.VString url => open url
  | _ =>
      if isImageBitmap input then fromImageBitmap pf (as_bitmap rl input)
      else if isOffscreenCanvas input then fromOffscreenCanvas (as_canvas rl input)
      else if isHTMLImageElement input then
        if IS_WORKER pf then
          throw (Error "HTMLImageElement is not available in Web Worker. Use ImageBitmap instead.")
        else fromHTMLImageElement pf (as_image rl input)
      else if isHTMLCanvasElement input then
        if IS_WORKER pf then
          throw (Error "HTMLCanvasElement is not available in Web Worker. Use OffscreenCanvas instead.")
        else fromHTMLCanvasElement (as_canvas rl input)
      else if isHTMLVideoElement input then
        if IS_WORKER pf then
          throw (Error "HTMLVideoElement is not available in Web Worker. Use ImageBitmap instead.")
        else fromHTMLVideoElement pf (as_video rl input)
      else if ImageRaw.isImageRawData input then new_ImageRaw pf (as_raw rl input)
      else throw (Error "Unsupported image input type")
  end.

End WithPlatform.

End ImageRawWorkerFactory.

Module ImageRawDocumentFactory.
Import Platform Realm ImageRawDocument.
Local Open Scope js_scope.

Section WithPlatform.
Variable pf : platform.
Variable rl : realm.
Variable ld : loader.

Definition of_ImageData (imageData : ImageData) : M ImageRaw :=
  new_ImageRaw pf {| data := id_data imageData;
                     width := id_width imageData;
                     height := id_height imageData |}.

(** [ImageRaw.fromHTMLCanvasElement(canvas)]. *)
Definition fromHTMLCanvasElement (canvas : canvas) : M ImageRaw :=
  let* imageData := canvasGetImageData pf canvas in
  of_ImageData imageData.

(** [ImageRaw.open(url)]. *)
Definition open (url : string) : M ImageRaw :=
  let* image := ask (fun h => image_from_url ld h url) in
  let* canvas := createElement_canvas in
  canvasDrawImage pf canvas (SrcImage image)
    (Some (of_Z (naturalWidth image))) (Some (of_Z (naturalHeight image)));;
  let* imageData := canvasGetImageData pf canvas in
  of_ImageData imageData.

(** [ImageRaw.from(input)]. *)
Definition from (input : JS.value) : M ImageRaw :=
  match input with
  | JS.VString url => open url
  | _ =>
      if is_instance rl JS.ImageBitmap input then
        fromImageBitmap pf (as_bitmap rl input)
      else if is_instance rl JS.HTMLImageElement input then
        fromHTMLImageElement pf (as_image rl input)
      else if is_instance rl JS.HTMLCanvasElement input then
        fromHTMLCanvasElement (as_canvas rl input)
      else if is_instance rl JS.HTMLVideoElement input then
        fromHTMLVideoElement pf (as_video rl input)
      else if ImageRaw.isImageRawData input then new_ImageRaw pf (as_raw rl input)
      else throw (Error "Unsupported image input type")
  end.

End WithPlatform.

End ImageRawDocumentFactory.

Module Inputs.
Import JS.

(** The classes [from] looks for. *)
Definition handle_classes : list JS.class :=
  [JS.ImageBitmap; JS.OffscreenCanvas; JS.HTMLImageElement;
   JS.HTMLCanvasElement; JS.HTMLVideoElement].

(** An input [from] has no branch for: not a string, not an instance of one
    of the platform classes, and not accepted by [isImageRawData].  That is
    [undefined], [null], every boolean, number and function, and every
    other object without the three properties or a byte array. *)
Definition unrecognised (input : JS.value) : bool :=
  match input with
  | JS.VString _ => false
  | JS.VObject cls _ =>
      negb (bool_decide (cls ∈ handle_classes))
      && negb (ImageRaw.isImageRawData input)
  | _ => true
  end.

End Inputs.

Module Fixtures.
Import Platform Realm.

(** A realm in which every platform class is defined. *)
Definition full_realm : realm :=
  {| class_defined := fun _ => true;
     as_bitmap := fun _ => {| bitmap_id := 0; bitmap_width := 1; bitmap_height := 1 |};
     as_image := fun _ =>
       {| image_id := 0; complete := true; naturalWidth := 1; naturalHeight := 1 |};
     as_video := fun _ =>
       {| video_id := 0; readyState := 4; videoWidth := 1; videoHeight := 1 |};
     as_canvas := fun _ => 0%nat;
     as_raw := fun _ => {| data := [x00; x00; x00; xff]; width := of_Z 1; height := of_Z 1 |} |}.

(** A loader whose network is down. *)
Definition offline_loader : loader :=
  {| fetch := fun _ _ => Throw (PlatformException "TypeError: Failed to fetch");
     response_blob := fun _ _ => Throw (PlatformException "TypeError");
     image_from_url := fun _ _ => Throw (PlatformException "EncodingError") |}.

(** A loader that answers every request. *)
Definition online_loader : loader :=
  {| fetch := fun _ _ => Normal 0%nat;
     response_blob := fun _ _ => Normal 0%nat;
     image_from_url := fun _ _ =>
       Normal {| image_id := 0; complete := true; naturalWidth := 1; naturalHeight := 1 |} |}.

End Fixtures.

Module CacheVocabulary.
Import Platform.

(** While the invariant [I] holds, the computation keeps it and every
    event it performs satisfies [P]. *)
Definition emits_while (I : world -> Prop) (P : event -> Prop) {A} (c : M A) : Prop :=
  forall w, I w ->
    I (snd (c w))
    /\ exists evs, history (snd (c w)) = evs ++ history w /\ Forall P evs.

(** The canvas has a context in the cache. *)
Definition cached (canvas : canvas) (ctx : context) (w : world) : Prop :=
  contextCache w !! canvas = Some ctx.

(** An event other than the request [canvas.getContext('2d')] for this
    canvas. *)
Definition not_asked (canvas : canvas) (ev : event) : Prop :=
  ev <> GetContext canvas.

End CacheVocabulary.

Module Results.
Import Platform Realm.

(** Whenever the computation returns, its result satisfies [Q]. *)
Definition ensures {A} (Q : A -> Prop) (c : M A) : Prop :=
  forall w a w', c w = (Normal a, w') -> Q a.

(** The instance holds the bytes and dimensions of the buffer [d]. *)
Definition holds (d : ImageRawData) (r : ImageRaw) : Prop :=
  this_data r = data d /\ this_width r = width d /\ this_height r = height d.

(** The instance holds what some call of [ctx.getImageData] returned. *)
Definition read_back (pf : platform) (r : ImageRaw) : Prop :=
  exists h ctx imageData,
    ctx_getImageData pf h ctx = Normal imageData
    /\ holds {| data := id_data imageData;
                width := id_width imageData;
                height := id_height imageData |} r.

End Results.

(* ===================================================================== *)
(** * ImageRaw (browser): resize and #apply                               *)
(* ===================================================================== *)

Module Invariant.
Import Platform.

(** Modelled from the library [tiny-invariant], which is not part of the
    repository: a failed [invariant(condition, message)] throws
    [Error("Invariant failed")] in a production build and
    [Error("Invariant failed: " + message)] otherwise. *)
Definition invariant_failed (production : bool) (message : string) : exn :=
  Error (if production then "Invariant failed"
         else "Invariant failed: " +:+ message).

End Invariant.

Module ImageRawWorkerResize.
Import Platform ImageRawWorker Invariant.
Local Open Scope js_scope.

Section WithPlatform.
Variable pf : platform.
Variable production : bool.

(** [this.#apply(imageData)]. *)
Definition apply_ImageData (this : ImageRaw) (imageData : ImageData) : M ImageRaw :=
  canvasPutImageData pf (this_canvas this) imageData;;
  mret {| this_data := id_data imageData;
          this_width := id_width imageData;
          this_height := id_height imageData;
          this_canvas := this_canvas this;
          this_imageData := imageData |}.

(** [this.resize({ width, height })]. *)
Definition resize (this : ImageRaw) (size : ImageRaw.SizeOption) : M ImageRaw :=
  match ImageRaw.resize (this_width this) (this_height this) size with
  | None => throw (invariant_failed production "both width and height are undefined")
  | Some (newWidth, newHeight) =>
      let* newCanvas := createCanvas pf newWidth newHeight in
      canvasDrawImage pf newCanvas (SrcCanvas (this_canvas this))
        (Some newWidth) (Some newHeight);;
      let* newImageData := getImageData pf newCanvas in
      apply_ImageData this newImageData
  end.

End WithPlatform.

End ImageRawWorkerResize.

Module ImageRawDocumentResize.
Import Platform ImageRawDocument Invariant.
Local Open Scope js_scope.

Section WithPlatform.
Variable pf : platform.
Variable production : bool.

(** [this.#apply(imageData)]. *)
Definition apply_ImageData (this : ImageRaw) (imageData : ImageData) : M ImageRaw :=
  canvasPutImageData pf (this_canvas this) imageData;;
  mret {| this_data := id_data imageData;
          this_width := id_width imageData;
          this_height := id_height imageData;
          this_canvas := this_canvas this;
          this_imageData := imageData |}.

(** [this.resize({ width, height })]. *)
Definition resize (this : ImageRaw) (size : ImageRaw.SizeOption) : M ImageRaw :=
  match ImageRaw.resize (this_width this) (this_height this) size with
  | None => throw (invariant_failed production "both width and height are undefined")
  | Some (newWidth, newHeight) =>
      let* newCanvas := createElement_canvas in
      canvasDrawImage pf newCanvas (SrcCanvas (this_canvas this))
        (Some newWidth) (Some newHeight);;
      let* newImageData := canvasGetImageData pf newCanvas in
      apply_ImageData this newImageData
  end.

End WithPlatform.

End ImageRawDocumentResize.

(* ===================================================================== *)
(** * Ocr.detect: schedules as traces                                     *)
(* ===================================================================== *)

Module OcrTrace.
Import Ocr.

(** The bodies of a schedule run in turn: reading the schedule from left to
    right, with [next] the call whose body is due and [inside] telling
    whether that body is in execution, a [Resume] must be for the call that
    is due while no body is in execution, and a [Settle] must be for the
    body in execution, after which the following call is due.  Calls being
    made ([Detect]) may occur anywhere. *)
Fixpoint in_turn (next : nat) (inside : bool) (schedule : list event) : bool :=
  match schedule with
  | [] => true
  | Detect :: rest => in_turn next inside rest
  | Resume k :: rest => negb inside && (k =? next)%nat && in_turn next true rest
  | Settle k _ :: rest => inside && (k =? next)%nat && in_turn (S next) false rest
  end.

End OcrTrace.

(* ===================================================================== *)
(** * ImageRaw.drawBox                                                    *)
(* ===================================================================== *)

Module DrawBox.
Import Platform.
Local Open Scope js_scope.










End DrawBox.

(* ===================================================================== *)
(** * The size of a canvas, and where pixel data comes from               *)
(* ===================================================================== *)

Module CanvasSize.
Import Platform.

(** The value last assigned to [canvas.width] in a history (latest event
    first), if there was an assignment. *)
Fixpoint width_of (h : list event) (c : canvas) : option number :=
  match h with
  | [] => None
  | SetWidth c' x :: rest => if Nat.eqb c' c then Some x else width_of rest c
  | _ :: rest => width_of rest c
  end.

Fixpoint height_of (h : list event) (c : canvas) : option number :=
  match h with
  | [] => None
  | SetHeight c' x :: rest => if Nat.eqb c' c then Some x else height_of rest c
  | _ :: rest => height_of rest c
  end.

(** A size that a canvas keeps as it was assigned: a positive integer
    below 2^31. *)
Definition is_dimension (x : number) : Prop :=
  is_finite x = true
  /\ exists n : Z, 1 <= n < 2 ^ 31 /\ (to_Q x == inject_Z n)%Q.

(** [given || own], for numbers. *)
Definition final (given own : number) : number :=
  if truthy given then given else own.

(** The sizes [canvasDrawImage] assigns: [width || image.width] and
    [height || image.height], each read when it is assigned. *)
Definition drawn_width (pf : platform) (h : list event) (image : source)
    (given : number) : number :=
  if truthy given then given else drawable_width pf h image.

Definition drawn_height (pf : platform) (h : list event) (image : source)
    (given : number) : number :=
  if truthy given then given else drawable_height pf h image.

(** Events that neither assign a size nor read pixels. *)
Definition leaves_image (ev : event) : Prop :=
  match ev with
  | SetWidth _ _ | SetHeight _ _ | GetImageData _ => False
  | _ => True
  end.

(** Events that concern the canvas [c] alone. *)
Definition on_canvas (c : canvas) (ev : event) : Prop :=
  match ev with
  | NewCanvas c' | SetWidth c' _ | SetHeight c' _ | GetContext c' => c' = c
  | _ => False
  end.

(** What [resize] relies on of a canvas, as the HTML standard has it: the
    [width] and [height] of a canvas read what was assigned, and
    [getImageData(0, 0, canvas.width, canvas.height)] on a context of the
    canvas returns image data of that width and height. *)
Record standard_canvas (pf : platform) : Prop := {
  reports_width : forall h c x,
    width_of h c = Some x -> is_dimension x ->
    drawable_width pf h (SrcCanvas c) = x;
  reports_height : forall h c y,
    height_of h c = Some y -> is_dimension y ->
    drawable_height pf h (SrcCanvas c) = y;
  reads_size : forall h0 h c ctx d x y,
    canvas_getContext pf h0 c = Some ctx ->
    width_of h c = Some x -> height_of h c = Some y ->
    is_dimension x -> is_dimension y ->
    ctx_getImageData pf h ctx = Normal d ->
    id_width d = x /\ id_height d = y;
}.

(** The instance and its canvas agree: the canvas exists, and its width and
    height are the instance's.  The constructor and [#apply] leave an
    instance so. *)
Record in_step (w : world) (this : ImageRaw) : Prop := {
  allocated : (this_canvas this < canvases w)%nat;
  width_in_step : width_of (history w) (this_canvas this) = Some (this_width this);
  height_in_step : height_of (history w) (this_canvas this) = Some (this_height this);
}.

(** No context is cached for a canvas that does not exist yet. *)
Definition cache_allocated (w : world) : Prop :=
  forall c, (canvases w <= c)%nat -> contextCache w !! c = None.

(** The instance that [#apply] leaves: the fields of the image data, on
    the canvas the instance had. *)
Definition applied (this : ImageRaw) (d : ImageData) : ImageRaw :=
  {| this_data := id_data d;
     this_width := id_width d;
     this_height := id_height d;
     this_canvas := this_canvas this;
     this_imageData := d |}.

(** The latest [getImageData] of a history: the context that was asked,
    and the history at that moment. *)
Fixpoint last_read (h : list event) : option (context * list event) :=
  match h with
  | [] => None
  | GetImageData ctx :: rest => Some (ctx, rest)
  | _ :: rest => last_read rest
  end.

(** In the world [w], the image data [d] is what the latest
    [getImageData] answered; it was asked of the cached context of the
    canvas [c], right after [source] had been drawn through that same
    context. *)
Definition read_after_draw (pf : platform) (w : world) (source : source)
    (c : canvas) (d : ImageData) : Prop :=
  exists ctx h,
    last_read (history w) = Some (ctx, DrawImage ctx source :: h)
    /\ contextCache w !! c = Some ctx
    /\ ctx_getImageData pf (DrawImage ctx source :: h) ctx = Normal d.

(** The same in the document-only variant, which asks the canvas [c] for
    its context once to draw and once more to read. *)
Definition read_after_draw_on (pf : platform) (w : world) (source : source)
    (c : canvas) (d : ImageData) : Prop :=
  exists drawing reading h,
    last_read (history w)
    = Some (reading, GetContext c :: DrawImage drawing source :: GetContext c :: h)
    /\ canvas_getContext pf h c = Some drawing
    /\ canvas_getContext pf (DrawImage drawing source :: GetContext c :: h) c
       = Some reading
    /\ ctx_getImageData pf
         (GetContext c :: DrawImage drawing source :: GetContext c :: h) reading
       = Normal d.

(** All pixels transparent black. *)
Definition blank (x y : number) : list byte :=
  replicate (Z.to_nat (4 * Qfloor (to_Q x) * Qfloor (to_Q y))) x00.

(** A platform with standard canvases.  The context of the canvas [c] is
    named [c]; a canvas that was never sized has the default size 300 by
    150; every call succeeds. *)
Definition standard_platform : platform :=
  {| IS_WORKER := false;
     HAS_OFFSCREEN_CANVAS := true;
     HAS_DOCUMENT := true;
     HAS_IMAGE := true;
     HAS_CREATE_IMAGE_BITMAP := true;
     drawable_width := fun h src =>
       match src with
       | SrcCanvas c => default (of_Z 300) (width_of h c)
       | SrcBitmap b => of_Z (bitmap_width b)
       | SrcImage img => of_Z (naturalWidth img)
       | SrcVideo video => of_Z (videoWidth video)
       | SrcBlob _ => NaN
       end;
     drawable_height := fun h src =>
       match src with
       | SrcCanvas c => default (of_Z 150) (height_of h c)
       | SrcBitmap b => of_Z (bitmap_height b)
       | SrcImage img => of_Z (naturalHeight img)
       | SrcVideo video => of_Z (videoHeight video)
       | SrcBlob _ => NaN
       end;
     canvas_getContext := fun _ c => Some c;
     ctx_drawImage := fun _ _ _ => None;
     ctx_getImageData := fun h ctx =>
       let x := default (of_Z 300) (width_of h ctx) in
       let y := default (of_Z 150) (height_of h ctx) in
       Normal {| id_data := blank x y; id_width := x; id_height := y |};
     ctx_putImageData := fun _ _ _ => None;
     new_ImageData := fun d x y =>
       Normal {| id_data := d; id_width := x; id_height := y |};
     bitmap_close := fun _ _ => None;
     image_decode := fun _ img =>
       Normal {| image_id := image_id img; complete := true;
                 naturalWidth := 1; naturalHeight := 1 |};
     createImageBitmap := fun _ src _ =>
       Normal {| bitmap_id := 0; bitmap_width := 1; bitmap_height := 1 |} |}.

(** The instance that [new ImageRaw(d)] makes on the standard platform in
    a world without canvases, and the world it leaves. *)
Definition instance_of (d : ImageRawData) : ImageRaw :=
  {| this_data := data d;
     this_width := width d;
     this_height := height d;
     this_canvas := 0%nat;
     this_imageData :=
       {| id_data := data d; id_width := width d; id_height := height d |} |}.

Definition world_of (d : ImageRawData) : world :=
  {| contextCache := <[0%nat := 0%nat]> ∅;
     canvases := 1;
     history :=
       [PutImageData 0%nat; GetContext 0%nat; SetHeight 0%nat (height d);
        SetWidth 0%nat (width d); NewCanvas 0%nat] |}.



(** An image 3 wide and 22 high. *)
Definition tall_data : ImageRawData :=
  {| data := blank (of_Z 3) (of_Z 22); width := of_Z 3; height := of_Z 22 |}.

End CanvasSize.

(* ===================================================================== *)
(** * Conversions: what they throw and what they return                   *)
(* ===================================================================== *)

Module Conversion.
Import Platform.

(** Events other than a read of pixels. *)
Definition reads_nothing (ev : event) : Prop :=
  match ev with
  | GetImageData _ => False
  | _ => True
  end.

(** An exception that came out of a call into the platform ([close()] is
    left out: what it throws is caught and dropped). *)
Inductive raised_by (pf : platform) (e : exn) : Prop :=
| by_decode h img :
    image_decode pf h img = Throw e -> raised_by pf e
| by_createImageBitmap h src options :
    createImageBitmap pf h src options = Throw e -> raised_by pf e
| by_drawImage h ctx src :
    ctx_drawImage pf h ctx src = Some e -> raised_by pf e
| by_getImageData h ctx :
    ctx_getImageData pf h ctx = Throw e -> raised_by pf e
| by_putImageData h ctx d :
    ctx_putImageData pf h ctx d = Some e -> raised_by pf e
| by_new_ImageData d x y :
    new_ImageData pf d x y = Throw e -> raised_by pf e.

(** The errors that the conversion of an image element raises itself: in
    the worker-capable variant, which tests what it gets, and in the
    document-only variant, where a method call on a context that is [null]
    gives a [TypeError]. *)
Definition worker_errors : list exn :=
  [Error "Invalid ImageBitmap: dimensions are zero (bitmap may be closed or neutered)";
   Error "No canvas support available. Neither OffscreenCanvas nor document is available.";
   Error "Failed to create canvas 2D context";
   Error "Failed to get 2D context"].

Definition document_errors : list exn := [TypeError].

(** The error for a video that has no frame yet. *)
Definition not_ready_error : exn :=
  Error "Video is not ready. Ensure video has loaded metadata and data.".

(** Whatever the computation throws satisfies [P]. *)
Definition throws_only (P : exn -> Prop) {A} (c : M A) : Prop :=
  forall w e w', c w = (Throw e, w') -> P e.

(** A failure of the conversion: the platform's exception, or one of the
    conversion's own errors. *)
Definition conversion_failure (pf : platform) (own : list exn) (e : exn) : Prop :=
  raised_by pf e \/ In e own.

(** What is drawn for a loaded image element: the element itself, or a
    bitmap that [createImageBitmap] made from it. *)
Inductive drawn_from (pf : platform) (loaded : HTMLImageElement) : source -> Prop :=
| the_element : drawn_from pf loaded (SrcImage loaded)
| its_bitmap h options b :
    createImageBitmap pf h (SrcImage loaded) options = Normal b ->
    drawn_from pf loaded (SrcBitmap b).

(** The pixel buffer of an image data. *)
Definition buffer_of (d : ImageData) : ImageRawData :=
  {| data := id_data d; width := id_width d; height := id_height d |}.

End Conversion.

(* ===================================================================== *)
(** * Properties of the tensor preparer                                   *)
(* ===================================================================== *)

Section TypedArrayFacts.

Lemma f32_set_index (a : list number) (k : Q) (n : nat) (v : number) :
  (k == inject_Z (Z.of_nat n))%Q ->
  f32_set a k v = <[n := fround v]> a.
Proof.
  intros Hk. unfold f32_set.
  rewrite (Qred_complete _ _ Hk), inject_Z_Qred. cbn [Qden Qnum inject_Z].
  rewrite Pos.eqb_refl. cbn [andb].
  destruct (Z.leb_spec 0 (Z.of_nat n)) as [_|Hneg]; [|lia].
  by rewrite Nat2Z.id.
Qed.

Lemma f32_set_length (a : list number) (k : Q) (v : number) :
  length (f32_set a k v) = length a.
Proof.
  unfold f32_set. destruct (_ && _); [apply length_insert | done].
Qed.

Lemma f32_new_length (k : Q) (n : nat) :
  (k == inject_Z (Z.of_nat n))%Q -> length (f32_new k) = n.
Proof.
  intros Hk. unfold f32_new.
  rewrite length_replicate, (Qfloor_comp _ _ Hk), Qfloor_Z. apply Nat2Z.id.
Qed.

End TypedArrayFacts.

Module ModelBaseFacts.
Import ModelBase.

Section Loop.
Variables (image_data : list byte) (mean std : list number).
Variable n : nat.
Hypothesis Hlen : length image_data = (4 * n)%nat.

Local Abbreviation pixelCount :=
  (inject_Z (Z.of_nat (length image_data)) / 4)%Q (only parsing).

Lemma offset_r (p : nat) :
  (pixelCount * 2 + inject_Z (Z.of_nat p) == inject_Z (Z.of_nat (2 * n + p)))%Q.
Proof.
  rewrite Hlen.
  rewrite !Nat2Z.inj_add, !Nat2Z.inj_mul, !inject_Z_plus, !inject_Z_mult.
  cbn. field.
Qed.

Lemma offset_g (p : nat) :
  (pixelCount + inject_Z (Z.of_nat p) == inject_Z (Z.of_nat (n + p)))%Q.
Proof.
  rewrite Hlen.
  rewrite !Nat2Z.inj_add, !Nat2Z.inj_mul, !inject_Z_plus, !inject_Z_mult.
  cbn. field.
Qed.

Lemma offset_b (p : nat) :
  (0 + inject_Z (Z.of_nat p) == inject_Z (Z.of_nat p))%Q.
Proof. ring. Qed.

Lemma loop_length fuel i p (newData : list number) :
  length (loop fuel image_data mean std 0 pixelCount (pixelCount * 2) i p newData)
  = length newData.
Proof.
  revert i p newData. induction fuel as [|fuel IH]; intros i p newData; [done|].
  cbn [loop]. destruct (i <? length image_data)%nat; [|done].
  by rewrite IH, !f32_set_length.
Qed.

(** Loop invariant: started at pixel [p] with enough fuel, the loop
    fills the three planes from [p] on and leaves the rest alone. *)
Lemma loop_spec fuel p (newData : list number) :
  length newData = (3 * n)%nat ->
  (n - p <= fuel)%nat ->
  forall plane q, (plane < 3)%nat -> (q < n)%nat ->
    loop fuel image_data mean std 0 pixelCount (pixelCount * 2)
      (4 * p) p newData !! (plane * n + q)%nat
    = if (p <=? q)%nat then Some (stored image_data mean std plane q)
      else newData !! (plane * n + q)%nat.
Proof.
  revert p newData. induction fuel as [|fuel IH]; intros p newData Hnd Hfuel plane q Hpl Hq.
  - cbn [loop]. destruct (Nat.leb_spec p q); [lia | done].
  - cbn [loop].
    destruct (Nat.ltb_spec (4 * p) (length image_data)) as [Hp|Hp].
    + rewrite (f32_set_index _ _ _ _ (offset_r p)).
      rewrite (f32_set_index _ _ _ _ (offset_g p)).
      rewrite (f32_set_index _ _ _ _ (offset_b p)).
      replace (4 * p + 4)%nat with (4 * (p + 1))%nat by lia.
      rewrite IH by (rewrite ?length_insert; lia || done).
      destruct (Nat.leb_spec (p + 1) q) as [Hlt|Hge];
        destruct (Nat.leb_spec p q) as [Hle|Hgt]; try lia; try done.
      * (* q = p: the element written in this iteration *)
        assert (q = p) as -> by lia.
        unfold stored.
        destruct plane as [|[|[|?]]]; [| | |lia].
        -- rewrite Nat.mul_0_l, Nat.add_0_l.
           rewrite list_lookup_insert_eq by (rewrite !length_insert; lia).
           by replace (4 * p + (2 - 0))%nat with (4 * p + 2)%nat by lia.
        -- rewrite list_lookup_insert_ne by lia.
           replace (1 * n + p)%nat with (n + p)%nat by lia.
           rewrite list_lookup_insert_eq by (rewrite !length_insert; lia).
           by replace (4 * p + (2 - 1))%nat with (4 * p + 1)%nat by lia.
        -- rewrite !list_lookup_insert_ne by lia.
           rewrite list_lookup_insert_eq by lia.
           by replace (4 * p + (2 - 2))%nat with (4 * p)%nat by lia.
      * (* q < p: written earlier, untouched now *)
        destruct plane as [|[|[|?]]]; [| | |lia];
          by rewrite !list_lookup_insert_ne by lia.
    + destruct (Nat.leb_spec p q); [lia | done].
Qed.

End Loop.

(** The element the loop stores for source channel [c] of pixel [p]. *)
Lemma imageToInput_lookup (n : nat) (image : ImageRaw) (opts : ReshapeOptions)
    (plane p : nat) :
  length (data image) = (4 * n)%nat ->
  (plane < 3)%nat -> (p < n)%nat ->
  md_data (imageToInput image opts) !! (plane * n + p)%nat
  = Some (stored (data image) (default default_mean (mean opts))
            (default default_std (std opts)) plane p).
Proof.
  intros Hlen Hpl Hp. unfold imageToInput. cbn [md_data].
  pose proof (loop_spec (data image) (default default_mean (mean opts))
                (default default_std (std opts)) n Hlen (4 * n) 0) as Hspec.
  rewrite Hlen at 1. rewrite Hspec; [done | | lia | done | done].
  apply f32_new_length. rewrite Hlen.
  rewrite !Nat2Z.inj_mul, !inject_Z_mult. cbn. field.
Qed.

Lemma imageToInput_length (n : nat) (image : ImageRaw) (opts : ReshapeOptions) :
  length (data image) = (4 * n)%nat ->
  length (md_data (imageToInput image opts)) = (3 * n)%nat.
Proof.
  intros Hlen. unfold imageToInput. cbn [md_data]. rewrite loop_length.
  apply f32_new_length. rewrite Hlen.
  rewrite !Nat2Z.inj_mul, !inject_Z_mult. cbn. field.
Qed.

(** With mean 0 and standard deviation 1 every byte lands in [0, 1]:
    checked on each of the 256 byte values. *)
Lemma byte_in_unit_interval (b : byte) :
  in_unit_interval
    (fround (div (sub (div (of_byte b) (of_Z 255)) (of_Z 0)) (of_Z 1))) = true.
Proof. destruct b; vm_compute; reflexivity. Qed.

Lemma default_params_get (c : nat) :
  (c < 3)%nat ->
  arr_get default_mean c = of_Z 0 /\ arr_get default_std c = of_Z 1.
Proof. intros Hc. destruct c as [|[|[|?]]]; [done | done | done | lia]. Qed.

Lemma stored_default_in_unit_interval (image_data : list byte) (plane p : nat) :
  (plane < 3)%nat -> (4 * p + 3 < length image_data)%nat ->
  in_unit_interval (stored image_data default_mean default_std plane p) = true.
Proof.
  intros Hpl Hp. unfold stored, normalise.
  destruct (default_params_get (2 - plane)) as [-> ->]; [lia|].
  unfold u8_get.
  destruct (lookup_lt_is_Some_2 image_data (4 * p + (2 - plane))) as [b ->]; [lia|].
  apply byte_in_unit_interval.
Qed.

End ModelBaseFacts.

Import ModelBase ModelBaseFacts.

(** C1, as stated, fails: pixel 0 of the plane stored first holds [0], the
    blue value of the first pixel, not the red value [1.0]. *)
Lemma imageToInput_first_plane_is_not_red :
  md_data (imageToInput canonical_buffer explicit_options) !! 0%nat
  = Some (of_Z 0)
  /\ of_Z 0 <> of_Z 1.
Proof. vm_compute. split; [reflexivity | discriminate]. Qed.

(** C1 (amended): for the canonical buffer
    [{width: 2, height: 1, data: [255,0,0,255, 0,255,0,255]}] with mean
    [[0,0,0]] and std [[1,1,1]], the red value [255/255 = 1.0] of pixel 0 is
    stored at pixel 0 of the plane stored last (index [2 * pixelCount + 0 = 4]);
    the plane stored first holds the blue channel, whose value at pixel 0 is
    [0]: the planes are in the order blue, green, red. *)
Theorem imageToInput_canonical_scenario :
  let out := md_data (imageToInput canonical_buffer explicit_options) in
  out !! 4%nat = Some (of_Z 1)
  /\ out !! 4%nat
     = Some (fround (div (sub (div (u8_get (data canonical_buffer) 0) (of_Z 255))
                               (of_Z 0)) (of_Z 1)))
  /\ u8_get (data canonical_buffer) 0 = of_Z 255
  /\ out !! 0%nat = Some (of_Z 0)
  /\ out = [of_Z 0; of_Z 0; of_Z 0; of_Z 1; of_Z 1; of_Z 0].
Proof. vm_compute. repeat split; reflexivity. Qed.

(** C5: for a pixel buffer whose data length is [4 * width * height],
    [imageToInput] returns [3 * width * height] elements; the element for
    source channel [c] (0 red, 1 green, 2 blue; the alpha byte at offset 3 is
    never read) of pixel [p] is [(data[4p + c] / 255 - mean[c]) / std[c]],
    stored as a 32-bit float in plane [2 - c]; and with the default mean
    [[0,0,0]] and std [[1,1,1]] every element lies in [[0, 1]]. *)
Theorem imageToInput_length_formula_range
    (w h : nat) (image : ImageRaw) (opts : ReshapeOptions) :
  length (data image) = (4 * w * h)%nat ->
  let out := imageToInput image opts in
  let mean := default default_mean (mean opts) in
  let std := default default_std (std opts) in
  length (md_data out) = (3 * w * h)%nat
  /\ md_width out = width image /\ md_height out = height image
  /\ (forall c p, (c < 3)%nat -> (p < w * h)%nat ->
        md_data out !! ((2 - c) * (w * h) + p)%nat
        = Some (fround (div (sub (div (u8_get (data image) (4 * p + c)) (of_Z 255))
                                 (arr_get mean c))
                            (arr_get std c))))
  /\ (mean = [of_Z 0; of_Z 0; of_Z 0] -> std = [of_Z 1; of_Z 1; of_Z 1] ->
      forall x, x ∈ md_data out -> in_unit_interval x = true).
Proof.
  intros Hlen out mean std.
  assert (length (data image) = (4 * (w * h))%nat) as Hlen' by lia.
  split; [|split; [done|split; [done|split]]].
  - subst out. rewrite (imageToInput_length (w * h)) by done. lia.
  - intros c p Hc Hp. subst out.
    rewrite (imageToInput_lookup (w * h)) by (done || lia).
    unfold stored, normalise. by replace (2 - (2 - c))%nat with c by lia.
  - intros Hmean Hstd x Hx.
    apply list_elem_of_lookup in Hx as [j Hj].
    assert (j < 3 * (w * h))%nat as Hjlt.
    { apply lookup_lt_Some in Hj. subst out.
      by rewrite (imageToInput_length (w * h)) in Hj. }
    assert (0 < w * h)%nat as Hpos by lia.
    pose proof (Nat.div_mod_eq j (w * h)) as Hdm.
    pose proof (Nat.mod_upper_bound j (w * h) ltac:(lia)) as Hmod.
    assert (j `div` (w * h) < 3)%nat as Hdiv.
    { apply Nat.Div0.div_lt_upper_bound. lia. }
    assert (j = (j `div` (w * h)) * (w * h) + j `mod` (w * h))%nat as Hjeq by lia.
    rewrite Hjeq in Hj. subst out.
    rewrite (imageToInput_lookup (w * h)) in Hj by done.
    injection Hj as <-. fold mean std. rewrite Hmean, Hstd.
    apply stored_default_in_unit_interval; [done | lia].
  Qed.

Lemma imageToInput_length_formula_range_witness :
  let image := canonical_buffer in
  let out := imageToInput image no_options in
  length (data image) = (4 * 2 * 1)%nat
  /\ length (md_data out) = (3 * 2 * 1)%nat
  /\ forall x, x ∈ md_data out -> in_unit_interval x = true.
Proof.
  intros image out.
  destruct (imageToInput_length_formula_range 2 1 canonical_buffer no_options)
    as (Hl & _ & _ & _ & Hr); [reflexivity|].
  split; [reflexivity | split; [exact Hl | apply Hr; reflexivity]].
Defined.

(* ===================================================================== *)
(** * Binary64 rounding: accuracy of division and multiplication          *)
(* ===================================================================== *)

(** [SpecFloat] defines the operations; their accuracy is derived here
    from the definitions, for positive normal operands away from overflow
    and underflow, which is where image dimensions live. *)

Module Binary64Facts.
Import Binary64.





Lemma pow2_pos (n : Z) : (0 < pow2 n)%Q.
Proof. apply Qpower_0_lt. reflexivity. Qed.

Lemma pow2_add (a b : Z) : (pow2 (a + b) == pow2 a * pow2 b)%Q.
Proof. apply Qpower_plus. discriminate. Qed.


Lemma pow2_1 : (pow2 1 == 2)%Q.
Proof. reflexivity. Qed.


Lemma pow2_succ (n : Z) : (pow2 (n + 1) == 2 * pow2 n)%Q.
Proof. rewrite pow2_add, pow2_1. ring. Qed.

Lemma pow2_pred (n : Z) : (pow2 (n - 1) == pow2 n * (1 # 2))%Q.
Proof.
  replace n with ((n - 1) + 1) at 2 by lia. rewrite pow2_succ. ring.
Qed.












Lemma F2Q_pos (m : positive) (e : Z) : (0 < F2Q m e)%Q.
Proof.
  unfold F2Q. pose proof (pow2_pos e).
  assert (0 < inject_Z (Z.pos m))%Q by (change 0%Q with (inject_Z 0); by rewrite <- Zlt_Qlt).
  nra.
Qed.





End Binary64Facts.

(* ===================================================================== *)
(** * The canonical-data type guard                                       *)
(* ===================================================================== *)

Module ImageRawFacts.
Import JS ImageRaw.

Lemma has_property_find (k : string) (input : value) :
  has_property k input = true
  <-> is_Some (find (fun kv => String.eqb (fst kv) k) (properties input)).
Proof.
  unfold has_property. induction (properties input) as [|kv props IH];
    cbn [existsb find].
  - split; [discriminate | intros [? ?]; discriminate].
  - destruct (String.eqb (fst kv) k); cbn [orb]; [|exact IH].
    split; [eauto | done].
Qed.

(** A property that [get_property] finds with a value other than
    [undefined] is present. *)
Lemma get_property_present (k : string) (input : value) :
  get_property k input <> VUndefined -> has_property k input = true.
Proof.
  unfold get_property. intros Hget. apply has_property_find.
  destruct (find _ (properties input)); [eauto | done].
Qed.

Lemma instanceof_defined (v : value) (C : class) :
  instanceof v C = true -> v <> VUndefined.
Proof. destruct v; cbn; congruence. Qed.

Lemma has_numeric_present (k : string) (input : value) :
  has_numeric k input = true -> has_property k input = true.
Proof.
  unfold has_numeric. intros Hnum. apply get_property_present.
  intros Heq. rewrite Heq in Hnum. discriminate.
Qed.

Lemma has_byte_array_data_present (input : value) :
  has_byte_array_data input = true -> has_property "data" input = true.
Proof.
  unfold has_byte_array_data. intros Hdata. apply get_property_present.
  apply orb_true_iff in Hdata as [H|H]; exact (instanceof_defined _ _ H).
Qed.

(** Only objects and functions have properties. *)
Lemma has_property_carrier (k : string) (input : value) :
  has_property k input = true ->
  (exists cls props, input = VObject cls props)
  \/ (exists props, input = VFunction props).
Proof. destruct input; cbn; try discriminate; eauto. Qed.

Lemma typeof_object (input : value) :
  typeof input = "object" /\ is_null input = false
  <-> exists cls props, input = VObject cls props.
Proof.
  split.
  - intros [Ht Hn]. destruct input; try discriminate. eauto.
  - intros (cls & props & ->). done.
Qed.

End ImageRawFacts.

Import JS ImageRaw ImageRawFacts.

(** C6, as stated, fails in both directions.  An object whose width is
    present but is a string is recognised as canonical data; and a function
    that carries a numeric width, a numeric height and a byte array is
    not. *)
Lemma isImageRawData_accepts_string_width :
  (isImageRawData string_width_input = true
   /\ has_numeric "width" string_width_input = false
   /\ canonical_data_by_design string_width_input = false)
  /\ (isImageRawData function_with_fields = false
      /\ canonical_data_by_design function_with_fields = true
      /\ isImageRawData object_with_fields = true).
Proof. vm_compute. repeat split; reflexivity. Qed.

(** C6 (amended): the normalizer recognises an input as the canonical-data
    variant if and only if the input is a non-null object ([typeof] gives
    ['object'], so it is not a function) on which the properties [data],
    [width] and [height] are present, whatever their types, and whose
    [data] is an instance of [Uint8Array] or of [Uint8ClampedArray].  An
    input with a numeric width, a numeric height and such a data field is
    recognised exactly when it is an object and not a function; the types
    of width and height are not inspected. *)
Theorem isImageRawData_iff (input : value) :
  (isImageRawData input = true
   <-> (typeof input = "object" /\ input <> VNull)
       /\ has_property "data" input = true
       /\ has_property "width" input = true
       /\ has_property "height" input = true
       /\ has_byte_array_data input = true)
  /\ (canonical_data_by_design input = true ->
      (isImageRawData input = true <-> typeof input = "object")
      /\ (isImageRawData input = false <-> typeof input = "function")).
Proof.
  assert (isImageRawData input = true
          <-> (typeof input = "object" /\ input <> VNull)
              /\ has_property "data" input = true
              /\ has_property "width" input = true
              /\ has_property "height" input = true
              /\ has_byte_array_data input = true) as Hiff.
  { unfold isImageRawData, has_byte_array_data. split.
    - intros H.
      repeat (apply andb_true_iff in H as [H ?]).
      repeat split; try done.
      + by apply String.eqb_eq.
      + intros ->. discriminate.
    - intros ((Ht & Hn) & Hd & Hw & Hh & Hb).
      rewrite Hd, Hw, Hh, Hb. apply String.eqb_eq in Ht. rewrite Ht.
      by destruct input. }
  split; [exact Hiff|].
  unfold canonical_data_by_design. intros H.
  apply andb_true_iff in H as [H Hb]. apply andb_true_iff in H as [Hw Hh].
  pose proof (has_byte_array_data_present _ Hb) as Hd.
  pose proof (has_numeric_present _ _ Hw) as Hpw.
  pose proof (has_numeric_present _ _ Hh) as Hph.
  destruct (has_property_carrier _ _ Hd) as [(cls & props & ->)|(props & ->)].
  - assert (isImageRawData (VObject cls props) = true) as Hyes
      by (apply Hiff; repeat split; done).
    rewrite Hyes. repeat split; done.
  - assert (isImageRawData (VFunction props) = false) as Hno by reflexivity.
    rewrite Hno. repeat split; done.
Qed.

(* ===================================================================== *)
(** * resize: a zero argument                                             *)
(* ===================================================================== *)

Module ResizeZeroFacts.
Import ImageRaw.




End ResizeZeroFacts.

(* ===================================================================== *)
(** * resize: how close the computed dimension is to the exact one        *)
(* ===================================================================== *)

Module ResizeFacts.
Import Binary64 Binary64Facts ImageRaw.











End ResizeFacts.

(* ===================================================================== *)
(** * The context cache                                                   *)
(* ===================================================================== *)

Module ContextCacheFacts.
Import Platform ImageRawWorker.
Local Open Scope js_scope.

Create HintDb keeps discriminated.

Lemma keeps_mret {A} (a : A) : keeps (mret a).
Proof. by intros w canvas ctx H. Qed.

Lemma keeps_throw {A} (e : exn) : keeps (@throw A e).
Proof. by intros w canvas ctx H. Qed.

Lemma keeps_bind {A B} (c : M A) (k : A -> M B) :
  keeps c -> (forall a, keeps (k a)) -> keeps (bind c k).
Proof.
  intros Hc Hk w canvas ctx H. unfold bind.
  specialize (Hc w canvas ctx H). destruct (c w) as [[a|e] w']; cbn in *.
  - by apply Hk.
  - done.
Qed.

Lemma keeps_try_catch {A} (body : M A) (handler : exn -> M A) :
  keeps body -> (forall e, keeps (handler e)) -> keeps (try_catch body handler).
Proof.
  intros Hb Hh w canvas ctx H. unfold try_catch.
  specialize (Hb w canvas ctx H). destruct (body w) as [[a|e] w']; cbn in *.
  - done.
  - by apply Hh.
Qed.

Lemma keeps_try_finally {A} (body : M A) (finalizer : M unit) :
  keeps body -> keeps finalizer -> keeps (try_finally body finalizer).
Proof.
  intros Hb Hf w canvas ctx H. unfold try_finally.
  specialize (Hb w canvas ctx H). destruct (body w) as [r w']; cbn in *.
  specialize (Hf w' canvas ctx Hb). by destruct (finalizer w') as [[?|?] w''].
Qed.

Lemma keeps_call {A} (ev : event) (answer : list event -> completion A) :
  keeps (call ev answer).
Proof. by intros w canvas ctx H. Qed.

Lemma keeps_call_unit (ev : event) (answer : list event -> option exn) :
  keeps (call_unit ev answer).
Proof. apply keeps_call. Qed.

Lemma keeps_pure {A} (f : world -> completion A) : keeps (fun w => (f w, w)).
Proof. by intros w canvas ctx H. Qed.

Lemma keeps_or_else_lazy (a : option number) (b : M number) :
  keeps b -> keeps (or_else_lazy a b).
Proof.
  intros Hb. unfold or_else_lazy. destruct a as [x|]; [|done].
  destruct (truthy x); [apply keeps_mret | done].
Qed.

#[export] Hint Resolve keeps_mret keeps_throw keeps_call keeps_call_unit
  keeps_pure keeps_or_else_lazy : keeps.

Ltac keeps_step :=
  first
    [ apply keeps_bind; [|intros ?]
    | apply keeps_try_catch; [|intros ?]
    | apply keeps_try_finally
    | progress eauto with keeps
    | match goal with
      | |- keeps (if ?b then _ else _) => destruct b
      | |- keeps (match ?x with _ => _ end) => destruct x
      end ].

Section WithPlatform.
Variable pf : platform.

Lemma keeps_new_canvas : keeps new_canvas.
Proof. by intros w canvas ctx H. Qed.

(** The cache is only written on a miss, so no entry is ever replaced. *)
Lemma keeps_getContext2D (c : canvas) : keeps (getContext2D pf c).
Proof.
  intros w canvas ctx H. unfold getContext2D.
  destruct (contextCache w !! c) as [cached|] eqn:Hc; [done|].
  destruct (canvas_getContext pf (history w) c) as [fresh|]; cbn; [|done].
  rewrite lookup_insert_ne; [done|]. intros ->. congruence.
Qed.

Hint Resolve keeps_new_canvas keeps_getContext2D : keeps.

Lemma keeps_createCanvas (x y : number) : keeps (createCanvas pf x y).
Proof. unfold createCanvas. repeat keeps_step. Qed.

Hint Resolve keeps_createCanvas : keeps.

Lemma keeps_getImageData (c : canvas) : keeps (getImageData pf c).
Proof. unfold getImageData, ctx_read. repeat keeps_step. Qed.

Lemma keeps_canvasDrawImage (c : canvas) (image : source) (x y : option number) :
  keeps (canvasDrawImage pf c image x y).
Proof.
  unfold canvasDrawImage, read_width, read_height. repeat keeps_step.
Qed.

Lemma keeps_canvasPutImageData (c : canvas) (d : ImageData) :
  keeps (canvasPutImageData pf c d).
Proof. unfold canvasPutImageData. repeat keeps_step. Qed.

Lemma keeps_createOptimizedImageBitmap (src : source) :
  keeps (createOptimizedImageBitmap pf src).
Proof. unfold createOptimizedImageBitmap. repeat keeps_step. Qed.

Hint Resolve keeps_getImageData keeps_canvasDrawImage keeps_canvasPutImageData
  keeps_createOptimizedImageBitmap : keeps.

Lemma keeps_new_ImageRaw (d : ImageRawData) : keeps (new_ImageRaw pf d).
Proof. unfold new_ImageRaw. repeat keeps_step. Qed.

Hint Resolve keeps_new_ImageRaw : keeps.

Lemma keeps_close_quietly (b : ImageBitmap) : keeps (close_quietly pf b).
Proof. unfold close_quietly. repeat keeps_step. Qed.

Hint Resolve keeps_close_quietly : keeps.

Lemma keeps_fromImageBitmap (b : ImageBitmap) : keeps (fromImageBitmap pf b).
Proof.
  unfold fromImageBitmap, has_zero_dimension, read_bitmap_width,
    read_bitmap_height, ctx_read.
  repeat keeps_step.
Qed.

Hint Resolve keeps_fromImageBitmap : keeps.

Lemma keeps_fromHTMLImageElement (img : HTMLImageElement) :
  keeps (fromHTMLImageElement pf img).
Proof.
  unfold fromHTMLImageElement, rasterize_image, decode. repeat keeps_step.
Qed.

Lemma keeps_fromHTMLVideoElement (video : HTMLVideoElement) :
  keeps (fromHTMLVideoElement pf video).
Proof. unfold fromHTMLVideoElement, ctx_read. repeat keeps_step. Qed.

Hint Resolve keeps_fromHTMLImageElement keeps_fromHTMLVideoElement : keeps.

Lemma perform_keeps (r : request) (w : world) (canvas : canvas) (ctx : context) :
  contextCache w !! canvas = Some ctx ->
  contextCache (perform pf r w) !! canvas = Some ctx.
Proof.
  intros H. destruct r; cbn [perform]; unfold after;
    match goal with |- contextCache (snd (?c w)) !! _ = _ =>
      assert (keeps c) as Hk by eauto with keeps; exact (Hk w canvas ctx H)
    end.
Qed.

Lemma perform_all_keeps (rs : list request) (w : world) (canvas : canvas) (ctx : context) :
  contextCache w !! canvas = Some ctx ->
  contextCache (perform_all pf rs w) !! canvas = Some ctx.
Proof.
  revert w. induction rs as [|r rs IH]; intros w H; [done|].
  cbn. apply IH. by apply perform_keeps.
Qed.

(** A context that [getContext2D] returns is in the cache afterwards. *)
Lemma getContext2D_caches (c : canvas) (w w' : world) (ctx : context) :
  getContext2D pf c w = (Normal (Some ctx), w') ->
  contextCache w' !! c = Some ctx.
Proof.
  unfold getContext2D.
  destruct (contextCache w !! c) as [cached|] eqn:Hc.
  - intros [= <- <-]. done.
  - destruct (canvas_getContext pf (history w) c) as [fresh|]; [|done].
    intros [= <- <-]. cbn. apply lookup_insert_eq.
Qed.

(** A cached context is returned as it is, and nothing else happens. *)
Lemma getContext2D_hit (c : canvas) (w : world) (ctx : context) :
  contextCache w !! c = Some ctx ->
  getContext2D pf c w = (Normal (Some ctx), w).
Proof. intros H. unfold getContext2D. by rewrite H. Qed.

End WithPlatform.

End ContextCacheFacts.

Import Platform ImageRawWorker ContextCacheFacts.

(** C8: context acquisition is idempotent per surface.  Once [getContext2D]
    has returned a context for a canvas, every later call for that canvas,
    after any calls into the module whatsoever and whatever the platform
    would answer by then, returns that same context from the cache without
    asking the platform again; so two calls on the same canvas never yield
    distinct contexts. *)
Theorem getContext2D_idempotent
    (pf : platform) (c : canvas) (w w1 : world) (ctx : context)
    (between : list request) :
  getContext2D pf c w = (Normal (Some ctx), w1) ->
  let w2 := perform_all pf between w1 in
  getContext2D pf c w2 = (Normal (Some ctx), w2)
  /\ forall r w3, getContext2D pf c w2 = (Normal r, w3) -> r = Some ctx.
Proof.
  intros Hfirst w2.
  assert (getContext2D pf c w2 = (Normal (Some ctx), w2)) as Hsecond.
  { apply getContext2D_hit, perform_all_keeps.
    by eapply getContext2D_caches. }
  split; [exact Hsecond|]. intros r w3. rewrite Hsecond. by intros [= <- _].
Qed.

Lemma getContext2D_idempotent_witness :
  let pf := fickle_platform in
  let w1 := snd (getContext2D pf 0%nat initial_world) in
  let w2 := perform_all pf [GetContext2D 1%nat; GetImageDataReq 0%nat] w1 in
  getContext2D pf 0%nat initial_world = (Normal (Some 0%nat), w1)
  /\ canvas_getContext pf (history w2) 0%nat = Some 3%nat
  /\ getContext2D pf 0%nat w2 = (Normal (Some 0%nat), w2).
Proof.
  intros pf w1 w2.
  assert (getContext2D pf 0%nat initial_world = (Normal (Some 0%nat), w1)) as H
    by reflexivity.
  split; [exact H | split; [reflexivity|]].
  exact (proj1 (getContext2D_idempotent pf 0%nat initial_world w1 0%nat
                  [GetContext2D 1%nat; GetImageDataReq 0%nat] H)).
Defined.

(* ===================================================================== *)
(** * Release of a bitmap handle                                          *)
(* ===================================================================== *)

Module HistoryFacts.
Import Platform.
Local Open Scope js_scope.

Lemma performed_app {A} (c : M A) (w : world) (evs : list event) :
  history (snd (c w)) = evs ++ history w -> performed c w = rev evs.
Proof.
  intros H. unfold performed. rewrite H, length_app.
  replace (length evs + length (history w) - length (history w))%nat
    with (length evs) by lia.
  by rewrite take_app_length.
Qed.

Lemma emits_mret P {A} (a : A) : emits P (mret a).
Proof. intros w. by exists []. Qed.

Lemma emits_throw P {A} (e : exn) : emits P (@throw A e).
Proof. intros w. by exists []. Qed.

Lemma emits_pure P {A} (f : world -> completion A) : emits P (fun w => (f w, w)).
Proof. intros w. by exists []. Qed.

Lemma emits_call P {A} (ev : event) (answer : list event -> completion A) :
  P ev -> emits P (call ev answer).
Proof. intros HP w. exists [ev]. split; [done | by constructor]. Qed.

Lemma emits_call_unit P (ev : event) (answer : list event -> option exn) :
  P ev -> emits P (call_unit ev answer).
Proof. apply emits_call. Qed.

Lemma emits_bind P {A B} (c : M A) (k : A -> M B) :
  emits P c -> (forall a, emits P (k a)) -> emits P (bind c k).
Proof.
  intros Hc Hk w. unfold bind.
  destruct (Hc w) as (evs & Hh & HP). destruct (c w) as [[a|e] w']; cbn in *.
  - destruct (Hk a w') as (evs' & Hh' & HP'). exists (evs' ++ evs).
    rewrite Hh', Hh, app_assoc. split; [done | by apply Forall_app_2].
  - by exists evs.
Qed.

Lemma emits_try_catch P {A} (body : M A) (handler : exn -> M A) :
  emits P body -> (forall e, emits P (handler e)) -> emits P (try_catch body handler).
Proof.
  intros Hb Hh w. unfold try_catch.
  destruct (Hb w) as (evs & Hw & HP). destruct (body w) as [[a|e] w']; cbn in *.
  - by exists evs.
  - destruct (Hh e w') as (evs' & Hw' & HP'). exists (evs' ++ evs).
    rewrite Hw', Hw, app_assoc. split; [done | by apply Forall_app_2].
Qed.

Lemma emits_try_finally P {A} (body : M A) (finalizer : M unit) :
  emits P body -> emits P finalizer -> emits P (try_finally body finalizer).
Proof.
  intros Hb Hf w. unfold try_finally.
  destruct (Hb w) as (evs & Hw & HP). destruct (body w) as [r w']; cbn in *.
  destruct (Hf w') as (evs' & Hw' & HP'). exists (evs' ++ evs).
  destruct (finalizer w') as [[?|?] w'']; cbn in *;
    rewrite Hw', Hw, app_assoc; (split; [done | by apply Forall_app_2]).
Qed.

Lemma emits_or_else_lazy P (a : option number) (b : M number) :
  emits P b -> emits P (or_else_lazy a b).
Proof.
  intros Hb. unfold or_else_lazy. destruct a as [x|]; [|done].
  destruct (truthy x); [apply emits_mret | done].
Qed.

(** Counting closes, and reads after a close, in a history that ends with
    the close. *)
Lemma closes_app (b : nat) (evs1 evs2 : list event) :
  closes b (evs1 ++ evs2) = (closes b evs1 + closes b evs2)%nat.
Proof. induction evs1 as [|ev evs1 IH]; cbn; [done | rewrite IH; lia]. Qed.

Lemma closes_none (b : nat) (evs : list event) :
  Forall (fun ev => is_close b ev = false) evs -> closes b evs = 0%nat.
Proof. induction 1 as [|ev evs Hev _ IH]; cbn; [done | by rewrite Hev, IH]. Qed.

Lemma never_read_after_close_none (b : nat) (evs : list event) :
  Forall (fun ev => is_close b ev = false) evs ->
  never_read_after_close b evs = true.
Proof. induction 1 as [|ev evs Hev _ IH]; cbn; [done | by rewrite Hev]. Qed.

Lemma never_read_after_close_last (b : nat) (evs : list event) :
  Forall (fun ev => is_close b ev = false) evs ->
  never_read_after_close b (evs ++ [BitmapClose b]) = true.
Proof.
  induction 1 as [|ev evs Hev _ IH]; cbn.
  - by rewrite Nat.eqb_refl.
  - by rewrite Hev.
Qed.

Lemma Forall_rev_iff (P : event -> Prop) (evs : list event) :
  Forall P evs -> Forall P (rev evs).
Proof. intros H. by apply Forall_rev. Qed.

End HistoryFacts.

Ltac emits_step :=
  first
    [ apply HistoryFacts.emits_bind; [|intros ?]
    | apply HistoryFacts.emits_try_catch; [|intros ?]
    | apply HistoryFacts.emits_try_finally
    | apply HistoryFacts.emits_or_else_lazy
    | apply HistoryFacts.emits_mret
    | apply HistoryFacts.emits_throw
    | apply HistoryFacts.emits_pure
    | apply HistoryFacts.emits_call_unit; done
    | apply HistoryFacts.emits_call; done
    | match goal with
      | |- Platform.emits _ (if ?b then _ else _) => destruct b
      | |- Platform.emits _ (match ?x with _ => _ end) => destruct x
      end ].

(** The events other than a close of the bitmap [b]. *)
Local Abbreviation not_close b := (fun ev => Platform.is_close b ev = false).

Module BitmapWorkerFacts.
Import Platform ImageRawWorker HistoryFacts.
Local Open Scope js_scope.

Section WithPlatform.
Variable pf : platform.
Variable b : nat.

Lemma new_canvas_quiet : emits (not_close b) new_canvas.
Proof. intros w. exists [NewCanvas (canvases w)]. split; [done | by constructor]. Qed.

Lemma getContext2D_quiet (c : canvas) : emits (not_close b) (getContext2D pf c).
Proof.
  intros w. unfold getContext2D.
  destruct (contextCache w !! c); [by exists []|].
  exists [GetContext c].
  destruct (canvas_getContext pf (history w) c); (split; [done | by constructor]).
Qed.

Lemma createCanvas_quiet (x y : number) : emits (not_close b) (createCanvas pf x y).
Proof.
  unfold createCanvas. repeat (apply new_canvas_quiet || emits_step).
Qed.

Lemma canvasPutImageData_quiet (c : canvas) (d : ImageData) :
  emits (not_close b) (canvasPutImageData pf c d).
Proof.
  unfold canvasPutImageData. repeat (apply getContext2D_quiet || emits_step).
Qed.

Lemma new_ImageRaw_quiet (d : ImageRawData) : emits (not_close b) (new_ImageRaw pf d).
Proof.
  unfold new_ImageRaw.
  repeat (apply createCanvas_quiet || apply canvasPutImageData_quiet || emits_step).
Qed.

End WithPlatform.

End BitmapWorkerFacts.

Ltac solve_quiet :=
  rewrite ?Forall_app; repeat split; first [assumption | by repeat constructor].

Module BitmapReleaseFacts.
Import Platform HistoryFacts.
Local Open Scope js_scope.

(** The possible histories of [fromImageBitmap], by the path taken. *)
Inductive release_shape (b : nat) (valid canvas_available : bool)
    (r : completion ImageRaw) (evs : list event) : Prop :=
| invalid_dimensions :
    valid = false ->
    r = Throw (Error "Invalid ImageBitmap: dimensions are zero (bitmap may be closed or neutered)") ->
    Forall (not_close b) evs ->
    release_shape b valid canvas_available r evs
| no_canvas :
    valid = true -> canvas_available = false ->
    Forall (not_close b) evs ->
    release_shape b valid canvas_available r evs
| closed_last pre :
    valid = true -> canvas_available = true ->
    evs = BitmapClose b :: pre -> Forall (not_close b) pre ->
    release_shape b valid canvas_available r evs.

Section WithPlatform.
Variable pf : platform.
Variable bitmap : ImageBitmap.

Lemma worker_close_quietly (w : world) :
  ImageRawWorker.close_quietly pf bitmap w
  = (Normal tt, record (BitmapClose (bitmap_id bitmap)) w).
Proof.
  unfold ImageRawWorker.close_quietly, try_catch, call_unit, call.
  by destruct (bitmap_close pf (history w) bitmap).
Qed.

Lemma bind_normal {A B} (c : M A) (k : A -> M B) (w w' : world) (a : A) :
  c w = (Normal a, w') -> bind c k w = k a w'.
Proof. intros H. unfold bind. by rewrite H. Qed.

Lemma bind_throw {A B} (c : M A) (k : A -> M B) (w w' : world) (e : exn) :
  c w = (Throw e, w') -> bind c k w = (Throw e, w').
Proof. intros H. unfold bind. by rewrite H. Qed.

Lemma bind_call_constant {A B} (ev : event) (a : A) (k : A -> M B) (w : world) :
  bind (call ev (fun _ => Normal a)) k w = k a (record ev w).
Proof. reflexivity. Qed.

Lemma try_finally_close {A} (body : M A) (w w' : world) (r : completion A) :
  body w = (r, w') ->
  try_finally body (ImageRawWorker.close_quietly pf bitmap) w
  = (r, record (BitmapClose (bitmap_id bitmap)) w').
Proof. intros H. unfold try_finally. by rewrite H, worker_close_quietly. Qed.

Lemma worker_has_zero_dimension (w : world) :
  exists evs w',
    ImageRawWorker.has_zero_dimension bitmap w
    = (Normal ((bitmap_width bitmap =? 0) || (bitmap_height bitmap =? 0)), w')
    /\ history w' = evs ++ history w
    /\ Forall (not_close (bitmap_id bitmap)) evs.
Proof.
  unfold ImageRawWorker.has_zero_dimension, ImageRawWorker.read_bitmap_width,
    ImageRawWorker.read_bitmap_height, bind, call, mret.
  destruct (bitmap_width bitmap =? 0); cbn.
  - eexists [_], _. split; [done|]. split; [done | by repeat constructor].
  - eexists [_; _], _. split; [done|]. split; [done | by repeat constructor].
Qed.

Lemma worker_createCanvas (x y : number) (w : world) :
  exists evs w',
    history w' = evs ++ history w
    /\ Forall (not_close (bitmap_id bitmap)) evs
    /\ (if HAS_OFFSCREEN_CANVAS pf || HAS_DOCUMENT pf
        then exists c, ImageRawWorker.createCanvas pf x y w = (Normal c, w')
        else exists e, ImageRawWorker.createCanvas pf x y w = (Throw e, w')).
Proof.
  destruct (BitmapWorkerFacts.createCanvas_quiet pf (bitmap_id bitmap) x y w)
    as (evs & Hh & Hq).
  exists evs, (snd (ImageRawWorker.createCanvas pf x y w)).
  split; [done | split; [done|]].
  unfold ImageRawWorker.createCanvas.
  destruct (HAS_OFFSCREEN_CANVAS pf); cbn; [by eexists|].
  destruct (HAS_DOCUMENT pf); cbn; by eexists.
Qed.

Lemma worker_getContext2D (c : canvas) (w : world) :
  exists evs w' r,
    ImageRawWorker.getContext2D pf c w = (Normal r, w')
    /\ history w' = evs ++ history w
    /\ Forall (not_close (bitmap_id bitmap)) evs.
Proof.
  destruct (BitmapWorkerFacts.getContext2D_quiet pf (bitmap_id bitmap) c w)
    as (evs & Hh & Hq).
  exists evs, (snd (ImageRawWorker.getContext2D pf c w)).
  revert Hh. unfold ImageRawWorker.getContext2D.
  destruct (contextCache w !! c); [by eexists|].
  destruct (canvas_getContext pf (history w) c); by eexists.
Qed.

Lemma worker_fromImageBitmap_shape (w : world) :
  exists evs,
    history (snd (ImageRawWorker.fromImageBitmap pf bitmap w)) = evs ++ history w
    /\ release_shape (bitmap_id bitmap)
         (negb ((bitmap_width bitmap =? 0) || (bitmap_height bitmap =? 0)))
         (HAS_OFFSCREEN_CANVAS pf || HAS_DOCUMENT pf)
         (fst (ImageRawWorker.fromImageBitmap pf bitmap w)) evs.
Proof.
  set (b := bitmap_id bitmap).
  remember (ImageRawWorker.fromImageBitmap pf bitmap w) as res eqn:Hres.
  unfold ImageRawWorker.fromImageBitmap in Hres.
  destruct (worker_has_zero_dimension w) as (evs1 & w1 & Hrun1 & Hh1 & Hq1).
  rewrite (bind_normal _ _ _ _ _ Hrun1) in Hres.
  destruct ((bitmap_width bitmap =? 0) || (bitmap_height bitmap =? 0)); cbn [negb].
  { subst res. exists evs1. split; [done|]. by apply invalid_dimensions. }
  unfold ImageRawWorker.read_bitmap_width, ImageRawWorker.read_bitmap_height in Hres.
  rewrite !bind_call_constant in Hres.
  set (w2 := record (BitmapHeight (bitmap_id bitmap))
               (record (BitmapWidth (bitmap_id bitmap)) w1)) in Hres.
  assert (history w2 = ([BitmapHeight b; BitmapWidth b] ++ evs1) ++ history w) as Hh2.
  { subst w2. cbn. by rewrite Hh1. }
  assert (Forall (not_close b) ([BitmapHeight b; BitmapWidth b] ++ evs1)) as Hq2.
  { apply Forall_app. split; [by repeat constructor | done]. }
  clearbody w2.
  destruct (worker_createCanvas (of_Z (bitmap_width bitmap))
              (of_Z (bitmap_height bitmap)) w2) as (evs3 & w3 & Hh3 & Hq3 & Hrun3).
  destruct (HAS_OFFSCREEN_CANVAS pf || HAS_DOCUMENT pf).
  2:{ destruct Hrun3 as [e Hrun3]. rewrite (bind_throw _ _ _ _ _ Hrun3) in Hres.
      subst res. exists (evs3 ++ [BitmapHeight b; BitmapWidth b] ++ evs1).
      cbn [fst snd]. rewrite Hh3, Hh2, <- !app_assoc. split; [done|].
      apply no_canvas; [done | done | solve_quiet]. }
  destruct Hrun3 as [canvas Hrun3]. rewrite (bind_normal _ _ _ _ _ Hrun3) in Hres.
  destruct (worker_getContext2D canvas w3) as (evs4 & w4 & ctx & Hrun4 & Hh4 & Hq4).
  rewrite (bind_normal _ _ _ _ _ Hrun4) in Hres.
  assert (history w4 = (evs4 ++ evs3 ++ [BitmapHeight b; BitmapWidth b] ++ evs1)
                       ++ history w) as Hhist4.
  { by rewrite Hh4, Hh3, Hh2, <- !app_assoc. }
  assert (Forall (not_close b) (evs4 ++ evs3 ++ [BitmapHeight b; BitmapWidth b] ++ evs1))
    as Hpre by solve_quiet.
  destruct ctx as [ctx|].
  - (* a context: the conversion runs inside try/finally *)
    match type of Hres with _ = try_finally ?body _ w4 =>
      assert (emits (not_close b) body) as Hbody;
        [|destruct (Hbody w4) as (evs5 & Hh5 & Hq5);
          rewrite (try_finally_close body w4 _ _ (surjective_pairing (body w4))) in Hres]
    end.
    { unfold ImageRawWorker.ctx_read.
      repeat (apply BitmapWorkerFacts.new_ImageRaw_quiet || emits_step). }
    subst res. cbn [fst snd record history].
    exists (BitmapClose b :: evs5 ++ evs4 ++ evs3 ++ [BitmapHeight b; BitmapWidth b] ++ evs1).
    rewrite Hh5, Hhist4. split; [by simplify_list_eq|].
    eapply closed_last; [done | done | done | solve_quiet].
  - (* no context: close, then throw *)
    rewrite (bind_normal _ _ _ _ _ (worker_close_quietly w4)) in Hres.
    subst res. cbn [fst snd throw record history].
    exists (BitmapClose b :: evs4 ++ evs3 ++ [BitmapHeight b; BitmapWidth b] ++ evs1).
    rewrite Hhist4. split; [done|].
    eapply closed_last; [done | done | done | done].
Qed.

(** The same analysis for the document-only variant, where a canvas can
    always be made. *)

Lemma document_new_ImageRaw_quiet (d : ImageRawData) :
  emits (not_close (bitmap_id bitmap)) (ImageRawDocument.new_ImageRaw pf d).
Proof.
  unfold ImageRawDocument.new_ImageRaw, ImageRawDocument.canvasPutImageData,
    ImageRawDocument.getContext, ImageRawDocument.createElement_canvas.
  apply emits_bind.
  { intros w. exists [NewCanvas (canvases w)]. split; [done | by constructor]. }
  intros c. apply emits_bind; [apply emits_pure|]. intros d'.
  apply emits_bind; [|intros ?; apply emits_mret].
  apply emits_bind.
  { intros w. exists [GetContext c]. split; [done | by constructor]. }
  intros ctx. repeat emits_step.
Qed.

Lemma document_close_quietly (w : world) :
  ImageRawDocument.close_quietly pf bitmap w
  = (Normal tt, record (BitmapClose (bitmap_id bitmap)) w).
Proof.
  unfold ImageRawDocument.close_quietly, try_catch, call_unit, call.
  by destruct (bitmap_close pf (history w) bitmap).
Qed.

Lemma document_has_zero_dimension (w : world) :
  exists evs w',
    ImageRawDocument.has_zero_dimension bitmap w
    = (Normal ((bitmap_width bitmap =? 0) || (bitmap_height bitmap =? 0)), w')
    /\ history w' = evs ++ history w
    /\ Forall (not_close (bitmap_id bitmap)) evs.
Proof.
  unfold ImageRawDocument.has_zero_dimension, ImageRawDocument.read_bitmap_width,
    ImageRawDocument.read_bitmap_height, bind, call, mret.
  destruct (bitmap_width bitmap =? 0); cbn.
  - eexists [_], _. split; [done|]. split; [done | by repeat constructor].
  - eexists [_; _], _. split; [done|]. split; [done | by repeat constructor].
Qed.

Lemma bind_call_unit_silent {B} (ev : event) (k : unit -> M B) (w : world) :
  bind (call_unit ev (fun _ => None)) k w = k tt (record ev w).
Proof. reflexivity. Qed.

Lemma bind_createElement_canvas {B} (k : canvas -> M B) (w : world) :
  bind ImageRawDocument.createElement_canvas k w
  = k (canvases w)
      {| contextCache := contextCache w;
         canvases := S (canvases w);
         history := NewCanvas (canvases w) :: history w |}.
Proof. reflexivity. Qed.

Lemma bind_getContext {B} (c : canvas) (k : option context -> M B) (w : world) :
  bind (ImageRawDocument.getContext pf c) k w
  = k (canvas_getContext pf (history w) c) (record (GetContext c) w).
Proof. reflexivity. Qed.

Lemma document_fromImageBitmap_shape (w : world) :
  exists evs,
    history (snd (ImageRawDocument.fromImageBitmap pf bitmap w)) = evs ++ history w
    /\ release_shape (bitmap_id bitmap)
         (negb ((bitmap_width bitmap =? 0) || (bitmap_height bitmap =? 0)))
         true
         (fst (ImageRawDocument.fromImageBitmap pf bitmap w)) evs.
Proof.
  set (b := bitmap_id bitmap).
  remember (ImageRawDocument.fromImageBitmap pf bitmap w) as res eqn:Hres.
  unfold ImageRawDocument.fromImageBitmap in Hres.
  destruct (document_has_zero_dimension w) as (evs1 & w1 & Hrun1 & Hh1 & Hq1).
  rewrite (bind_normal _ _ _ _ _ Hrun1) in Hres.
  destruct ((bitmap_width bitmap =? 0) || (bitmap_height bitmap =? 0)); cbn [negb].
  { subst res. exists evs1. split; [done|]. by apply invalid_dimensions. }
  unfold ImageRawDocument.read_bitmap_width, ImageRawDocument.read_bitmap_height in Hres.
  rewrite bind_createElement_canvas, bind_call_constant, bind_call_unit_silent,
    bind_call_constant, bind_call_unit_silent, bind_getContext in Hres.
  cbn [record history contextCache canvases] in Hres.
  match type of Hres with context [canvas_getContext pf ?h ?c] =>
    set (ctx := canvas_getContext pf h c) in Hres
  end.
  match type of Hres with _ = _ ?w' => set (w4 := w') in Hres end.
  assert (exists pre, history w4 = pre ++ history w /\ Forall (not_close b) pre)
    as (pre & Hh4 & Hpre).
  { subst w4. cbn [history]. rewrite Hh1.
    eexists (_ :: _ :: _ :: _ :: _ :: _ :: evs1). split; [done|].
    repeat (constructor; [done|]). done. }
  clearbody w4 ctx.
  destruct ctx as [ctx|].
  - match type of Hres with _ = try_finally ?body _ w4 =>
      assert (emits (not_close b) body) as Hbody;
        [|destruct (Hbody w4) as (evs5 & Hh5 & Hq5);
          unfold try_finally in Hres;
          rewrite (surjective_pairing (body w4)), document_close_quietly in Hres]
    end.
    { unfold ImageRawDocument.ctx_read.
      repeat (apply document_new_ImageRaw_quiet || emits_step). }
    subst res. cbn [fst snd record history].
    exists (BitmapClose b :: evs5 ++ pre).
    rewrite Hh5, Hh4. split; [by simplify_list_eq|].
    eapply closed_last; [done | done | done | solve_quiet].
  - rewrite (bind_normal _ _ _ _ _ (document_close_quietly w4)) in Hres.
    subst res. cbn [fst snd throw record history].
    exists (BitmapClose b :: pre). rewrite Hh4. split; [done|].
    eapply closed_last; [done | done | done | done].
Qed.

End WithPlatform.

(** What a shape says about the number of closes and about reads after a
    close. *)
Lemma release_shape_closes (b : nat) (valid available : bool)
    (r : completion ImageRaw) (evs : list event) :
  release_shape b valid available r evs ->
  closes b (rev evs) = (if valid && available then 1 else 0)%nat
  /\ never_read_after_close b (rev evs) = true
  /\ (valid = false ->
      r = Throw (Error "Invalid ImageBitmap: dimensions are zero (bitmap may be closed or neutered)")).
Proof.
  intros [-> Hr Hq | -> -> Hq | pre -> -> -> Hq]; cbn [andb].
  - split; [|split; [|done]].
    + by apply closes_none, Forall_rev.
    + by apply never_read_after_close_none, Forall_rev.
  - split; [|split; [|done]].
    + by apply closes_none, Forall_rev.
    + by apply never_read_after_close_none, Forall_rev.
  - cbn [rev]. split; [|split; [|done]].
    + rewrite closes_app, closes_none by (by apply Forall_rev).
      cbn. by rewrite Nat.eqb_refl.
    + by apply never_read_after_close_last, Forall_rev.
Qed.

End BitmapReleaseFacts.

Import Platform BitmapReleaseFacts.

(** C2, as stated, fails: on the zero-dimension validation failure the
    bitmap is not closed at all (in either variant of the class). *)
Lemma fromImageBitmap_zero_dimension_not_closed :
  closes 7 (performed (ImageRawWorker.fromImageBitmap ImageRawWorker.fickle_platform
                         neutered_bitmap) initial_world) = 0%nat
  /\ closes 7 (performed (ImageRawDocument.fromImageBitmap ImageRawWorker.fickle_platform
                            neutered_bitmap) initial_world) = 0%nat
  /\ fst (ImageRawWorker.fromImageBitmap ImageRawWorker.fickle_platform
            neutered_bitmap initial_world)
     = Throw (Error "Invalid ImageBitmap: dimensions are zero (bitmap may be closed or neutered)").
Proof. vm_compute. repeat split; reflexivity. Qed.

(** C2 (amended): for a bitmap handle consumed by [fromImageBitmap], in
    both variants of the class and whatever the platform answers:
    - when the dimension validation passes and a canvas can be made, close()
      is invoked exactly once, whether the conversion succeeds, the context
      is [null], or a later step throws;
    - when the validation fails (width or height zero) the call throws the
      invalid-bitmap error and close() is not invoked;
    - the handle is never read after a close. *)
Theorem fromImageBitmap_releases_once
    (pf : platform) (bitmap : ImageBitmap) (w : world) :
  let b := bitmap_id bitmap in
  let on_worker := performed (ImageRawWorker.fromImageBitmap pf bitmap) w in
  let on_document := performed (ImageRawDocument.fromImageBitmap pf bitmap) w in
  (bitmap_width bitmap <> 0 -> bitmap_height bitmap <> 0 ->
     (HAS_OFFSCREEN_CANVAS pf || HAS_DOCUMENT pf = true -> closes b on_worker = 1%nat)
     /\ closes b on_document = 1%nat)
  /\ (bitmap_width bitmap = 0 \/ bitmap_height bitmap = 0 ->
      closes b on_worker = 0%nat /\ closes b on_document = 0%nat
      /\ fst (ImageRawWorker.fromImageBitmap pf bitmap w)
         = Throw (Error "Invalid ImageBitmap: dimensions are zero (bitmap may be closed or neutered)")
      /\ fst (ImageRawDocument.fromImageBitmap pf bitmap w)
         = Throw (Error "Invalid ImageBitmap: dimensions are zero (bitmap may be closed or neutered)"))
  /\ never_read_after_close b on_worker = true
  /\ never_read_after_close b on_document = true.
Proof.
  intros b on_worker on_document.
  destruct (worker_fromImageBitmap_shape pf bitmap w) as (evs & Hh & Hshape).
  destruct (document_fromImageBitmap_shape pf bitmap w) as (evs' & Hh' & Hshape').
  apply release_shape_closes in Hshape as (Hc & Hn & Hr).
  apply release_shape_closes in Hshape' as (Hc' & Hn' & Hr').
  subst on_worker on_document.
  rewrite (HistoryFacts.performed_app _ _ _ Hh), (HistoryFacts.performed_app _ _ _ Hh').
  fold b in Hc, Hn, Hc', Hn'.
  split; [|split; [|by split]].
  - intros Hw0 Hh0.
    apply Z.eqb_neq in Hw0, Hh0. rewrite Hw0, Hh0 in Hc, Hc'. cbn in Hc, Hc'.
    split; [|done]. intros Hav. by rewrite Hav in Hc.
  - intros Hzero.
    assert ((bitmap_width bitmap =? 0) || (bitmap_height bitmap =? 0) = true) as Hz.
    { apply orb_true_iff. destruct Hzero as [Hz|Hz]; [left|right]; by apply Z.eqb_eq. }
    rewrite Hz in *. cbn in *. auto.
Qed.

Lemma fromImageBitmap_releases_once_witness :
  let pf := ImageRawWorker.fickle_platform in
  closes 7 (performed (ImageRawWorker.fromImageBitmap pf small_bitmap) initial_world) = 1%nat
  /\ closes 7 (performed (ImageRawDocument.fromImageBitmap pf small_bitmap) initial_world) = 1%nat
  /\ closes 7 (performed (ImageRawWorker.fromImageBitmap pf neutered_bitmap) initial_world) = 0%nat.
Proof.
  intros pf.
  destruct (fromImageBitmap_releases_once pf small_bitmap initial_world)
    as (Hvalid & _ & _).
  destruct (fromImageBitmap_releases_once pf neutered_bitmap initial_world)
    as (_ & Hinvalid & _).
  destruct Hvalid as [Hworker Hdocument]; [discriminate | discriminate |].
  destruct Hinvalid as (Hzero & _); [by left|].
  split; [by apply Hworker | split; [exact Hdocument | exact Hzero]].
Defined.

(* ===================================================================== *)
(** * Image elements that are not loaded yet                              *)
(* ===================================================================== *)

Module ReturnsFacts.
Import Platform.
Local Open Scope js_scope.

Lemma returns_mret {A} (Q : A -> Prop) (a : A) : Q a -> returns Q (mret a).
Proof. intros HQ w. by exists a, w. Qed.

Lemma returns_bind {A B} (Q : A -> Prop) (R : B -> Prop) (c : M A) (k : A -> M B) :
  returns Q c -> (forall a, Q a -> returns R (k a)) -> returns R (bind c k).
Proof.
  intros Hc Hk w. destruct (Hc w) as (a & w' & Hrun & HQ).
  destruct (Hk a HQ w') as (b & w'' & Hrun' & HR).
  exists b, w''. unfold bind. by rewrite Hrun.
Qed.

Lemma returns_try_finally {A} (Q : A -> Prop) (body : M A) (finalizer : M unit) :
  returns Q body -> returns (fun _ => True) finalizer ->
  returns Q (try_finally body finalizer).
Proof.
  intros Hb Hf w. destruct (Hb w) as (a & w' & Hrun & HQ).
  destruct (Hf w') as ([] & w'' & Hrun' & _).
  exists a, w''. unfold try_finally. by rewrite Hrun, Hrun'.
Qed.

Lemma returns_try_catch {A} (Q : A -> Prop) (body : M A) (handler : exn -> M A) :
  returns Q body -> returns Q (try_catch body handler).
Proof.
  intros Hb w. destruct (Hb w) as (a & w' & Hrun & HQ).
  exists a, w'. unfold try_catch. by rewrite Hrun.
Qed.

Lemma returns_call {A} (Q : A -> Prop) (ev : event) (answer : list event -> completion A) :
  (forall h, exists a, answer h = Normal a /\ Q a) -> returns Q (call ev answer).
Proof.
  intros Ha w. destruct (Ha (history w)) as (a & Hans & HQ).
  exists a, (record ev w). unfold call. by rewrite Hans.
Qed.

Lemma returns_call_unit (ev : event) (answer : list event -> option exn) :
  (forall h, answer h = None) -> returns (fun _ => True) (call_unit ev answer).
Proof.
  intros Ha. apply returns_call. intros h. exists tt. by rewrite Ha.
Qed.

Lemma returns_weaken {A} (Q R : A -> Prop) (c : M A) :
  returns Q c -> (forall a, Q a -> R a) -> returns R c.
Proof.
  intros Hc HQR w. destruct (Hc w) as (a & w' & Hrun & HQ). exists a, w'. auto.
Qed.

Lemma returns_or_else_lazy (a : option number) (b : M number) :
  returns (fun _ => True) b -> returns (fun _ => True) (or_else_lazy a b).
Proof.
  intros Hb. unfold or_else_lazy. destruct a as [x|]; [|done].
  destruct (truthy x); [by apply returns_mret | done].
Qed.

End ReturnsFacts.

(** [call_unit ev (fun _ => None);; k]: a call that cannot throw. *)
Ltac returns_silent :=
  eapply ReturnsFacts.returns_bind with (Q := fun _ => True);
    [apply ReturnsFacts.returns_call_unit; intros ?; reflexivity | intros ? _].

Module ImageElementFacts.
Import Platform ReturnsFacts.
Local Open Scope js_scope.

Section Cooperative.
Variable pf : platform.
Hypothesis Hpf : cooperative pf.

Let anything {A} : A -> Prop := fun _ => True.

Lemma worker_createCanvas_returns (x y : number) :
  returns anything (ImageRawWorker.createCanvas pf x y).
Proof.
  unfold ImageRawWorker.createCanvas. pose proof (coop_canvas pf Hpf) as Hc.
  destruct (HAS_OFFSCREEN_CANVAS pf).
  - intros w. by eexists _, _.
  - cbn in Hc. rewrite Hc. eapply returns_bind with (Q := anything).
    + intros w. by eexists _, _.
    + intros c _. do 2 returns_silent. by apply returns_mret.
Qed.

Lemma worker_getContext2D_returns (c : canvas) :
  returns is_Some (ImageRawWorker.getContext2D pf c).
Proof.
  intros w. unfold ImageRawWorker.getContext2D.
  destruct (contextCache w !! c) as [cached|]; [by eexists _, _|].
  destruct (coop_context pf Hpf (history w) c) as [ctx ->]. by eexists _, _.
Qed.

Lemma worker_canvasPutImageData_returns (c : canvas) (d : ImageData) :
  returns anything (ImageRawWorker.canvasPutImageData pf c d).
Proof.
  unfold ImageRawWorker.canvasPutImageData.
  do 2 returns_silent. eapply returns_bind; [apply worker_getContext2D_returns|].
  intros ? [ctx ->]. apply returns_call_unit. intros h. apply (coop_put pf Hpf).
Qed.

Lemma worker_new_ImageRaw_returns (d : ImageRawData) :
  returns anything (ImageRawWorker.new_ImageRaw pf d).
Proof.
  unfold ImageRawWorker.new_ImageRaw.
  eapply returns_bind; [apply worker_createCanvas_returns|]. intros c _.
  eapply returns_bind with (Q := anything).
  { intros w. destruct (coop_new pf Hpf (data d) (width d) (height d)) as [i Hi].
    exists i, w. by rewrite Hi. }
  intros i _. eapply returns_bind; [apply worker_canvasPutImageData_returns|].
  intros ? _. by apply returns_mret.
Qed.

Lemma worker_close_quietly_returns (bitmap : ImageBitmap) :
  returns anything (ImageRawWorker.close_quietly pf bitmap).
Proof. intros w. rewrite worker_close_quietly. by eexists _, _. Qed.

Lemma worker_fromImageBitmap_returns (bitmap : ImageBitmap) :
  bitmap_width bitmap <> 0 -> bitmap_height bitmap <> 0 ->
  returns anything (ImageRawWorker.fromImageBitmap pf bitmap).
Proof.
  intros Hw Hh. unfold ImageRawWorker.fromImageBitmap.
  eapply returns_bind with (Q := fun invalid => invalid = false).
  { intros w. destruct (BitmapReleaseFacts.worker_has_zero_dimension bitmap w)
      as (evs & w' & Hrun & _).
    apply Z.eqb_neq in Hw, Hh. rewrite Hw, Hh in Hrun. by eexists _, _. }
  intros ? ->.
  unfold ImageRawWorker.read_bitmap_width, ImageRawWorker.read_bitmap_height.
  eapply returns_bind with (Q := anything); [apply returns_call; by eexists|].
  intros w0 _.
  eapply returns_bind with (Q := anything); [apply returns_call; by eexists|].
  intros h0 _.
  eapply returns_bind; [apply worker_createCanvas_returns|]. intros c _.
  eapply returns_bind; [apply worker_getContext2D_returns|]. intros ? [ctx ->].
  apply returns_try_finally; [|apply worker_close_quietly_returns].
  eapply returns_bind with (Q := anything).
  { apply returns_call_unit. intros h. apply (coop_draw pf Hpf). }
  intros ? _.
  eapply returns_bind with (Q := anything).
  { apply returns_call. intros h. destruct (coop_read pf Hpf h ctx) as [d Hd]. by exists d. }
  intros d _. apply worker_new_ImageRaw_returns.
Qed.

Lemma worker_rasterize_image_returns (img : HTMLImageElement) :
  returns anything (ImageRawWorker.rasterize_image pf img).
Proof.
  unfold ImageRawWorker.rasterize_image.
  destruct (HAS_CREATE_IMAGE_BITMAP pf) eqn:Hcib.
  - eapply returns_bind
      with (Q := fun b => bitmap_width b <> 0 /\ bitmap_height b <> 0).
    + unfold ImageRawWorker.createOptimizedImageBitmap. rewrite Hcib. cbn [negb].
      apply returns_try_catch, returns_call. intros h.
      destruct (coop_bitmap pf Hpf h (SrcImage img)) as (b & Hb & Hdims). by exists b.
    + intros b [Hw Hh]. by apply worker_fromImageBitmap_returns.
  - eapply returns_bind; [apply worker_createCanvas_returns|]. intros c _.
    eapply returns_bind with (Q := anything).
    { unfold ImageRawWorker.canvasDrawImage.
      eapply returns_bind with (Q := anything).
      { apply returns_or_else_lazy. intros w. by eexists _, _. }
      intros ? _. returns_silent.
      eapply returns_bind with (Q := anything).
      { apply returns_or_else_lazy. intros w. by eexists _, _. }
      intros ? _. returns_silent.
      eapply returns_bind; [apply worker_getContext2D_returns|]. intros ? [ctx ->].
      apply returns_call_unit. intros h. apply (coop_draw pf Hpf). }
    intros ? _.
    eapply returns_bind with (Q := anything).
    { unfold ImageRawWorker.getImageData.
      eapply returns_bind; [apply worker_getContext2D_returns|]. intros ? [ctx ->].
      apply returns_call. intros h. destruct (coop_read pf Hpf h ctx) as [d Hd]. by exists d. }
    intros d _. apply worker_new_ImageRaw_returns.
Qed.

Lemma document_getContext_returns (c : canvas) :
  returns is_Some (ImageRawDocument.getContext pf c).
Proof.
  intros w. unfold ImageRawDocument.getContext.
  eexists _, _. split; [done|]. apply (coop_context pf Hpf).
Qed.

Lemma document_new_ImageRaw_returns (d : ImageRawData) :
  returns anything (ImageRawDocument.new_ImageRaw pf d).
Proof.
  unfold ImageRawDocument.new_ImageRaw.
  eapply returns_bind with (Q := anything); [intros w; by eexists _, _|].
  intros c _.
  eapply returns_bind with (Q := anything).
  { intros w. destruct (coop_new pf Hpf (data d) (width d) (height d)) as [i Hi].
    exists i, w. by rewrite Hi. }
  intros i _. eapply returns_bind with (Q := anything); [|intros; by apply returns_mret].
  unfold ImageRawDocument.canvasPutImageData.
  eapply returns_bind; [apply document_getContext_returns|]. intros ? [ctx ->].
  do 2 returns_silent. apply returns_call_unit. intros h. apply (coop_put pf Hpf).
Qed.

Lemma document_rasterize_image_returns (img : HTMLImageElement) :
  returns anything (ImageRawDocument.rasterize_image pf img).
Proof.
  unfold ImageRawDocument.rasterize_image.
  eapply returns_bind with (Q := anything); [intros w; by eexists _, _|].
  intros c _.
  eapply returns_bind with (Q := anything).
  { unfold ImageRawDocument.canvasDrawImage, ImageRawDocument.getContext_nonnull.
    eapply returns_bind with (Q := anything).
    { apply returns_or_else_lazy. intros w. by eexists _, _. }
    intros ? _. returns_silent.
    eapply returns_bind with (Q := anything).
    { apply returns_or_else_lazy. intros w. by eexists _, _. }
    intros ? _. returns_silent.
    eapply returns_bind with (Q := anything).
    { eapply returns_bind; [apply document_getContext_returns|].
      intros ? [ctx ->]. by apply returns_mret. }
    intros ctx _. apply returns_call_unit. intros h. apply (coop_draw pf Hpf). }
  intros ? _.
  eapply returns_bind with (Q := anything).
  { unfold ImageRawDocument.canvasGetImageData, ImageRawDocument.getContext_nonnull.
    eapply returns_bind with (Q := anything).
    { eapply returns_bind; [apply document_getContext_returns|].
      intros ? [ctx ->]. by apply returns_mret. }
    intros ctx _. apply returns_call. intros h.
    destruct (coop_read pf Hpf h ctx) as [d Hd]. by exists d. }
  intros d _. apply document_new_ImageRaw_returns.
Qed.

End Cooperative.

End ImageElementFacts.

Import Platform ImageElementFacts.

Lemma fickle_platform_cooperative : cooperative ImageRawWorker.fickle_platform.
Proof.
  constructor; cbn; try done; intros; by eexists.
Qed.

(* ===================================================================== *)
(** * The call serializer                                                 *)
(* ===================================================================== *)

Module OcrFacts.
Import Ocr.

Lemma create_consistent : consistent create.
Proof.
  constructor; cbn; try done; lia.
Qed.

Lemma is_waiting_set_progress (p : phase) (c : call) :
  is_waiting (set_progress p c) = match p with Waiting => true | _ => false end.
Proof. done. Qed.

Lemma is_settled_waiting (c : call) : is_waiting c = true -> is_settled c = false.
Proof. unfold is_waiting, is_settled. by destruct (progress c). Qed.

Lemma is_settled_running (c : call) : is_running c = true -> is_settled c = false.
Proof. unfold is_running, is_settled. by destruct (progress c). Qed.

Lemma is_waiting_running (c : call) : is_running c = true -> is_waiting c = false.
Proof. unfold is_running, is_waiting. by destruct (progress c). Qed.

(** A call can only be resumed when it is the next in line. *)
Lemma resume_is_next (s : session) (k : nat) (c : call) :
  consistent s -> calls s !! k = Some c ->
  is_waiting c = true -> default false (promises s !! currentMutex c) = true ->
  k = length (started s)
  /\ forall j cj, calls s !! j = Some cj -> (j < k)%nat -> is_settled cj = true.
Proof.
  intros Hs Hk Hw Hp.
  destruct (chained s Hs k c Hk) as (Hcur & _ & _). rewrite Hcur in Hp.
  pose proof (proj1 (waiting_behind s Hs k c Hk) Hw) as Hge.
  assert (forall j cj, calls s !! j = Some cj -> S j = k -> is_settled cj = true) as Hprev.
  { intros j cj Hj <-. destruct (chained s Hs j cj Hj) as (_ & _ & Hpj).
    rewrite Hpj in Hp. exact Hp. }
  assert (k = length (started s)) as Hn.
  { destruct k as [|j]; [lia|].
    destruct (lookup_lt_is_Some_2 (calls s) j) as [cj Hj].
    { apply lookup_lt_Some in Hk. lia. }
    pose proof (Hprev j cj Hj eq_refl) as Hset.
    destruct (Nat.le_gt_cases (length (started s)) j) as [Hle|Hlt]; [|lia].
    apply (waiting_behind s Hs j cj Hj) in Hle.
    apply is_settled_waiting in Hle. congruence. }
  split; [exact Hn|]. intros j cj Hj Hlt.
  destruct (decide (S j = k)) as [Heq|Hne]; [by eapply Hprev|].
  apply (settled_before s Hs j cj Hj). lia.
Qed.

(** A call in its body is the one started last. *)
Lemma running_is_last (s : session) (k : nat) (c : call) :
  consistent s -> calls s !! k = Some c -> is_running c = true ->
  S k = length (started s).
Proof.
  intros Hs Hk Hr.
  destruct (Nat.le_gt_cases (length (started s)) k) as [Hle|Hlt].
  - apply (waiting_behind s Hs k c Hk) in Hle.
    apply is_waiting_running in Hr. congruence.
  - destruct (decide (S k = length (started s))) as [|Hne]; [done|].
    assert (S k < length (started s))%nat as Hlt' by lia.
    apply (settled_before s Hs k c Hk) in Hlt'.
    apply is_settled_running in Hr. congruence.
Qed.

Lemma step_consistent (ev : event) (s s' : session) :
  consistent s -> step ev s = Some s' -> consistent s'.
Proof.
  intros Hs Hstep. destruct ev as [|k|k o]; cbn in Hstep.
  - (* Detect *)
    injection Hstep as <-.
    pose proof (promises_length s Hs) as Hlen.
    pose proof (started_bound s Hs) as Hbound.
    constructor; cbn.
    + rewrite !length_app. cbn. lia.
    + rewrite length_app. cbn. lia.
    + rewrite lookup_app_l by lia. apply (first_resolved s Hs).
    + intros k c Hk. apply lookup_app_Some in Hk as [Hk|[Hge Hk]].
      * destruct (chained s Hs k c Hk) as (? & ? & Hp).
        pose proof (lookup_lt_Some _ _ _ Hk).
        repeat split; try done. rewrite lookup_app_l by lia. done.
      * destruct (k - length (calls s))%nat as [|?] eqn:Hd; [|done].
        injection Hk as <-. cbn.
        assert (k = length (calls s)) as -> by lia.
        repeat split; [apply (mutex_last s Hs) | lia |].
        rewrite lookup_app_r by lia.
        by replace (S (length (calls s)) - length (promises s))%nat with 0%nat by lia.
    + apply (fifo s Hs).
    + rewrite length_app. lia.
    + intros k c Hk. apply lookup_app_Some in Hk as [Hk|[Hge Hk]].
      * apply (waiting_behind s Hs k c Hk).
      * destruct (k - length (calls s))%nat as [|?] eqn:Hd; [|done].
        injection Hk as <-. cbn. split; [lia | done].
    + intros k c Hk Hlt. apply lookup_app_Some in Hk as [Hk|[Hge Hk]].
      * by apply (settled_before s Hs k c Hk).
      * lia.
  - (* Resume k *)
    destruct (calls s !! k) as [c|] eqn:Hk; [|done].
    destruct (is_waiting c) eqn:Hw; [|done].
    destruct (default false (promises s !! currentMutex c)) eqn:Hp; [|done].
    injection Hstep as <-.
    destruct (resume_is_next s k c Hs Hk Hw Hp) as [Hn Hprev].
    pose proof (lookup_lt_Some _ _ _ Hk) as Hklt.
    destruct (chained s Hs k c Hk) as (Hcur & Hrel & Hprom).
    constructor; cbn.
    + rewrite length_insert. apply (promises_length s Hs).
    + rewrite length_insert. apply (mutex_last s Hs).
    + apply (first_resolved s Hs).
    + intros j cj Hj.
      apply list_lookup_insert_Some in Hj as [(<- & <- & _)|[Hne Hj]].
      * cbn. repeat split; try done.
        rewrite Hprom. f_equal. by apply is_settled_waiting.
      * apply (chained s Hs j cj Hj).
    + rewrite length_app, Nat.add_1_r, seq_S. cbn.
      rewrite <- (fifo s Hs). by rewrite Hn.
    + rewrite length_app, length_insert. cbn. lia.
    + intros j cj Hj. rewrite length_app. cbn.
      apply list_lookup_insert_Some in Hj as [(<- & <- & _)|[Hne Hj]].
      * cbn. split; [done | lia].
      * rewrite (waiting_behind s Hs j cj Hj). lia.
    + intros j cj Hj. rewrite length_app. cbn. intros Hlt.
      apply list_lookup_insert_Some in Hj as [(<- & <- & _)|[Hne Hj]]; [lia|].
      apply (Hprev j cj Hj). lia.
  - (* Settle k o *)
    destruct (calls s !! k) as [c|] eqn:Hk; [|done].
    destruct (is_running c) eqn:Hr; [|done].
    injection Hstep as <-.
    pose proof (running_is_last s k c Hs Hk Hr) as Hlast.
    pose proof (lookup_lt_Some _ _ _ Hk) as Hklt.
    pose proof (promises_length s Hs) as Hlen.
    destruct (chained s Hs k c Hk) as (Hcur & Hrel & Hprom).
    constructor; cbn.
    + by rewrite !length_insert.
    + rewrite length_insert. apply (mutex_last s Hs).
    + rewrite Hrel, list_lookup_insert_ne by done. apply (first_resolved s Hs).
    + intros j cj Hj. rewrite Hrel.
      apply list_lookup_insert_Some in Hj as [(<- & <- & _)|[Hne Hj]].
      * cbn. repeat split; try done. apply list_lookup_insert_eq. lia.
      * rewrite list_lookup_insert_ne by lia. apply (chained s Hs j cj Hj).
    + apply (fifo s Hs).
    + rewrite length_insert. apply (started_bound s Hs).
    + intros j cj Hj.
      apply list_lookup_insert_Some in Hj as [(<- & <- & _)|[Hne Hj]].
      * cbn. split; [done | lia].
      * apply (waiting_behind s Hs j cj Hj).
    + intros j cj Hj Hlt.
      apply list_lookup_insert_Some in Hj as [(<- & <- & _)|[Hne Hj]]; [done|].
      by apply (settled_before s Hs j cj Hj).
Qed.

Lemma run_consistent (schedule : list event) (s s' : session) :
  consistent s -> run schedule s = Some s' -> consistent s'.
Proof.
  revert s. induction schedule as [|ev rest IH]; intros s Hs Hrun; cbn in Hrun.
  - by injection Hrun as <-.
  - destruct (step ev s) as [s1|] eqn:Hstep; [|done].
    eapply IH; [|exact Hrun]. by eapply step_consistent.
Qed.

Lemma run_app (schedule more : list event) (s : session) :
  run (schedule ++ more) s
  = match run schedule s with Some s' => run more s' | None => None end.
Proof.
  revert s. induction schedule as [|ev rest IH]; intros s; cbn; [done|].
  destruct (step ev s); [apply IH | done].
Qed.

Lemma filter_none {A} (P : A -> Prop) `{forall x, Decision (P x)} (l : list A) :
  (forall x, x ∈ l -> ~ P x) -> filter P l = [].
Proof.
  induction l as [|x l IH]; intros Hl; [done|].
  rewrite filter_cons_False by (apply Hl; left).
  apply IH. intros y Hy. apply Hl. by right.
Qed.

(** At most one call of a consistent session is in its body. *)
Lemma consistent_running (s : session) :
  consistent s -> (running s <= 1)%nat.
Proof.
  intros Hs. unfold running.
  assert (forall j k cj ck,
            calls s !! j = Some cj -> calls s !! k = Some ck ->
            is_running cj = true -> is_running ck = true -> j = k) as Huniq.
  { intros j k cj ck Hj Hk Hrj Hrk.
    pose proof (running_is_last s j cj Hs Hj Hrj).
    pose proof (running_is_last s k ck Hs Hk Hrk). lia. }
  clear Hs. revert Huniq. generalize (calls s). intros l.
  induction l as [|c l IH]; intros Huniq; [cbn; lia|].
  rewrite filter_cons. destruct (decide (is_running c = true)) as [Hc|Hc].
  - cbn. assert (filter (fun c => is_running c = true) l = []) as ->; [|cbn; lia].
    apply filter_none. intros c' Hin Hc'.
    apply list_elem_of_lookup in Hin as [i Hi].
    specialize (Huniq 0%nat (S i) c c' eq_refl Hi Hc Hc'). lia.
  - apply IH. intros j k cj ck Hj Hk Hrj Hrk.
    specialize (Huniq (S j) (S k) cj ck Hj Hk Hrj Hrk). lia.
Qed.

End OcrFacts.

Import Ocr OcrFacts.

(** C3: for every sequence of [detect] calls on one session, however their
    steps interleave, at most one [#detectInternal] body is in execution at
    any moment, and the bodies start in the order in which the calls were
    made.  The only steps a call has are being made, starting its body once
    the previous call's promise is resolved, and settling: there is no step
    that reorders, cancels or times out a call. *)
Theorem detect_serialized (schedule : list event) (s : session) :
  run schedule create = Some s ->
  (running s <= 1)%nat
  /\ (forall j k cj ck,
        calls s !! j = Some cj -> calls s !! k = Some ck ->
        is_running cj = true -> is_running ck = true -> j = k)
  /\ started s = seq 0 (length (started s))
  /\ (forall k c, calls s !! k = Some c ->
        (is_waiting c = false <-> k ∈ started s)).
Proof.
  intros Hrun.
  pose proof (run_consistent schedule create s create_consistent Hrun) as Hs.
  split; [by apply consistent_running|]. split; [|split].
  - intros j k cj ck Hj Hk Hrj Hrk.
    pose proof (running_is_last s j cj Hs Hj Hrj).
    pose proof (running_is_last s k ck Hs Hk Hrk). lia.
  - apply (fifo s Hs).
  - intros k c Hk. rewrite (fifo s Hs), elem_of_seq.
    pose proof (waiting_behind s Hs k c Hk) as Hw.
    destruct (is_waiting c).
    + destruct Hw as [Hw _]. specialize (Hw eq_refl). split; [done | lia].
    + split; [intros _ | done].
      destruct (Nat.le_gt_cases (length (started s)) k) as [Hle|Hgt]; [|lia].
      apply Hw in Hle. done.
Qed.

Lemma detect_serialized_witness :
  exists s, run failing_then_succeeding create = Some s
    /\ (running s <= 1)%nat /\ started s = [0; 1]%nat.
Proof.
  eexists. split; [reflexivity|].
  destruct (detect_serialized failing_then_succeeding _ eq_refl) as (Hone & _ & _ & _).
  split; [exact Hone | reflexivity].
Defined.

Module OcrProgressFacts.
Import Ocr OcrFacts.

(** A settled call is never touched again. *)
Lemma step_settled_stable (ev : event) (s s' : session) (k : nat) (c : call) :
  step ev s = Some s' -> calls s !! k = Some c -> is_settled c = true ->
  calls s' !! k = Some c.
Proof.
  intros Hstep Hk Hset. destruct ev as [|j|j o]; cbn in Hstep.
  - injection Hstep as <-. cbn. apply lookup_app_l_Some, Hk.
  - destruct (calls s !! j) as [cj|] eqn:Hj; [|done].
    destruct (is_waiting cj) eqn:Hw; [|done].
    destruct (default false _); [|done]. injection Hstep as <-. cbn.
    rewrite list_lookup_insert_ne; [done|]. intros ->.
    apply is_settled_waiting in Hw. congruence.
  - destruct (calls s !! j) as [cj|] eqn:Hj; [|done].
    destruct (is_running cj) eqn:Hr; [|done]. injection Hstep as <-. cbn.
    rewrite list_lookup_insert_ne; [done|]. intros ->.
    apply is_settled_running in Hr. congruence.
Qed.

Lemma run_settled_stable (schedule : list event) (s s' : session) (k : nat) (c : call) :
  run schedule s = Some s' -> calls s !! k = Some c -> is_settled c = true ->
  calls s' !! k = Some c.
Proof.
  revert s. induction schedule as [|ev rest IH]; intros s Hrun Hk Hset; cbn in Hrun.
  - by injection Hrun as <-.
  - destruct (step ev s) as [s1|] eqn:Hstep; [|done].
    eapply IH; [exact Hrun | by eapply step_settled_stable | done].
Qed.

Lemma phase_cases (c : call) :
  is_waiting c = true \/ is_running c = true \/ is_settled c = true.
Proof. unfold is_waiting, is_running, is_settled. destruct (progress c); auto. Qed.

(** A body in execution can settle, which leaves the session idle and the
    waiting calls as they are. *)
Lemma settle_running (s : session) :
  consistent s ->
  exists more s',
    run more s = Some s' /\ idle s'
    /\ forall k c, calls s !! k = Some c -> is_waiting c = true ->
         calls s' !! k = Some c.
Proof.
  intros Hs.
  assert ((exists k c, calls s !! k = Some c /\ is_running c = true) \/ idle s)
    as [(k & c & Hk & Hr)|Hidle].
  { destruct (length (started s)) as [|m] eqn:Hn.
    - right. intros k c Hk. destruct (is_running c) eqn:Hr; [|done].
      pose proof (running_is_last s k c Hs Hk Hr). lia.
    - destruct (lookup_lt_is_Some_2 (calls s) m) as [cm Hm].
      { pose proof (started_bound s Hs). lia. }
      destruct (is_running cm) eqn:Hrm; [left; eauto|].
      right. intros k c Hk. destruct (is_running c) eqn:Hr; [|done].
      pose proof (running_is_last s k c Hs Hk Hr).
      assert (k = m) as -> by lia. congruence. }
  - pose proof (running_is_last s k c Hs Hk Hr) as Hlast.
    exists [Settle k (Fulfilled 0)]. cbn. rewrite Hk, Hr. eexists. split; [done|].
    split.
    + intros j cj Hj. cbn in Hj.
      apply list_lookup_insert_Some in Hj as [(<- & <- & _)|[Hne Hj]]; [done|].
      destruct (is_running cj) eqn:Hrj; [|done].
      pose proof (running_is_last s j cj Hs Hj Hrj). lia.
    + intros j cj Hj Hw. cbn. rewrite list_lookup_insert_ne; [done|]. intros ->.
      apply is_waiting_running in Hr. congruence.
  - by exists [], s.
Qed.

(** In an idle session the call next in line can start, and can settle in
    any way; the session is idle again afterwards. *)
Lemma serve_next (s : session) (c : call) (o : outcome) :
  consistent s -> idle s ->
  calls s !! length (started s) = Some c ->
  exists s',
    run [Resume (length (started s)); Settle (length (started s)) o] s = Some s'
    /\ consistent s' /\ idle s'
    /\ length (started s') = S (length (started s))
    /\ calls s' = <[length (started s) := set_progress (Settled o) c]> (calls s).
Proof.
  intros Hs Hidle Hc. set (n := length (started s)) in *.
  assert (is_waiting c = true) as Hw.
  { apply (waiting_behind s Hs n c Hc). lia. }
  destruct (chained s Hs n c Hc) as (Hcur & Hrel & Hprom).
  assert (default false (promises s !! currentMutex c) = true) as Hp.
  { rewrite Hcur. destruct n as [|m] eqn:Hn.
    - by rewrite (first_resolved s Hs).
    - destruct (lookup_lt_is_Some_2 (calls s) m) as [cm Hm].
      { apply lookup_lt_Some in Hc. lia. }
      destruct (chained s Hs m cm Hm) as (_ & _ & Hpm). rewrite Hpm. cbn.
      destruct (phase_cases cm) as [Hwm|[Hrm|Hsm]]; [| |done].
      + apply (waiting_behind s Hs m cm Hm) in Hwm. lia.
      + rewrite (Hidle m cm Hm) in Hrm. done. }
  pose proof (lookup_lt_Some _ _ _ Hc) as Hlt.
  destruct (step (Resume n) s) as [s1|] eqn:Hstep1.
  2:{ cbn in Hstep1. by rewrite Hc, Hw, Hp in Hstep1. }
  pose proof (step_consistent _ _ _ Hs Hstep1) as Hs1.
  cbn in Hstep1. rewrite Hc, Hw, Hp in Hstep1. cbn in Hstep1.
  injection Hstep1 as <-.
  cbn [run]. cbn [step]. cbn [calls promises mutex started].
  rewrite Hc, Hw, Hp. cbn [andb].
  cbn [step calls]. rewrite list_lookup_insert_eq by done.
  cbn [is_running set_progress progress promises mutex started releaseMutex].
  eexists. split; [reflexivity|].
  assert (step (Settle n o)
            {| mutex := mutex s; promises := promises s;
               calls := <[n:=set_progress Running c]> (calls s);
               started := started s ++ [n] |}
          = Some {| mutex := mutex s;
                    promises := <[releaseMutex c:=true]> (promises s);
                    calls := <[n:=set_progress (Settled o) c]>
                               (<[n:=set_progress Running c]> (calls s));
                    started := started s ++ [n] |}) as Hstep2.
  { cbn. by rewrite list_lookup_insert_eq by done. }
  pose proof (step_consistent _ _ _ Hs1 Hstep2) as Hs2.
  split; [exact Hs2|]. cbn [calls started].
  rewrite list_insert_insert_eq.
  split; [|split; [rewrite length_app; cbn; lia | done]].
  intros j cj Hj.
  apply list_lookup_insert_Some in Hj as [(<- & <- & _)|[Hne Hj]]; [done|].
  by apply (Hidle j cj).
Qed.

(** In an idle session every waiting call gets its turn: the calls before
    it in line are served one after the other, and then it is. *)
Lemma serve_until (d : nat) (s : session) (j : nat) (cj : call) (result : nat) :
  consistent s -> idle s ->
  calls s !! j = Some cj -> is_waiting cj = true ->
  (j - length (started s) <= d)%nat ->
  exists more s',
    run more s = Some s'
    /\ progress_of s' j = Some (Settled (Fulfilled result)).
Proof.
  revert s. induction d as [|d IH]; intros s Hs Hidle Hj Hw Hd.
  - pose proof (proj1 (waiting_behind s Hs j cj Hj) Hw) as Hge.
    assert (j = length (started s)) as Hjn by lia.
    rewrite Hjn in Hj.
    destruct (serve_next s cj (Fulfilled result) Hs Hidle Hj)
      as (s' & Hrun & _ & _ & _ & Hcalls).
    eexists _, s'. split; [exact Hrun|].
    unfold progress_of. rewrite Hcalls, Hjn.
    rewrite list_lookup_insert_eq by (by eapply lookup_lt_Some). done.
  - pose proof (proj1 (waiting_behind s Hs j cj Hj) Hw) as Hge.
    destruct (decide (j = length (started s))) as [Hjn|Hne].
    { apply (IH s); try done. lia. }
    destruct (lookup_lt_is_Some_2 (calls s) (length (started s))) as [c Hc].
    { apply lookup_lt_Some in Hj. lia. }
    destruct (serve_next s c (Fulfilled 0) Hs Hidle Hc)
      as (s1 & Hrun1 & Hs1 & Hidle1 & Hlen1 & Hcalls1).
    destruct (IH s1 Hs1 Hidle1) as (more & s' & Hrun & Hdone).
    { rewrite Hcalls1. rewrite list_lookup_insert_ne by done. exact Hj. }
    { done. }
    { lia. }
    exists ([Resume (length (started s)); Settle (length (started s)) (Fulfilled 0)] ++ more), s'.
    split; [|done]. by rewrite run_app, Hrun1.
Qed.

End OcrProgressFacts.

Import OcrProgressFacts.

(** C4: when a [detect] call of a session has failed (its promise is
    rejected), the promise it was to resolve is resolved, so the mutex is
    released; and every call that is queued on the session then, whenever it
    was made, still gets to run and can succeed with any result, while the
    failed call stays failed. *)
Theorem detect_failure_does_not_block
    (schedule : list event) (s : session) (k : nat) (c : call) (reason : string) :
  run schedule create = Some s ->
  calls s !! k = Some c ->
  progress c = Settled (Rejected reason) ->
  resolved s (releaseMutex c) = true
  /\ forall j cj result,
       calls s !! j = Some cj -> is_waiting cj = true ->
       exists more s',
         run more s = Some s'
         /\ progress_of s' j = Some (Settled (Fulfilled result))
         /\ progress_of s' k = Some (Settled (Rejected reason)).
Proof.
  intros Hrun Hk Hfailed.
  pose proof (run_consistent schedule create s create_consistent Hrun) as Hs.
  assert (is_settled c = true) as Hset by (unfold is_settled; by rewrite Hfailed).
  split.
  - destruct (chained s Hs k c Hk) as (_ & Hrel & Hprom).
    unfold resolved. by rewrite Hrel, Hprom, Hset.
  - intros j cj result Hj Hw.
    destruct (settle_running s Hs) as (more1 & s1 & Hrun1 & Hidle1 & Hwait1).
    pose proof (run_consistent more1 s s1 Hs Hrun1) as Hs1.
    destruct (serve_until (j - length (started s1)) s1 j cj result Hs1 Hidle1
                (Hwait1 j cj Hj Hw) Hw (Nat.le_refl _))
      as (more2 & s2 & Hrun2 & Hdone).
    exists (more1 ++ more2), s2. rewrite run_app, Hrun1.
    split; [exact Hrun2 | split; [exact Hdone|]].
    unfold progress_of.
    rewrite (run_settled_stable more2 s1 s2 k c Hrun2
               (run_settled_stable more1 s s1 k c Hrun1 Hk Hset) Hset).
    cbn. by rewrite Hfailed.
Qed.

Lemma detect_failure_does_not_block_witness :
  let s := {| mutex := 2; promises := [true; true; false];
              calls := [ {| currentMutex := 0; releaseMutex := 1;
                            progress := Settled (Rejected "ResourceFetchFailed") |};
                         {| currentMutex := 1; releaseMutex := 2;
                            progress := Waiting |} ];
              started := [0%nat] |} in
  run [Detect; Detect; Resume 0; Settle 0 (Rejected "ResourceFetchFailed")] create
  = Some s
  /\ resolved s 1 = true
  /\ exists more s',
       run more s = Some s'
       /\ progress_of s' 1 = Some (Settled (Fulfilled 42))
       /\ progress_of s' 0 = Some (Settled (Rejected "ResourceFetchFailed")).
Proof.
  intros s.
  destruct (detect_failure_does_not_block
              [Detect; Detect; Resume 0; Settle 0 (Rejected "ResourceFetchFailed")]
              s 0 _ "ResourceFetchFailed" eq_refl eq_refl eq_refl)
    as [Hreleased Hnext].
  split; [reflexivity | split; [exact Hreleased|]].
  exact (Hnext 1%nat _ 42%nat eq_refl eq_refl).
Defined.

(* ===================================================================== *)
(** * Further properties of the tensor preparer                           *)
(* ===================================================================== *)

Module TensorEdgeFacts.
Import ModelBase ModelBaseFacts.

Lemma sub_NaN_r (x : number) : sub x NaN = NaN.
Proof. by destruct x as [[]|[]| |[] ? ?]. Qed.

Lemma div_NaN_l (y : number) : div NaN y = NaN.
Proof. by destruct y. Qed.

Lemma div_NaN_r (x : number) : div x NaN = NaN.
Proof. by destruct x as [[]|[]| |[] ? ?]. Qed.

Lemma fround_NaN : fround NaN = NaN.
Proof. reflexivity. Qed.

Lemma arr_get_missing (a : list number) (c : nat) :
  (length a <= c)%nat -> arr_get a c = NaN.
Proof. intros H. unfold arr_get. by rewrite lookup_ge_None_2. Qed.

(** The length of a new [Float32Array(pixelCount * 3)]. *)
Lemma f32_new_floor (len : nat) :
  length (f32_new (inject_Z (Z.of_nat len) / 4 * 3)) = (3 * len / 4)%nat.
Proof.
  unfold f32_new. rewrite length_replicate.
  assert (inject_Z (Z.of_nat len) / 4 * 3 == (3 * Z.of_nat len) # 4)%Q as Heq.
  { unfold Qeq, Qdiv, Qmult, Qinv, inject_Z. cbn. lia. }
  rewrite (Qfloor_comp _ _ Heq). unfold Qfloor.
  rewrite <- (Nat2Z.id (3 * len / 4)). f_equal.
  rewrite Nat2Z.inj_div, Nat2Z.inj_mul. reflexivity.
Qed.

(** Division by zero of a byte over 255: [NaN] for [0/0], [+Infinity]
    otherwise; checked on each of the 256 byte values. *)
Lemma byte_over_zero (b : byte) :
  fround (div (sub (div (of_byte b) (of_Z 255)) (of_Z 0)) (of_Z 0))
  = if Byte.eqb b x00 then NaN else S754_infinity false.
Proof. destruct b; vm_compute; reflexivity. Qed.

End TensorEdgeFacts.

Import ModelBase ModelBaseFacts TensorEdgeFacts.

(** X1: the alpha bytes do not matter.  Two pixel buffers of the same
    length [4 * n] that agree on every byte other than the alpha bytes (the
    bytes at offsets [4p + 3]) give the same tensor. *)
Theorem imageToInput_ignores_alpha
    (n : nat) (image1 image2 : ImageRaw) (opts : ReshapeOptions) :
  length (data image1) = (4 * n)%nat ->
  length (data image2) = (4 * n)%nat ->
  (forall i, (i mod 4 <> 3)%nat -> data image1 !! i = data image2 !! i) ->
  md_data (imageToInput image1 opts) = md_data (imageToInput image2 opts).
Proof.
  intros H1 H2 Hagree. apply list_eq. intros j.
  destruct (Nat.lt_ge_cases j (3 * n)) as [Hj|Hj].
  - assert (0 < n)%nat as Hn by lia.
    pose proof (Nat.div_mod_eq j n) as Hdm.
    pose proof (Nat.mod_upper_bound j n ltac:(lia)) as Hmod.
    assert (j `div` n < 3)%nat as Hdiv
      by (apply Nat.Div0.div_lt_upper_bound; lia).
    assert (j = (j `div` n) * n + j `mod` n)%nat as -> by lia.
    rewrite !(imageToInput_lookup n) by done.
    unfold stored, normalise, u8_get.
    rewrite Hagree; [done|].
    set (p := (j `mod` n)%nat). set (k := (j `div` n)%nat) in *.
    replace (4 * p + (2 - k))%nat with ((2 - k) + p * 4)%nat by lia.
    rewrite Nat.Div0.mod_add.
    destruct k as [|[|[|?]]]; cbn; lia.
  - rewrite !lookup_ge_None_2; [done | |];
      by rewrite (imageToInput_length n).
Qed.

Lemma imageToInput_ignores_alpha_witness :
  md_data (imageToInput canonical_buffer no_options)
  = md_data (imageToInput
               {| data := [xff; x00; x00; x00; x00; xff; x00; x7f];
                  width := of_Z 2; height := of_Z 1 |} no_options).
Proof.
  apply (imageToInput_ignores_alpha 2); [reflexivity | reflexivity |].
  intros i Hi.
  destruct i as [|[|[|[|[|[|[|[|i]]]]]]]]; cbn in *; try done; lia.
Defined.

(** X2: whatever the length of the data, also when it is not a multiple of
    four and when it is zero, [imageToInput] returns
    [floor (3 * length / 4)] elements and hands width and height through. *)
Theorem imageToInput_length_any (image : ImageRaw) (opts : ReshapeOptions) :
  length (md_data (imageToInput image opts)) = (3 * length (data image) / 4)%nat
  /\ md_width (imageToInput image opts) = width image
  /\ md_height (imageToInput image opts) = height image.
Proof.
  split; [|done]. unfold imageToInput. cbn [md_data].
  rewrite loop_length. apply f32_new_floor.
Qed.

(** X3: a mean or std array with no entry for a channel does not make
    [imageToInput] fail: the missing entry reads [undefined], and every
    element of that channel's plane is [NaN]. *)
Theorem imageToInput_missing_parameter
    (n : nat) (image : ImageRaw) (opts : ReshapeOptions) (c p : nat) :
  length (data image) = (4 * n)%nat ->
  (c < 3)%nat -> (p < n)%nat ->
  (length (default default_mean (mean opts)) <= c)%nat
  \/ (length (default default_std (std opts)) <= c)%nat ->
  md_data (imageToInput image opts) !! ((2 - c) * n + p)%nat = Some NaN.
Proof.
  intros Hlen Hc Hp Hmissing.
  rewrite (imageToInput_lookup n) by (done || lia).
  unfold stored, normalise. replace (2 - (2 - c))%nat with c by lia.
  destruct Hmissing as [H|H]; rewrite (arr_get_missing _ _ H).
  - by rewrite sub_NaN_r, div_NaN_l.
  - by rewrite div_NaN_r.
Qed.

Lemma imageToInput_missing_parameter_witness :
  md_data (imageToInput canonical_buffer
             {| mean := Some [of_Z 0; of_Z 0]; std := None |}) !! 1%nat
  = Some NaN.
Proof.
  apply (imageToInput_missing_parameter 2 canonical_buffer
           {| mean := Some [of_Z 0; of_Z 0]; std := None |} 2 1);
    [reflexivity | lia | lia | left; cbn; lia].
Defined.

(** X4: a zero in std does not make [imageToInput] fail either.  With mean
    [0] and std [0] for a channel, a byte [0] becomes [NaN] and every other
    byte becomes [+Infinity]. *)
Theorem imageToInput_zero_std
    (n : nat) (image : ImageRaw) (opts : ReshapeOptions) (c p : nat) (b : byte) :
  length (data image) = (4 * n)%nat ->
  (c < 3)%nat -> (p < n)%nat ->
  default default_mean (mean opts) !! c = Some (of_Z 0) ->
  default default_std (std opts) !! c = Some (of_Z 0) ->
  data image !! (4 * p + c)%nat = Some b ->
  md_data (imageToInput image opts) !! ((2 - c) * n + p)%nat
  = Some (if Byte.eqb b x00 then NaN else S754_infinity false).
Proof.
  intros Hlen Hc Hp Hmean Hstd Hb.
  rewrite (imageToInput_lookup n) by (done || lia).
  unfold stored, normalise, arr_get, u8_get.
  replace (2 - (2 - c))%nat with c by lia.
  by rewrite Hmean, Hstd, Hb, byte_over_zero.
Qed.

Lemma imageToInput_zero_std_witness :
  md_data (imageToInput canonical_buffer
             {| mean := None; std := Some [of_Z 0; of_Z 1; of_Z 1] |})
  !! 4%nat = Some (S754_infinity false)
  /\ md_data (imageToInput canonical_buffer
                {| mean := None; std := Some [of_Z 0; of_Z 1; of_Z 1] |})
     !! 5%nat = Some NaN.
Proof.
  split.
  - exact (imageToInput_zero_std 2 canonical_buffer
             {| mean := None; std := Some [of_Z 0; of_Z 1; of_Z 1] |}
             0 0 xff eq_refl ltac:(lia) ltac:(lia) eq_refl eq_refl eq_refl).
  - exact (imageToInput_zero_std 2 canonical_buffer
             {| mean := None; std := Some [of_Z 0; of_Z 1; of_Z 1] |}
             0 1 x00 eq_refl ltac:(lia) ltac:(lia) eq_refl eq_refl eq_refl).
Defined.

Import ModelInput.

(** A byte is a 32-bit float already: [Float32Array.from] of a
    [Uint8Array] is exact. *)
Lemma fround_of_byte (b : byte) : fround (of_byte b) = of_byte b.
Proof. destruct b; vm_compute; reflexivity. Qed.

(** X5: the tensor [#prepareInput] builds from what [imageToInput] returns
    for a [W] by [H] pixel buffer holds the same elements, unconverted, has
    dimensions [[1, 3, H, W]], and its element count [3 * H * W] is the
    product of those dimensions; a [Uint8Array] handed to [#prepareInput]
    is converted without rounding. *)
Theorem prepareInput_of_imageToInput
    (W H : nat) (image : ImageRaw) (opts : ReshapeOptions) :
  length (data image) = (4 * W * H)%nat ->
  width image = of_Z (Z.of_nat W) ->
  height image = of_Z (Z.of_nat H) ->
  let t := prepareInput_of (imageToInput image opts) in
  tensor_data t = md_data (imageToInput image opts)
  /\ tensor_dims t = [of_Z 1; of_Z 3; of_Z (Z.of_nat H); of_Z (Z.of_nat W)]
  /\ length (tensor_data t) = (1 * 3 * H * W)%nat
  /\ forall bs x y,
       tensor_data (prepareInput (Bytes bs) x y) = of_byte <$> bs.
Proof.
  intros Hlen Hw Hh t. subst t. unfold prepareInput_of, prepareInput.
  cbn [tensor_data tensor_dims md_width md_height imageToInput].
  rewrite Hw, Hh. repeat split.
  - change (length (md_data (imageToInput image opts)) = (1 * 3 * H * W)%nat).
    rewrite (imageToInput_length (W * H)) by lia. lia.
  - intros bs _ _. cbn. apply list_fmap_ext. intros _ b _. apply fround_of_byte.
Qed.

Lemma prepareInput_of_imageToInput_witness :
  let t := prepareInput_of (imageToInput canonical_buffer no_options) in
  tensor_dims t = [of_Z 1; of_Z 3; of_Z 1; of_Z 2]
  /\ length (tensor_data t) = 6%nat.
Proof.
  destruct (prepareInput_of_imageToInput 2 1 canonical_buffer no_options)
    as (_ & Hd & Hl & _); [reflexivity | reflexivity | reflexivity |].
  split; [exact Hd | exact Hl].
Defined.

(* ===================================================================== *)
(** * The default normalisation keeps bytes apart                          *)
(* ===================================================================== *)

Module ByteTableFacts.
Import ByteTable.

Lemma in_all_bytes (b : byte) : In b all_bytes.
Proof.
  unfold all_bytes. apply in_map_iff. exists (N.to_nat (Byte.to_N b)). split.
  - by rewrite N2Nat.id, Byte.of_to_N.
  - apply in_seq. pose proof (Byte.to_N_bounded b). lia.
Qed.

Lemma in_element_table (b : byte) : In (b, default_element b) element_table.
Proof.
  unfold element_table. apply in_map_iff. exists b. split; [done|].
  apply in_all_bytes.
Qed.

Lemma element_table_increasing : increasing element_table = true.
Proof. vm_compute. reflexivity. Qed.

Lemma increasing_spec (table : list (byte * number)) (e1 e2 : byte * number) :
  increasing table = true ->
  In e1 table -> In e2 table ->
  (Byte.to_N (fst e1) < Byte.to_N (fst e2))%N ->
  ltb (snd e1) (snd e2) = true.
Proof.
  unfold increasing. intros H H1 H2 Hlt.
  rewrite forallb_forall in H. specialize (H e1 H1).
  rewrite forallb_forall in H. specialize (H e2 H2).
  apply N.ltb_lt in Hlt. by rewrite Hlt in H.
Qed.

Lemma default_element_increasing (b1 b2 : byte) :
  (Byte.to_N b1 < Byte.to_N b2)%N ->
  ltb (default_element b1) (default_element b2) = true.
Proof.
  intros Hlt.
  exact (increasing_spec element_table (b1, default_element b1)
           (b2, default_element b2) element_table_increasing
           (in_element_table b1) (in_element_table b2) Hlt).
Qed.

End ByteTableFacts.

Import ByteTable ByteTableFacts.

(** X14: with the default mean and std, rounding to 32-bit floats makes no
    two byte values collide and keeps their order: if, in one channel, the
    byte of pixel [p] is smaller than the byte of pixel [q], then the
    element stored for [p] is strictly smaller than the element stored for
    [q] in that channel's plane. *)
Theorem imageToInput_keeps_order
    (n : nat) (image : ImageRaw) (c p q : nat) (bp bq : byte) :
  length (data image) = (4 * n)%nat ->
  (c < 3)%nat -> (p < n)%nat -> (q < n)%nat ->
  data image !! (4 * p + c)%nat = Some bp ->
  data image !! (4 * q + c)%nat = Some bq ->
  (Byte.to_N bp < Byte.to_N bq)%N ->
  exists x y,
    md_data (imageToInput image no_options) !! ((2 - c) * n + p)%nat = Some x
    /\ md_data (imageToInput image no_options) !! ((2 - c) * n + q)%nat = Some y
    /\ ltb x y = true.
Proof.
  intros Hlen Hc Hp Hq Hbp Hbq Hlt.
  exists (default_element bp), (default_element bq).
  rewrite !(imageToInput_lookup n) by (done || lia).
  unfold stored, normalise, u8_get. replace (2 - (2 - c))%nat with c by lia.
  rewrite Hbp, Hbq.
  destruct (default_params_get c Hc) as [Hm Hs]. cbn [default mean std no_options].
  rewrite Hm, Hs. repeat split. by apply default_element_increasing.
Qed.

Lemma imageToInput_keeps_order_witness :
  exists x y,
    md_data (imageToInput canonical_buffer no_options) !! 5%nat = Some x
    /\ md_data (imageToInput canonical_buffer no_options) !! 4%nat = Some y
    /\ ltb x y = true.
Proof.
  exact (imageToInput_keeps_order 2 canonical_buffer 0 1 0 x00 xff
           eq_refl ltac:(lia) ltac:(lia) ltac:(lia) eq_refl eq_refl eq_refl).
Defined.

(* ===================================================================== *)
(** * The universal factory                                               *)
(* ===================================================================== *)

Module FactoryFacts.
Import Platform Realm Inputs.

Lemma unrecognised_not_instance (rl : realm) (input : JS.value) (C : JS.class) :
  unrecognised input = true -> C ∈ handle_classes ->
  is_instance rl C input = false /\ JS.instanceof input C = false.
Proof.
  intros Hun HC. unfold is_instance.
  destruct input as [| | | | |fprops|cls props]; cbn in *;
    try (by rewrite andb_false_r).
  apply andb_true_iff in Hun as [Hcls _].
  apply negb_true_iff, bool_decide_eq_false in Hcls.
  rewrite bool_decide_eq_false_2; [by rewrite andb_false_r|]. by intros ->.
Qed.

Lemma unrecognised_not_raw (input : JS.value) :
  unrecognised input = true -> ImageRaw.isImageRawData input = false.
Proof.
  destruct input as [| | | | |fprops|cls props]; cbn; try done.
  intros H. apply andb_true_iff in H as [_ H]. by apply negb_true_iff in H.
Qed.

End FactoryFacts.

Import Platform Realm Inputs FactoryFacts.

(** X6: an input that [from] has no branch for (a number, a boolean,
    [null], [undefined], a function, or an object that is neither a
    platform handle nor a pixel buffer) is rejected with the error
    "Unsupported image input type", in both variants of the class and in
    every environment, and nothing has happened by then: no call into the
    platform, no canvas, no cache entry. *)
Theorem from_rejects_unrecognised
    (pf : platform) (rl : realm) (ld : loader) (input : JS.value) (w : world) :
  unrecognised input = true ->
  ImageRawWorkerFactory.from pf rl ld input w
  = (Throw (Error "Unsupported image input type"), w)
  /\ ImageRawDocumentFactory.from pf rl ld input w
     = (Throw (Error "Unsupported image input type"), w).
Proof.
  intros Hun.
  pose proof (unrecognised_not_raw input Hun) as Hraw.
  assert (forall C, C ∈ handle_classes -> is_instance rl C input = false) as Hno.
  { intros C HC. by apply unrecognised_not_instance. }
  assert (JS.instanceof input JS.OffscreenCanvas = false) as Hoff.
  { apply (unrecognised_not_instance rl); [done|]. unfold handle_classes. set_solver. }
  unfold ImageRawWorkerFactory.from, ImageRawDocumentFactory.from,
    ImageRawWorkerFactory.isImageBitmap, ImageRawWorkerFactory.isOffscreenCanvas,
    ImageRawWorkerFactory.isHTMLImageElement, ImageRawWorkerFactory.isHTMLCanvasElement,
    ImageRawWorkerFactory.isHTMLVideoElement.
  rewrite !Hno, Hoff, Hraw, andb_false_r by (unfold handle_classes; set_solver).
  by destruct input.
Qed.


Lemma from_rejects_unrecognised_witness :
  ImageRawWorkerFactory.from ImageRawWorker.fickle_platform Fixtures.full_realm
    Fixtures.offline_loader (JS.VNumber (of_Z 42)) initial_world
  = (Throw (Error "Unsupported image input type"), initial_world)
  /\ ImageRawDocumentFactory.from ImageRawWorker.fickle_platform Fixtures.full_realm
       Fixtures.offline_loader (JS.VObject JS.Object [("width", JS.VNumber (of_Z 1))])
       initial_world
     = (Throw (Error "Unsupported image input type"), initial_world).
Proof.
  split.
  - exact (proj1 (from_rejects_unrecognised ImageRawWorker.fickle_platform
                    Fixtures.full_realm Fixtures.offline_loader
                    (JS.VNumber (of_Z 42)) initial_world eq_refl)).
  - exact (proj2 (from_rejects_unrecognised ImageRawWorker.fickle_platform
                    Fixtures.full_realm Fixtures.offline_loader
                    (JS.VObject JS.Object [("width", JS.VNumber (of_Z 1))])
                    initial_world eq_refl)).
Defined.

(* ===================================================================== *)
(** * Bitmaps the library creates for itself                              *)
(* ===================================================================== *)

Module CreatedBitmapFacts.
Import Platform Realm ImageRawWorker HistoryFacts BitmapReleaseFacts.
Local Open Scope js_scope.

Lemma release_shape_after (b : nat) (valid available : bool)
    (r : completion ImageRaw) (evs before : list event) :
  release_shape b valid available r evs ->
  Forall (not_close b) before ->
  release_shape b valid available r (evs ++ before).
Proof.
  intros [Hv Hr Hq | Hv Ha Hq | pre Hv Ha -> Hq] Hbefore.
  - apply invalid_dimensions; [done | done | by apply Forall_app].
  - apply no_canvas; [done | done | by apply Forall_app].
  - apply (closed_last _ _ _ _ _ (pre ++ before)); [done | done | done |].
    by apply Forall_app.
Qed.

Lemma createOptimizedImageBitmap_quiet (pf : platform) (b : nat) (src : source) :
  emits (not_close b) (createOptimizedImageBitmap pf src).
Proof. unfold createOptimizedImageBitmap. repeat emits_step. Qed.

(** The two-line idiom
    [const bitmap = await createOptimizedImageBitmap(src);
     return ImageRaw.fromImageBitmap(bitmap)],
    after a first part of the call that closed nothing. *)
Lemma created_bitmap_shape (pf : platform) (src : source) (w wd w1 : world)
    (before : list event) (bitmap : ImageBitmap) :
  history wd = before ++ history w ->
  Forall (not_close (bitmap_id bitmap)) before ->
  createOptimizedImageBitmap pf src wd = (Normal bitmap, w1) ->
  exists evs,
    history (snd (fromImageBitmap pf bitmap w1)) = evs ++ history w
    /\ release_shape (bitmap_id bitmap)
         (negb ((bitmap_width bitmap =? 0) || (bitmap_height bitmap =? 0)))
         (HAS_OFFSCREEN_CANVAS pf || HAS_DOCUMENT pf)
         (fst (fromImageBitmap pf bitmap w1)) evs.
Proof.
  intros Hwd Hbefore Hcreate.
  destruct (createOptimizedImageBitmap_quiet pf (bitmap_id bitmap) src wd)
    as (creating & Hcreating & Hquiet).
  rewrite Hcreate in Hcreating. cbn [snd] in Hcreating.
  destruct (worker_fromImageBitmap_shape pf bitmap w1) as (evs & Hh & Hshape).
  exists (evs ++ creating ++ before).
  rewrite Hh, Hcreating, Hwd, !app_assoc. split; [done|].
  rewrite <- app_assoc. apply release_shape_after; [done|]. by apply Forall_app.
Qed.

(** What the shape gives when the bitmap is valid and a canvas can be made. *)
Lemma created_bitmap_released {A} (c : M A) (pf : platform) (src : source)
    (w wd w1 : world) (before : list event) (bitmap : ImageBitmap) :
  history wd = before ++ history w ->
  Forall (not_close (bitmap_id bitmap)) before ->
  createOptimizedImageBitmap pf src wd = (Normal bitmap, w1) ->
  snd (c w) = snd (fromImageBitmap pf bitmap w1) ->
  bitmap_width bitmap <> 0 -> bitmap_height bitmap <> 0 ->
  HAS_OFFSCREEN_CANVAS pf || HAS_DOCUMENT pf = true ->
  closes (bitmap_id bitmap) (performed c w) = 1%nat
  /\ never_read_after_close (bitmap_id bitmap) (performed c w) = true.
Proof.
  intros Hwd Hbefore Hcreate Hsame Hw0 Hh0 Hav.
  destruct (created_bitmap_shape pf src w wd w1 before bitmap Hwd Hbefore Hcreate)
    as (evs & Hh & Hshape).
  apply release_shape_closes in Hshape as (Hc & Hn & _).
  apply Z.eqb_neq in Hw0, Hh0. rewrite Hw0, Hh0, Hav in Hc. cbn in Hc.
  rewrite <- Hsame in Hh. by rewrite (performed_app _ _ _ Hh).
Qed.

End CreatedBitmapFacts.

Import CreatedBitmapFacts.

(** X7: a bitmap the library creates for itself is released.  When [open]
    (from the fetched blob), [fromHTMLImageElement] (from an element that
    is loaded, or from one that is not and is loaded by awaiting [decode()]
    first) or [fromHTMLVideoElement] (from a ready video) of the
    worker-capable variant obtains a bitmap from [createImageBitmap], and
    that bitmap has non-zero dimensions and a canvas can be made, then
    close() is invoked on it exactly once during the call, as the last
    thing that happens to it, whatever else the platform answers. *)
Theorem created_bitmap_is_released_once
    (pf : platform) (ld : loader) (w w1 : world) (bitmap : ImageBitmap) :
  HAS_CREATE_IMAGE_BITMAP pf = true ->
  HAS_OFFSCREEN_CANVAS pf || HAS_DOCUMENT pf = true ->
  bitmap_width bitmap <> 0 -> bitmap_height bitmap <> 0 ->
  let once {A} (c : M A) :=
    closes (bitmap_id bitmap) (performed c w) = 1%nat
    /\ never_read_after_close (bitmap_id bitmap) (performed c w) = true in
  (forall url response blob,
     fetch ld (history w) url = Normal response ->
     response_blob ld (history w) response = Normal blob ->
     ImageRawWorker.createOptimizedImageBitmap pf (SrcBlob blob) w
     = (Normal bitmap, w1) ->
     once (ImageRawWorkerFactory.open pf ld url))
  /\ (forall img,
        IS_WORKER pf = false ->
        ImageRawWorker.not_loaded img = false ->
        ImageRawWorker.createOptimizedImageBitmap pf (SrcImage img) w
        = (Normal bitmap, w1) ->
        once (ImageRawWorker.fromHTMLImageElement pf img))
  /\ (forall img loaded,
        IS_WORKER pf = false ->
        ImageRawWorker.not_loaded img = true ->
        image_decode pf (history w) img = Normal loaded ->
        ImageRawWorker.createOptimizedImageBitmap pf (SrcImage loaded)
          (record (Decode (image_id img)) w)
        = (Normal bitmap, w1) ->
        once (ImageRawWorker.fromHTMLImageElement pf img))
  /\ (forall video,
        IS_WORKER pf = false ->
        2 <= readyState video ->
        ImageRawWorker.createOptimizedImageBitmap pf (SrcVideo video) w
        = (Normal bitmap, w1) ->
        once (ImageRawWorker.fromHTMLVideoElement pf video)).
Proof.
  intros Hcib Hav Hw0 Hh0 once. subst once. cbn beta.
  split; [|split; [|split]].
  - intros url response blob Hfetch Hblob Hcreate.
    apply (created_bitmap_released _ pf (SrcBlob blob) w w w1 [] bitmap); try done.
    unfold ImageRawWorkerFactory.open. rewrite Hcib.
    unfold bind at 1, ask at 1. rewrite Hfetch.
    unfold bind at 1, ask at 1. rewrite Hblob.
    unfold bind at 1. by rewrite Hcreate.
  - intros img Hmain Hloaded Hcreate.
    apply (created_bitmap_released _ pf (SrcImage img) w w w1 [] bitmap); try done.
    unfold ImageRawWorker.fromHTMLImageElement, ImageRawWorker.rasterize_image.
    rewrite Hmain, Hloaded, Hcib. unfold bind at 1, mret. unfold bind at 1.
    by rewrite Hcreate.
  - intros img loaded Hmain Hpending Hdecode Hcreate.
    apply (created_bitmap_released _ pf (SrcImage loaded) w
             (record (Decode (image_id img)) w) w1 [Decode (image_id img)] bitmap);
      try done.
    + by repeat constructor.
    + unfold ImageRawWorker.fromHTMLImageElement, ImageRawWorker.rasterize_image.
      rewrite Hmain, Hpending, Hcib.
      unfold bind at 1, ImageRawWorker.decode, call. rewrite Hdecode.
      unfold bind at 1. by rewrite Hcreate.
  - intros video Hmain Hready Hcreate.
    apply (created_bitmap_released _ pf (SrcVideo video) w w w1 [] bitmap); try done.
    unfold ImageRawWorker.fromHTMLVideoElement.
    rewrite Hmain, Hcib. destruct (Z.ltb_spec (readyState video) 2); [lia|].
    unfold bind at 1. by rewrite Hcreate.
Qed.

Lemma created_bitmap_is_released_once_witness :
  (closes 0 (performed (ImageRawWorker.fromHTMLImageElement
                          ImageRawWorker.fickle_platform pending_image)
               initial_world) = 1%nat
   /\ never_read_after_close 0
        (performed (ImageRawWorker.fromHTMLImageElement
                      ImageRawWorker.fickle_platform pending_image)
           initial_world) = true)
  /\ performed (ImageRawWorker.fromHTMLImageElement
                  ImageRawWorker.fickle_platform pending_image) initial_world
       !! 0%nat = Some (Decode 3).
Proof.
  split; [|reflexivity].
  destruct (created_bitmap_is_released_once ImageRawWorker.fickle_platform
              Fixtures.online_loader initial_world
              (snd (ImageRawWorker.createOptimizedImageBitmap
                      ImageRawWorker.fickle_platform
                      (SrcImage {| image_id := 3; complete := true;
                                   naturalWidth := 1; naturalHeight := 1 |})
                      (record (Decode 3) initial_world)))
              {| bitmap_id := 0; bitmap_width := 1; bitmap_height := 1 |}
              eq_refl eq_refl ltac:(discriminate) ltac:(discriminate))
    as (_ & _ & Hpending & _).
  exact (Hpending pending_image
           {| image_id := 3; complete := true; naturalWidth := 1; naturalHeight := 1 |}
           eq_refl eq_refl eq_refl eq_refl).
Defined.



(* ===================================================================== *)
(** * The context cache spares the platform                               *)
(* ===================================================================== *)

Module CacheSparesFacts.
Import Platform ImageRawWorker CacheVocabulary.
Local Open Scope js_scope.

Section Invariant.
Variable canvas : canvas.
Variable ctx : context.

Local Abbreviation I := (cached canvas ctx).
Local Abbreviation P := (not_asked canvas).

Lemma while_mret {A} (a : A) : emits_while I P (mret a).
Proof. intros w H. split; [done | by exists []]. Qed.

Lemma while_throw {A} (e : exn) : emits_while I P (@throw A e).
Proof. intros w H. split; [done | by exists []]. Qed.

Lemma while_pure {A} (f : world -> completion A) :
  emits_while I P (fun w => (f w, w)).
Proof. intros w H. split; [done | by exists []]. Qed.

Lemma while_call {A} (ev : event) (answer : list event -> completion A) :
  P ev -> emits_while I P (call ev answer).
Proof.
  intros HP w H. split; [done|]. exists [ev]. split; [done | by constructor].
Qed.

Lemma while_call_unit (ev : event) (answer : list event -> option exn) :
  P ev -> emits_while I P (call_unit ev answer).
Proof. apply while_call. Qed.

Lemma while_bind {A B} (c : M A) (k : A -> M B) :
  emits_while I P c -> (forall a, emits_while I P (k a)) ->
  emits_while I P (bind c k).
Proof.
  intros Hc Hk w H. unfold bind.
  destruct (Hc w H) as (HI & evs & Hh & HP).
  destruct (c w) as [[a|e] w']; cbn [snd] in *.
  - destruct (Hk a w' HI) as (HI' & evs' & Hh' & HP'). split; [done|].
    exists (evs' ++ evs). rewrite Hh', Hh, app_assoc.
    split; [done | by apply Forall_app].
  - split; [done | by exists evs].
Qed.

Lemma while_try_catch {A} (body : M A) (handler : exn -> M A) :
  emits_while I P body -> (forall e, emits_while I P (handler e)) ->
  emits_while I P (try_catch body handler).
Proof.
  intros Hb Hh w H. unfold try_catch.
  destruct (Hb w H) as (HI & evs & Hw & HP).
  destruct (body w) as [[a|e] w']; cbn [snd] in *.
  - split; [done | by exists evs].
  - destruct (Hh e w' HI) as (HI' & evs' & Hw' & HP'). split; [done|].
    exists (evs' ++ evs). rewrite Hw', Hw, app_assoc.
    split; [done | by apply Forall_app].
Qed.

Lemma while_try_finally {A} (body : M A) (finalizer : M unit) :
  emits_while I P body -> emits_while I P finalizer ->
  emits_while I P (try_finally body finalizer).
Proof.
  intros Hb Hf w H. unfold try_finally.
  destruct (Hb w H) as (HI & evs & Hw & HP).
  destruct (body w) as [r w']; cbn [snd] in *.
  destruct (Hf w' HI) as (HI' & evs' & Hw' & HP').
  destruct (finalizer w') as [[?|?] w'']; cbn [snd] in *;
    (split; [done|]); exists (evs' ++ evs); rewrite Hw', Hw, app_assoc;
    (split; [done | by apply Forall_app]).
Qed.

Lemma while_or_else_lazy (a : option number) (b : M number) :
  emits_while I P b -> emits_while I P (or_else_lazy a b).
Proof.
  intros Hb. unfold or_else_lazy. destruct a as [x|]; [|done].
  destruct (truthy x); [apply while_mret | done].
Qed.

Lemma while_new_canvas : emits_while I P new_canvas.
Proof.
  intros w H. split; [done|]. exists [NewCanvas (canvases w)].
  split; [done | by constructor].
Qed.

(** The heart of the matter: a call for the cached canvas is a hit and asks
    nothing; a call for another canvas may ask, but for that other one. *)
Lemma while_getContext2D (pf : platform) (c : Platform.canvas) :
  emits_while I P (getContext2D pf c).
Proof.
  intros w H. unfold getContext2D.
  destruct (contextCache w !! c) as [hit|] eqn:Hc.
  { split; [done | by exists []]. }
  assert (c <> canvas) as Hne by (intros ->; unfold cached in H; congruence).
  destruct (canvas_getContext pf (history w) c) as [fresh|]; cbn [snd].
  - split.
    + unfold cached. cbn. by rewrite lookup_insert_ne.
    + exists [GetContext c]. split; [done|]. constructor; [|done].
      unfold not_asked. congruence.
  - split; [done|]. exists [GetContext c]. split; [done|].
    constructor; [|done]. unfold not_asked. congruence.
Qed.

End Invariant.

End CacheSparesFacts.

Ltac while_step :=
  first
    [ apply CacheSparesFacts.while_bind; [|intros ?]
    | apply CacheSparesFacts.while_try_catch; [|intros ?]
    | apply CacheSparesFacts.while_try_finally
    | apply CacheSparesFacts.while_or_else_lazy
    | apply CacheSparesFacts.while_mret
    | apply CacheSparesFacts.while_throw
    | apply CacheSparesFacts.while_pure
    | apply CacheSparesFacts.while_new_canvas
    | apply CacheSparesFacts.while_getContext2D
    | apply CacheSparesFacts.while_call_unit; unfold CacheVocabulary.not_asked; congruence
    | apply CacheSparesFacts.while_call; unfold CacheVocabulary.not_asked; congruence
    | match goal with
      | |- CacheVocabulary.emits_while _ _ (if ?b then _ else _) => destruct b
      | |- CacheVocabulary.emits_while _ _ (match ?x with _ => _ end) => destruct x
      end ].

Module CacheSparesRequests.
Import Platform ImageRawWorker CacheVocabulary CacheSparesFacts.
Local Open Scope js_scope.

Section WithPlatform.
Variable pf : platform.
Variable canvas : canvas.
Variable ctx : context.

Lemma while_perform (r : request) (w : world) :
  cached canvas ctx w ->
  cached canvas ctx (perform pf r w)
  /\ exists evs, history (perform pf r w) = evs ++ history w
                 /\ Forall (not_asked canvas) evs.
Proof.
  intros H.
  assert (forall A (c : M A), emits_while (cached canvas ctx) (not_asked canvas) c ->
            cached canvas ctx (after c w)
            /\ exists evs, history (after c w) = evs ++ history w
                           /\ Forall (not_asked canvas) evs) as Huse.
  { intros A c Hc. exact (Hc w H). }
  destruct r; cbn [perform]; apply Huse;
    repeat first
      [ while_step
      | progress (unfold createCanvas, getImageData, canvasDrawImage,
                    canvasPutImageData, createOptimizedImageBitmap, new_ImageRaw,
                    fromImageBitmap, fromHTMLImageElement, fromHTMLVideoElement,
                    rasterize_image, decode, has_zero_dimension, read_bitmap_width,
                    read_bitmap_height, close_quietly, ctx_read, read_width,
                    read_height) ].
Qed.

Lemma while_perform_all (rs : list request) (w : world) :
  cached canvas ctx w ->
  cached canvas ctx (perform_all pf rs w)
  /\ exists evs, history (perform_all pf rs w) = evs ++ history w
                 /\ Forall (not_asked canvas) evs.
Proof.
  revert w. induction rs as [|r rs IH]; intros w H.
  - split; [done | by exists []].
  - change (perform_all pf (r :: rs) w) with (perform_all pf rs (perform pf r w)).
    destruct (while_perform r w H) as (H1 & evs1 & Hh1 & HP1).
    destruct (IH _ H1) as (H2 & evs2 & Hh2 & HP2). split; [done|].
    exists (evs2 ++ evs1). rewrite Hh2, Hh1, app_assoc.
    split; [done | by apply Forall_app].
Qed.

End WithPlatform.

End CacheSparesRequests.

Import CacheVocabulary CacheSparesRequests.

(** X9: the cache spares the platform.  Once [getContext2D] has returned a
    context for a canvas, no later call into the module, of any kind and in
    any number, asks the platform for that canvas's context again: the
    request [canvas.getContext('2d')] for it does not occur in the history
    after that point. *)
Theorem getContext2D_asks_platform_once
    (pf : platform) (canvas : canvas) (ctx : context) (w w1 : world)
    (later : list ImageRawWorker.request) :
  ImageRawWorker.getContext2D pf canvas w = (Normal (Some ctx), w1) ->
  exists evs,
    history (ImageRawWorker.perform_all pf later w1) = evs ++ history w1
    /\ Forall (not_asked canvas) evs.
Proof.
  intros Hfirst.
  assert (cached canvas ctx w1) as Hcached.
  { exact (ContextCacheFacts.getContext2D_caches pf canvas w w1 ctx Hfirst). }
  exact (proj2 (while_perform_all pf canvas ctx later w1 Hcached)).
Qed.

Lemma getContext2D_asks_platform_once_witness :
  let pf := ImageRawWorker.fickle_platform in
  let w1 := snd (ImageRawWorker.getContext2D pf 0%nat initial_world) in
  let later :=
    [ImageRawWorker.GetContext2D 0%nat; ImageRawWorker.GetImageDataReq 0%nat;
     ImageRawWorker.GetContext2D 1%nat;
     ImageRawWorker.CanvasPutImageData 0%nat
       {| id_data := []; id_width := of_Z 0; id_height := of_Z 0 |}] in
  exists evs,
    history (ImageRawWorker.perform_all pf later w1) = evs ++ history w1
    /\ Forall (not_asked 0%nat) evs.
Proof.
  intros pf w1 later.
  exact (getContext2D_asks_platform_once pf 0%nat 0%nat initial_world w1 later eq_refl).
Defined.

(* ===================================================================== *)
(** * drawBox                                                             *)
(* ===================================================================== *)

Module DrawBoxFacts.
Import Platform DrawBox.





End DrawBoxFacts.

Import Platform DrawBox DrawBoxFacts.


(* ===================================================================== *)
(** * The bodies of a schedule run in turn                                *)
(* ===================================================================== *)

Module OcrTraceFacts.
Import Ocr OcrFacts OcrTrace.

Lemma idle_not_running (s : session) (k : nat) (c : call) :
  idle s -> calls s !! k = Some c -> is_running c = true -> False.
Proof. intros Hidle Hk Hr. rewrite (Hidle k c Hk) in Hr. discriminate. Qed.

Lemma in_turn_from (schedule : list event) (s s' : session) :
  consistent s -> run schedule s = Some s' ->
  (idle s -> in_turn (length (started s)) false schedule = true)
  /\ (forall k c, calls s !! k = Some c -> is_running c = true ->
        in_turn k true schedule = true).
Proof.
  revert s. induction schedule as [|ev rest IH]; intros s Hs Hrun; [done|].
  cbn [run] in Hrun. destruct (step ev s) as [s1|] eqn:Hstep; [|done].
  pose proof (step_consistent ev s s1 Hs Hstep) as Hs1.
  destruct (IH s1 Hs1 Hrun) as [IHidle IHrun].
  destruct ev as [|j|j o]; cbn [step] in Hstep; cbn [in_turn].
  - (* a call is made: it waits, nothing else changes *)
    injection Hstep as <-. cbn [calls started] in *. split.
    + intros Hidle. apply IHidle. intros k c Hk.
      apply lookup_app_Some in Hk as [Hk|[_ Hk]]; [by eapply Hidle|].
      apply list_lookup_singleton_Some in Hk as [_ <-]. done.
    + intros k c Hk Hr. apply (IHrun k c); [|done]. by apply lookup_app_l_Some.
  - (* a body starts *)
    destruct (calls s !! j) as [cj|] eqn:Hj; [|done].
    destruct (is_waiting cj) eqn:Hw; [|done].
    destruct (default false (promises s !! currentMutex cj)) eqn:Hp; [|done].
    destruct (resume_is_next s j cj Hs Hj Hw Hp) as [Hnext Hbefore].
    injection Hstep as <-. cbn [calls started] in *.
    assert (in_turn j true rest = true) as Hrest.
    { apply (IHrun j (set_progress Running cj)); [|done].
      apply list_lookup_insert_eq. by eapply lookup_lt_Some. }
    split.
    + intros _. rewrite <- Hnext, Nat.eqb_refl. exact Hrest.
    + intros k c Hk Hr. exfalso.
      pose proof (running_is_last s k c Hs Hk Hr) as Hlast.
      assert (is_settled c = true) as Hset by (apply (Hbefore k c Hk); lia).
      apply is_settled_running in Hr. congruence.
  - (* a body ends *)
    destruct (calls s !! j) as [cj|] eqn:Hj; [|done].
    destruct (is_running cj) eqn:Hr; [|done].
    pose proof (running_is_last s j cj Hs Hj Hr) as Hlast.
    injection Hstep as <-. cbn [calls started] in *.
    split.
    + intros Hidle. exfalso. by eapply idle_not_running.
    + intros k c Hk Hrk.
      pose proof (running_is_last s k c Hs Hk Hrk) as Hlast'.
      assert (k = j) as -> by lia. rewrite Nat.eqb_refl. cbn [andb].
      rewrite Hlast. apply IHidle. intros i ci Hi. cbn [calls] in Hi.
      destruct (decide (i = j)) as [->|Hne].
      * rewrite list_lookup_insert_eq in Hi by (by eapply lookup_lt_Some).
        by injection Hi as <-.
      * rewrite list_lookup_insert_ne in Hi by done.
        destruct (is_running ci) eqn:Hri; [|done].
        pose proof (running_is_last s i ci Hs Hi Hri). lia.
Qed.

End OcrTraceFacts.

Import Ocr OcrFacts OcrTrace OcrTraceFacts.

(** X11: in every schedule a session accepts, the bodies run in turn.
    Reading the schedule from the start, the steps that begin or end a
    [#detectInternal] body are [Resume 0], [Settle 0], [Resume 1],
    [Settle 1], ... in exactly this order, whatever calls are made in
    between: the execution interval of call [k] is closed before that of
    call [k + 1] opens, so calls also complete in the order they were
    made. *)
Theorem detect_bodies_run_in_turn (schedule : list event) (s : session) :
  run schedule create = Some s ->
  in_turn 0 false schedule = true.
Proof.
  intros Hrun.
  destruct (in_turn_from schedule create s create_consistent Hrun) as [Hidle _].
  apply Hidle. intros k c Hk. done.
Qed.

Lemma detect_bodies_run_in_turn_witness :
  in_turn 0 false failing_then_succeeding = true.
Proof.
  exact (detect_bodies_run_in_turn failing_then_succeeding _ eq_refl).
Defined.

(* ===================================================================== *)
(** * What a successful conversion returns                                *)
(* ===================================================================== *)

Module ResultFacts.
Import Platform Realm Results.
Local Open Scope js_scope.

Lemma ensures_mret {A} (Q : A -> Prop) (a : A) : Q a -> ensures Q (mret a).
Proof. intros HQ w a' w' [= <- _]. done. Qed.

Lemma ensures_throw {A} (Q : A -> Prop) (e : exn) : ensures Q (@throw A e).
Proof. intros w a w' [=]. Qed.

Lemma ensures_bind {A B} (P : A -> Prop) (Q : B -> Prop) (c : M A) (k : A -> M B) :
  ensures P c -> (forall a, P a -> ensures Q (k a)) -> ensures Q (bind c k).
Proof.
  intros Hc Hk w b w' Hrun. unfold bind in Hrun.
  destruct (c w) as [[a|e] w1] eqn:Hcw; [|done].
  exact (Hk a (Hc w a w1 Hcw) w1 b w' Hrun).
Qed.

Lemma ensures_any {A} (c : M A) : ensures (fun _ => True) c.
Proof. by intros w a w' _. Qed.

Lemma ensures_then {A B} (Q : B -> Prop) (c : M A) (k : A -> M B) :
  (forall a, ensures Q (k a)) -> ensures Q (bind c k).
Proof. intros Hk. apply (ensures_bind (fun _ => True)); [apply ensures_any | auto]. Qed.

Lemma ensures_try_finally {A} (Q : A -> Prop) (body : M A) (finalizer : M unit) :
  ensures Q body -> ensures Q (try_finally body finalizer).
Proof.
  intros Hb w a w' Hrun. unfold try_finally in Hrun.
  destruct (body w) as [r w1] eqn:Hbody.
  destruct (finalizer w1) as [[?|?] w2]; [|done].
  injection Hrun as -> _. by eapply Hb.
Qed.

Lemma ensures_call {A} (ev : event) (answer : list event -> completion A) :
  ensures (fun a => exists h, answer h = Normal a) (call ev answer).
Proof. intros w a w' [= Ha _]. eauto. Qed.

Section WithPlatform.
Variable pf : platform.

Lemma worker_new_ImageRaw_holds (d : ImageRawData) :
  ensures (holds d) (ImageRawWorker.new_ImageRaw pf d).
Proof.
  unfold ImageRawWorker.new_ImageRaw.
  apply ensures_then. intros canvas. apply ensures_then. intros imageData.
  apply ensures_then. intros _. by apply ensures_mret.
Qed.

Lemma document_new_ImageRaw_holds (d : ImageRawData) :
  ensures (holds d) (ImageRawDocument.new_ImageRaw pf d).
Proof.
  unfold ImageRawDocument.new_ImageRaw.
  apply ensures_then. intros canvas. apply ensures_then. intros imageData.
  apply ensures_then. intros _. by apply ensures_mret.
Qed.

(** Reading the context and wrapping what was read. *)
Lemma worker_read_then_new (ctx : context) :
  ensures (read_back pf)
    (let* imageData := ImageRawWorker.ctx_read pf ctx in
     ImageRawWorker.new_ImageRaw pf
       {| data := id_data imageData; width := id_width imageData;
          height := id_height imageData |}).
Proof.
  eapply ensures_bind; [apply ensures_call|].
  intros imageData [h Hh] w r w' Hrun.
  exists h, ctx, imageData. split; [done|].
  by eapply worker_new_ImageRaw_holds.
Qed.

Lemma document_read_then_new (ctx : context) :
  ensures (read_back pf)
    (let* imageData := ImageRawDocument.ctx_read pf ctx in
     ImageRawDocument.new_ImageRaw pf
       {| data := id_data imageData; width := id_width imageData;
          height := id_height imageData |}).
Proof.
  eapply ensures_bind; [apply ensures_call|].
  intros imageData [h Hh] w r w' Hrun.
  exists h, ctx, imageData. split; [done|].
  by eapply document_new_ImageRaw_holds.
Qed.

Lemma worker_getImageData_then_new (canvas : canvas) :
  ensures (read_back pf)
    (let* imageData := ImageRawWorker.getImageData pf canvas in
     ImageRawWorker.new_ImageRaw pf
       {| data := id_data imageData; width := id_width imageData;
          height := id_height imageData |}).
Proof.
  unfold ImageRawWorker.getImageData.
  intros w r w' Hrun. unfold bind at 1 2 in Hrun.
  destruct (ImageRawWorker.getContext2D pf canvas w) as [[[ctx|]|e] w1]; [| done | done].
  exact (worker_read_then_new ctx w1 r w' Hrun).
Qed.

Lemma document_canvasGetImageData_then_new (canvas : canvas) :
  ensures (read_back pf)
    (let* imageData := ImageRawDocument.canvasGetImageData pf canvas in
     ImageRawDocument.new_ImageRaw pf
       {| data := id_data imageData; width := id_width imageData;
          height := id_height imageData |}).
Proof.
  unfold ImageRawDocument.canvasGetImageData, ImageRawDocument.getContext_nonnull.
  intros w r w' Hrun. unfold bind at 1 2 3 in Hrun.
  destruct (ImageRawDocument.getContext pf canvas w) as [[[ctx|]|e] w1]; [| done | done].
  exact (document_read_then_new ctx w1 r w' Hrun).
Qed.

Lemma worker_fromImageBitmap_read_back (bitmap : ImageBitmap) :
  ensures (read_back pf) (ImageRawWorker.fromImageBitmap pf bitmap).
Proof.
  unfold ImageRawWorker.fromImageBitmap.
  apply ensures_then. intros [|]; [apply ensures_throw|].
  do 3 (apply ensures_then; intros ?). apply ensures_then. intros [ctx|].
  - apply ensures_try_finally, ensures_then. intros _. apply worker_read_then_new.
  - apply ensures_then. intros _. apply ensures_throw.
Qed.

Lemma document_fromImageBitmap_read_back (bitmap : ImageBitmap) :
  ensures (read_back pf) (ImageRawDocument.fromImageBitmap pf bitmap).
Proof.
  unfold ImageRawDocument.fromImageBitmap.
  apply ensures_then. intros [|]; [apply ensures_throw|].
  do 5 (apply ensures_then; intros ?). apply ensures_then. intros [ctx|].
  - apply ensures_try_finally, ensures_then. intros _. apply document_read_then_new.
  - apply ensures_then. intros _. apply ensures_throw.
Qed.

Lemma worker_rasterize_image_read_back (img : HTMLImageElement) :
  ensures (read_back pf) (ImageRawWorker.rasterize_image pf img).
Proof.
  unfold ImageRawWorker.rasterize_image. destruct (HAS_CREATE_IMAGE_BITMAP pf).
  - apply ensures_then. intros bitmap. apply worker_fromImageBitmap_read_back.
  - apply ensures_then. intros canvas. apply ensures_then. intros _.
    apply worker_getImageData_then_new.
Qed.

Lemma worker_fromHTMLImageElement_read_back (img : HTMLImageElement) :
  ensures (read_back pf) (ImageRawWorker.fromHTMLImageElement pf img).
Proof.
  unfold ImageRawWorker.fromHTMLImageElement.
  destruct (IS_WORKER pf); [apply ensures_throw|].
  apply ensures_then. intros loaded. apply worker_rasterize_image_read_back.
Qed.

Lemma document_fromHTMLImageElement_read_back (img : HTMLImageElement) :
  ensures (read_back pf) (ImageRawDocument.fromHTMLImageElement pf img).
Proof.
  unfold ImageRawDocument.fromHTMLImageElement, ImageRawDocument.rasterize_image.
  apply ensures_then. intros loaded. apply ensures_then. intros canvas.
  apply ensures_then. intros _. apply document_canvasGetImageData_then_new.
Qed.

Lemma worker_fromHTMLVideoElement_read_back (video : HTMLVideoElement) :
  ensures (read_back pf) (ImageRawWorker.fromHTMLVideoElement pf video).
Proof.
  unfold ImageRawWorker.fromHTMLVideoElement.
  destruct (IS_WORKER pf); [apply ensures_throw|].
  destruct (readyState video <? 2); [apply ensures_throw|].
  destruct (HAS_CREATE_IMAGE_BITMAP pf).
  - apply ensures_then. intros bitmap. apply worker_fromImageBitmap_read_back.
  - apply ensures_then. intros canvas. apply ensures_then. intros [ctx|].
    + apply ensures_then. intros _. apply worker_read_then_new.
    + apply ensures_throw.
Qed.

Lemma document_fromHTMLVideoElement_read_back (video : HTMLVideoElement) :
  ensures (read_back pf) (ImageRawDocument.fromHTMLVideoElement pf video).
Proof.
  unfold ImageRawDocument.fromHTMLVideoElement.
  destruct (readyState video <? 2); [apply ensures_throw|].
  do 3 (apply ensures_then; intros ?). apply ensures_then. intros [ctx|].
  - apply ensures_then. intros _. apply document_read_then_new.
  - apply ensures_throw.
Qed.

Lemma worker_fromOffscreenCanvas_read_back (canvas : canvas) :
  ensures (read_back pf) (ImageRawWorkerFactory.fromOffscreenCanvas pf canvas).
Proof. apply worker_getImageData_then_new. Qed.

Lemma worker_fromHTMLCanvasElement_read_back (canvas : canvas) :
  ensures (read_back pf) (ImageRawWorkerFactory.fromHTMLCanvasElement pf canvas).
Proof.
  unfold ImageRawWorkerFactory.fromHTMLCanvasElement.
  destruct (IS_WORKER pf); [apply ensures_throw | apply worker_getImageData_then_new].
Qed.

Lemma document_fromHTMLCanvasElement_read_back (canvas : canvas) :
  ensures (read_back pf) (ImageRawDocumentFactory.fromHTMLCanvasElement pf canvas).
Proof. apply document_canvasGetImageData_then_new. Qed.

Lemma worker_open_read_back (ld : loader) (url : string) :
  ensures (read_back pf) (ImageRawWorkerFactory.open pf ld url).
Proof.
  unfold ImageRawWorkerFactory.open. destruct (HAS_CREATE_IMAGE_BITMAP pf).
  - do 3 (apply ensures_then; intros ?). apply worker_fromImageBitmap_read_back.
  - destruct (negb (IS_WORKER pf) && HAS_IMAGE pf); [|apply ensures_throw].
    do 3 (apply ensures_then; intros ?).
    apply worker_getImageData_then_new.
Qed.

Lemma document_open_read_back (ld : loader) (url : string) :
  ensures (read_back pf) (ImageRawDocumentFactory.open pf ld url).
Proof.
  unfold ImageRawDocumentFactory.open.
  do 3 (apply ensures_then; intros ?).
  apply document_canvasGetImageData_then_new.
Qed.

End WithPlatform.

End ResultFacts.

Import Platform Realm Results ResultFacts.

(** X12: a conversion never invents pixel data.  When [from] returns, in
    either variant of the class and for any input, the instance holds
    either exactly the bytes, width and height that a call of
    [ctx.getImageData] returned, or, for an input accepted as a pixel
    buffer, exactly those of that buffer. *)
Theorem from_returns_what_was_read
    (pf : platform) (rl : realm) (ld : loader) (input : JS.value)
    (w w' : world) (r : ImageRaw) :
  ImageRawWorkerFactory.from pf rl ld input w = (Normal r, w')
  \/ ImageRawDocumentFactory.from pf rl ld input w = (Normal r, w') ->
  read_back pf r
  \/ (ImageRaw.isImageRawData input = true /\ holds (as_raw rl input) r).
Proof.
  intros [Hrun|Hrun].
  - unfold ImageRawWorkerFactory.from in Hrun.
    assert (forall c : M ImageRaw, ensures (read_back pf) c ->
              c w = (Normal r, w') -> read_back pf r) as Huse.
    { intros c Hc Hcw. exact (Hc w r w' Hcw). }
    destruct input as [| | | |url| |cls props];
      try (left; exact (Huse _ (worker_open_read_back pf ld url) Hrun));
      repeat match type of Hrun with
        | (if ?b then _ else _) _ = _ => destruct b eqn:?
        end;
      try discriminate;
      first
        [ left; exact (Huse _ (worker_fromImageBitmap_read_back pf _) Hrun)
        | left; exact (Huse _ (worker_fromOffscreenCanvas_read_back pf _) Hrun)
        | left; exact (Huse _ (worker_fromHTMLCanvasElement_read_back pf _) Hrun)
        | left; exact (Huse _ (worker_fromHTMLImageElement_read_back pf _) Hrun)
        | left; exact (Huse _ (worker_fromHTMLVideoElement_read_back pf _) Hrun)
        | right; split; [done|];
          exact (worker_new_ImageRaw_holds pf _ w r w' Hrun) ].
  - unfold ImageRawDocumentFactory.from in Hrun.
    assert (forall c : M ImageRaw, ensures (read_back pf) c ->
              c w = (Normal r, w') -> read_back pf r) as Huse.
    { intros c Hc Hcw. exact (Hc w r w' Hcw). }
    destruct input as [| | | |url| |cls props];
      try (left; exact (Huse _ (document_open_read_back pf ld url) Hrun));
      repeat match type of Hrun with
        | (if ?b then _ else _) _ = _ => destruct b eqn:?
        end;
      try discriminate;
      first
        [ left; exact (Huse _ (document_fromImageBitmap_read_back pf _) Hrun)
        | left; exact (Huse _ (document_fromHTMLCanvasElement_read_back pf _) Hrun)
        | left; exact (Huse _ (document_fromHTMLImageElement_read_back pf _) Hrun)
        | left; exact (Huse _ (document_fromHTMLVideoElement_read_back pf _) Hrun)
        | right; split; [done|];
          exact (document_new_ImageRaw_holds pf _ w r w' Hrun) ].
Qed.

Lemma from_returns_what_was_read_witness :
  let r :=
    {| this_data := [x00; x00; x00; xff];
       this_width := of_Z 1;
       this_height := of_Z 1;
       this_canvas := 1%nat;
       this_imageData :=
         {| id_data := [x00; x00; x00; xff];
            id_width := of_Z 1; id_height := of_Z 1 |} |} in
  fst (ImageRawWorkerFactory.from ImageRawWorker.fickle_platform Fixtures.full_realm
         Fixtures.online_loader (JS.VString "image.png") initial_world) = Normal r
  /\ (read_back ImageRawWorker.fickle_platform r
      \/ (ImageRaw.isImageRawData (JS.VString "image.png") = true
          /\ holds (as_raw Fixtures.full_realm (JS.VString "image.png")) r)).
Proof.
  intros r.
  assert (fst (ImageRawWorkerFactory.from ImageRawWorker.fickle_platform
                 Fixtures.full_realm Fixtures.online_loader
                 (JS.VString "image.png") initial_world) = Normal r) as Hfst
    by (vm_compute; reflexivity).
  split; [exact Hfst|].
  apply (from_returns_what_was_read ImageRawWorker.fickle_platform Fixtures.full_realm
           Fixtures.online_loader (JS.VString "image.png") initial_world
           (snd (ImageRawWorkerFactory.from ImageRawWorker.fickle_platform
                   Fixtures.full_realm Fixtures.online_loader
                   (JS.VString "image.png") initial_world)) r).
  left. apply injective_projections; [exact Hfst | reflexivity].
Defined.

(* ===================================================================== *)
(** * resize: the call as a whole                                         *)
(* ===================================================================== *)

Module ResizeRunFacts.
Import Platform CanvasSize.
Local Open Scope js_scope.

Lemma bind_inv {A B} (c : M A) (k : A -> M B) (w w' : world) (b : B) :
  bind c k w = (Normal b, w') ->
  exists a w1, c w = (Normal a, w1) /\ k a w1 = (Normal b, w').
Proof.
  unfold bind. destruct (c w) as [[a|e] w1]; [eauto | discriminate].
Qed.

Lemma call_unit_inv (ev : event) (answer : list event -> option exn) (w w' : world) (u : unit) :
  call_unit ev answer w = (Normal u, w') ->
  answer (history w) = None /\ w' = record ev w.
Proof.
  unfold call_unit, call. destruct (answer (history w)); intros H; by simplify_eq.
Qed.

Section WithPlatform.
Variable pf : platform.

(** ** The worker-capable helpers *)

Lemma worker_createCanvas_inv (x y : number) (w w1 : world) (c : canvas) :
  ImageRawWorker.createCanvas pf x y w = (Normal c, w1) ->
  c = canvases w
  /\ contextCache w1 = contextCache w
  /\ canvases w1 = S (canvases w)
  /\ exists created,
       history w1 = created ++ history w
       /\ (created = [NewCanvas c]
           \/ created = [SetHeight c y; SetWidth c x; NewCanvas c]).
Proof.
  unfold ImageRawWorker.createCanvas.
  destruct (HAS_OFFSCREEN_CANVAS pf); [|destruct (HAS_DOCUMENT pf)].
  - unfold ImageRawWorker.new_canvas. intros H. simplify_eq. cbn.
    repeat split. exists [NewCanvas (canvases w)]. eauto.
  - unfold ImageRawWorker.new_canvas, bind, call_unit, call, mret, record. cbn.
    intros H. simplify_eq. cbn. repeat split.
    exists [SetHeight (canvases w) y; SetWidth (canvases w) x; NewCanvas (canvases w)].
    eauto.
  - discriminate.
Qed.

Lemma worker_getContext2D_miss (c : canvas) (w : world) :
  contextCache w !! c = None ->
  ImageRawWorker.getContext2D pf c w
  = match canvas_getContext pf (history w) c with
    | Some ctx =>
        (Normal (Some ctx),
         {| contextCache := <[c := ctx]> (contextCache w);
            canvases := canvases w;
            history := GetContext c :: history w |})
    | None => (Normal None, record (GetContext c) w)
    end.
Proof.
  intros H. unfold ImageRawWorker.getContext2D. rewrite H.
  by destruct (canvas_getContext pf (history w) c).
Qed.

Lemma worker_canvasDrawImage_inv (c : canvas) (image : source) (nw nh : number)
    (w w1 : world) (u : unit) :
  ImageRawWorker.canvasDrawImage pf c image (Some nw) (Some nh) w = (Normal u, w1) ->
  let fw := drawn_width pf (history w) image nw in
  let fh := drawn_height pf (SetWidth c fw :: history w) image nh in
  let sized := SetHeight c fh :: SetWidth c fw :: history w in
  exists ctx asked,
    (asked = [] /\ contextCache w !! c = Some ctx
     \/ asked = [GetContext c] /\ contextCache w !! c = None
        /\ canvas_getContext pf sized c = Some ctx)
    /\ w1 = {| contextCache := <[c := ctx]> (contextCache w);
               canvases := canvases w;
               history := DrawImage ctx image :: asked ++ sized |}.
Proof.
  intros Hrun fw fh sized.
  unfold ImageRawWorker.canvasDrawImage in Hrun.
  apply bind_inv in Hrun as (x & wa & Hx & Hrun).
  assert (x = fw /\ wa = w) as [-> ->].
  { unfold or_else_lazy, read_width, mret in Hx. unfold fw, drawn_width.
    destruct (truthy nw); by simplify_eq. }
  apply bind_inv in Hrun as ([] & wb & Hb & Hrun).
  apply call_unit_inv in Hb as [_ ->].
  apply bind_inv in Hrun as (y & wc & Hy & Hrun).
  assert (y = fh /\ wc = record (SetWidth c fw) w) as [-> ->].
  { unfold or_else_lazy, read_height, mret in Hy. unfold fh, drawn_height.
    destruct (truthy nh); by simplify_eq. }
  apply bind_inv in Hrun as ([] & wd & Hd & Hrun).
  apply call_unit_inv in Hd as [_ ->].
  apply bind_inv in Hrun as (octx & we & He & Hrun).
  destruct (contextCache w !! c) as [cached|] eqn:Hcache.
  - rewrite (ContextCacheFacts.getContext2D_hit pf c _ cached) in He by exact Hcache.
    simplify_eq. apply call_unit_inv in Hrun as [_ ->].
    exists cached, []. split; [by left|].
    unfold record. cbn. by rewrite insert_id.
  - rewrite worker_getContext2D_miss in He by exact Hcache.
    cbn [record history contextCache canvases] in He. fold sized in He.
    destruct (canvas_getContext pf sized c) as [ctx|]; simplify_eq; try discriminate.
    exists ctx, [GetContext c]. split; [by right|].
    apply call_unit_inv in Hrun as [_ ->]. reflexivity.
Qed.

Lemma worker_getImageData_hit (c : canvas) (ctx : context) (w : world) :
  contextCache w !! c = Some ctx ->
  ImageRawWorker.getImageData pf c w
  = (ctx_getImageData pf (history w) ctx, record (GetImageData ctx) w).
Proof.
  intros Hhit. unfold ImageRawWorker.getImageData, bind.
  rewrite (ContextCacheFacts.getContext2D_hit pf c w ctx Hhit). reflexivity.
Qed.

Lemma worker_canvasPutImageData_inv (c : canvas) (d : ImageData) (w w1 : world) (u : unit) :
  ImageRawWorker.canvasPutImageData pf c d w = (Normal u, w1) ->
  canvases w1 = canvases w
  /\ (forall k, k <> c -> contextCache w1 !! k = contextCache w !! k)
  /\ (forall k x, contextCache w !! k = Some x -> contextCache w1 !! k = Some x)
  /\ exists tail,
       history w1
       = tail ++ SetHeight c (id_height d) :: SetWidth c (id_width d) :: history w
       /\ Forall leaves_image tail.
Proof.
  intros Hrun.
  pose proof (ContextCacheFacts.keeps_canvasPutImageData pf c d w) as Hkeeps.
  rewrite Hrun in Hkeeps. cbn [snd] in Hkeeps.
  unfold ImageRawWorker.canvasPutImageData in Hrun.
  apply bind_inv in Hrun as ([] & wa & Ha & Hrun). apply call_unit_inv in Ha as [_ ->].
  apply bind_inv in Hrun as ([] & wb & Hb & Hrun). apply call_unit_inv in Hb as [_ ->].
  apply bind_inv in Hrun as (octx & wc & Hc & Hrun).
  unfold ImageRawWorker.getContext2D in Hc. cbn [record history contextCache canvases] in Hc.
  destruct (contextCache w !! c) as [cached|] eqn:Hcache.
  - simplify_eq. apply call_unit_inv in Hrun as [_ ->]. cbn.
    split; [reflexivity|]. split; [done|]. split; [exact Hkeeps|].
    eexists [_]. split; [reflexivity|]. by repeat constructor.
  - destruct (canvas_getContext pf _ c) as [ctx|]; simplify_eq; try discriminate.
    apply call_unit_inv in Hrun as [_ ->]. cbn.
    split; [reflexivity|]. split; [|split; [exact Hkeeps|]].
    + intros k Hk. by rewrite lookup_insert_ne.
    + eexists [_; _]. split; [reflexivity|]. by repeat constructor.
Qed.

(** ** The document-only helpers *)

Lemma document_canvasDrawImage_inv (c : canvas) (image : source) (nw nh : number)
    (w w1 : world) (u : unit) :
  ImageRawDocument.canvasDrawImage pf c image (Some nw) (Some nh) w = (Normal u, w1) ->
  let fw := drawn_width pf (history w) image nw in
  let fh := drawn_height pf (SetWidth c fw :: history w) image nh in
  let sized := SetHeight c fh :: SetWidth c fw :: history w in
  exists ctx,
    canvas_getContext pf sized c = Some ctx
    /\ w1 = {| contextCache := contextCache w;
               canvases := canvases w;
               history := DrawImage ctx image :: GetContext c :: sized |}.
Proof.
  intros Hrun fw fh sized.
  unfold ImageRawDocument.canvasDrawImage in Hrun.
  apply bind_inv in Hrun as (x & wa & Hx & Hrun).
  assert (x = fw /\ wa = w) as [-> ->].
  { unfold or_else_lazy, read_width, mret in Hx. unfold fw, drawn_width.
    destruct (truthy nw); by simplify_eq. }
  apply bind_inv in Hrun as ([] & wb & Hb & Hrun).
  apply call_unit_inv in Hb as [_ ->].
  apply bind_inv in Hrun as (y & wc & Hy & Hrun).
  assert (y = fh /\ wc = record (SetWidth c fw) w) as [-> ->].
  { unfold or_else_lazy, read_height, mret in Hy. unfold fh, drawn_height.
    destruct (truthy nh); by simplify_eq. }
  apply bind_inv in Hrun as ([] & wd & Hd & Hrun).
  apply call_unit_inv in Hd as [_ ->].
  apply bind_inv in Hrun as (ctx & we & He & Hrun).
  unfold ImageRawDocument.getContext_nonnull, ImageRawDocument.getContext, bind in He.
  cbn [record history contextCache canvases] in He. fold sized in He.
  destruct (canvas_getContext pf sized c) as [ctx'|]; [|discriminate].
  unfold mret in He. simplify_eq.
  exists ctx. split; [done|].
  apply call_unit_inv in Hrun as [_ ->]. reflexivity.
Qed.

Lemma document_canvasGetImageData_inv (c : canvas) (w w1 : world) (d : ImageData) :
  ImageRawDocument.canvasGetImageData pf c w = (Normal d, w1) ->
  exists ctx,
    canvas_getContext pf (history w) c = Some ctx
    /\ ctx_getImageData pf (GetContext c :: history w) ctx = Normal d
    /\ w1 = {| contextCache := contextCache w;
               canvases := canvases w;
               history := GetImageData ctx :: GetContext c :: history w |}.
Proof.
  intros Hrun. unfold ImageRawDocument.canvasGetImageData in Hrun.
  apply bind_inv in Hrun as (ctx & wa & Ha & Hrun).
  unfold ImageRawDocument.getContext_nonnull, ImageRawDocument.getContext, bind in Ha.
  destruct (canvas_getContext pf (history w) c) as [ctx'|]; [|discriminate].
  unfold mret in Ha. simplify_eq.
  exists ctx. split; [done|].
  unfold ImageRawDocument.ctx_read, call in Hrun. by simplify_eq.
Qed.

Lemma document_canvasPutImageData_inv (c : canvas) (d : ImageData) (w w1 : world) (u : unit) :
  ImageRawDocument.canvasPutImageData pf c d w = (Normal u, w1) ->
  canvases w1 = canvases w
  /\ contextCache w1 = contextCache w
  /\ exists tail,
       history w1
       = tail ++ SetHeight c (id_height d) :: SetWidth c (id_width d)
              :: GetContext c :: history w
       /\ Forall leaves_image tail.
Proof.
  intros Hrun. unfold ImageRawDocument.canvasPutImageData in Hrun.
  apply bind_inv in Hrun as (octx & wa & Ha & Hrun).
  unfold ImageRawDocument.getContext in Ha. simplify_eq.
  apply bind_inv in Hrun as ([] & wb & Hb & Hrun). apply call_unit_inv in Hb as [_ ->].
  apply bind_inv in Hrun as ([] & wc & Hc & Hrun). apply call_unit_inv in Hc as [_ ->].
  destruct (canvas_getContext pf (history w) c) as [ctx|]; try discriminate.
  apply call_unit_inv in Hrun as [_ ->]. cbn.
  split; [reflexivity|]. split; [reflexivity|].
  eexists [_]. split; [reflexivity|]. by repeat constructor.
Qed.


(** ** resize, when it returns *)

Variable production : bool.

Lemma worker_resize_inv (this : ImageRaw) (size : ImageRaw.SizeOption)
    (w0 w' : world) (r : ImageRaw) :
  ImageRawWorkerResize.resize pf production this size w0 = (Normal r, w') ->
  let c := canvases w0 in
  let tc := this_canvas this in
  exists nw nh created ctx asked d,
    let h1 := created ++ history w0 in
    let fw := drawn_width pf h1 (SrcCanvas tc) nw in
    let fh := drawn_height pf (SetWidth c fw :: h1) (SrcCanvas tc) nh in
    let sized := SetHeight c fh :: SetWidth c fw :: h1 in
    let drawn := DrawImage ctx (SrcCanvas tc) :: asked ++ sized in
    ImageRaw.resize (this_width this) (this_height this) size = Some (nw, nh)
    /\ (created = [NewCanvas c]
        \/ created = [SetHeight c nh; SetWidth c nw; NewCanvas c])
    /\ (asked = [] /\ contextCache w0 !! c = Some ctx
        \/ asked = [GetContext c] /\ contextCache w0 !! c = None
           /\ canvas_getContext pf sized c = Some ctx)
    /\ ctx_getImageData pf drawn ctx = Normal d
    /\ r = applied this d
    /\ canvases w' = S c
    /\ contextCache w' !! c = Some ctx
    /\ (forall k, k <> c -> k <> tc -> contextCache w' !! k = contextCache w0 !! k)
    /\ exists tail,
         history w'
         = tail ++ SetHeight tc (id_height d) :: SetWidth tc (id_width d)
                :: GetImageData ctx :: drawn
         /\ Forall leaves_image tail.
Proof.
  intros Hrun c tc. unfold ImageRawWorkerResize.resize in Hrun.
  destruct (ImageRaw.resize _ _ size) as [[nw nh]|] eqn:Hsize; [|discriminate].
  apply bind_inv in Hrun as (c' & w1 & Hcanvas & Hrun).
  apply worker_createCanvas_inv in Hcanvas
    as (-> & Hcache1 & Hcount1 & created & Hh1 & Hcreated).
  fold c in Hrun, Hcreated, Hh1.
  apply bind_inv in Hrun as ([] & w2 & Hdraw & Hrun).
  apply worker_canvasDrawImage_inv in Hdraw as (ctx & asked & Hasked & ->).
  apply bind_inv in Hrun as (d & w3 & Hread & Hrun).
  rewrite (worker_getImageData_hit c ctx) in Hread
    by (cbn; by rewrite lookup_insert_eq).
  cbn [record history contextCache canvases] in Hread. simplify_eq.
  unfold ImageRawWorkerResize.apply_ImageData in Hrun.
  apply bind_inv in Hrun as ([] & w4 & Hput & Hrun).
  unfold mret in Hrun. simplify_eq.
  apply worker_canvasPutImageData_inv in Hput
    as (Hcount4 & Hcache4 & Hkeeps & tail & Hh4 & Htail).
  cbn [record history contextCache canvases] in Hcount4, Hcache4, Hkeeps, Hh4.
  rewrite Hh1, Hcache1 in *.
  exists nw, nh, created, ctx, asked, d.
  split; [done|]. split; [done|]. split; [done|]. split; [done|].
  split; [done|]. split; [by rewrite Hcount4, Hcount1|].
  split; [|split].
  - apply Hkeeps. by rewrite lookup_insert_eq.
  - intros k Hkc Hkt. rewrite Hcache4 by done. by rewrite lookup_insert_ne.
  - exists tail. split; [exact Hh4 | exact Htail].
Qed.


Lemma document_resize_inv (this : ImageRaw) (size : ImageRaw.SizeOption)
    (w0 w' : world) (r : ImageRaw) :
  ImageRawDocumentResize.resize pf production this size w0 = (Normal r, w') ->
  let c := canvases w0 in
  let tc := this_canvas this in
  exists nw nh drawing reading d,
    let h1 := NewCanvas c :: history w0 in
    let fw := drawn_width pf h1 (SrcCanvas tc) nw in
    let fh := drawn_height pf (SetWidth c fw :: h1) (SrcCanvas tc) nh in
    let sized := SetHeight c fh :: SetWidth c fw :: h1 in
    let drawn := DrawImage drawing (SrcCanvas tc) :: GetContext c :: sized in
    ImageRaw.resize (this_width this) (this_height this) size = Some (nw, nh)
    /\ canvas_getContext pf sized c = Some drawing
    /\ canvas_getContext pf drawn c = Some reading
    /\ ctx_getImageData pf (GetContext c :: drawn) reading = Normal d
    /\ r = applied this d
    /\ canvases w' = S c
    /\ contextCache w' = contextCache w0
    /\ exists tail,
         history w'
         = tail ++ SetHeight tc (id_height d) :: SetWidth tc (id_width d)
                :: GetContext tc :: GetImageData reading :: GetContext c :: drawn
         /\ Forall leaves_image tail.
Proof.
  intros Hrun c tc. unfold ImageRawDocumentResize.resize in Hrun.
  destruct (ImageRaw.resize _ _ size) as [[nw nh]|] eqn:Hsize; [|discriminate].
  apply bind_inv in Hrun as (c' & w1 & Hcanvas & Hrun).
  unfold ImageRawDocument.createElement_canvas in Hcanvas. simplify_eq.
  fold c in Hrun.
  apply bind_inv in Hrun as ([] & w2 & Hdraw & Hrun).
  apply document_canvasDrawImage_inv in Hdraw as (drawing & Hdrawing & ->).
  cbn [history contextCache canvases] in Hdrawing.
  apply bind_inv in Hrun as (d & w3 & Hread & Hrun).
  apply document_canvasGetImageData_inv in Hread as (reading & Hreading & Hd & ->).
  cbn [history contextCache canvases] in Hreading, Hd.
  unfold ImageRawDocumentResize.apply_ImageData in Hrun.
  apply bind_inv in Hrun as ([] & w4 & Hput & Hrun).
  unfold mret in Hrun. simplify_eq.
  apply document_canvasPutImageData_inv in Hput as (Hcount4 & Hcache4 & tail & Hh4 & Htail).
  cbn [history contextCache canvases] in Hcount4, Hcache4, Hh4.
  exists nw, nh, drawing, reading, d.
  split; [done|]. split; [done|]. split; [done|]. split; [done|].
  split; [done|]. split; [done|]. split; [done|].
  exists tail. split; [exact Hh4 | exact Htail].
Qed.

End WithPlatform.

(** ** Sizes in a history *)

Lemma width_of_quiet (tail h : list event) (c : canvas) :
  Forall leaves_image tail -> width_of (tail ++ h) c = width_of h c.
Proof.
  induction 1 as [|ev tail Hev _ IH]; [done|].
  destruct ev; cbn in *; done.
Qed.

Lemma height_of_quiet (tail h : list event) (c : canvas) :
  Forall leaves_image tail -> height_of (tail ++ h) c = height_of h c.
Proof.
  induction 1 as [|ev tail Hev _ IH]; [done|].
  destruct ev; cbn in *; done.
Qed.

Lemma last_read_quiet (tail h : list event) :
  Forall leaves_image tail -> last_read (tail ++ h) = last_read h.
Proof.
  induction 1 as [|ev tail Hev _ IH]; [done|].
  destruct ev; cbn in *; done.
Qed.

Lemma width_of_other (evs h : list event) (c other : canvas) :
  Forall (on_canvas c) evs -> other <> c ->
  width_of (evs ++ h) other = width_of h other.
Proof.
  intros Hevs Hne. induction Hevs as [|ev evs Hev _ IH]; [done|].
  destruct ev; cbn in *; try done. subst.
  destruct (Nat.eqb_spec c other); [congruence | done].
Qed.

Lemma height_of_other (evs h : list event) (c other : canvas) :
  Forall (on_canvas c) evs -> other <> c ->
  height_of (evs ++ h) other = height_of h other.
Proof.
  intros Hevs Hne. induction Hevs as [|ev evs Hev _ IH]; [done|].
  destruct ev; cbn in *; try done. subst.
  destruct (Nat.eqb_spec c other); [congruence | done].
Qed.

(** ** Numbers as sizes *)





End ResizeRunFacts.

Module ResizeSizeFacts.
Import Platform CanvasSize ResizeRunFacts.

Section WithPlatform.
Variable pf : platform.
Variable production : bool.
Hypothesis Hstandard : standard_canvas pf.

(** What [canvasDrawImage] assigns to the new canvas when it draws the
    instance's own canvas: the given size, or the instance's. *)
Lemma drawn_sizes (this : ImageRaw) (w0 : world) (created : list event)
    (nw nh : number) :
  let c := canvases w0 in
  let tc := this_canvas this in
  let h1 := created ++ history w0 in
  in_step w0 this ->
  Forall (on_canvas c) created ->
  is_dimension (final nw (this_width this)) ->
  is_dimension (final nh (this_height this)) ->
  drawn_width pf h1 (SrcCanvas tc) nw = final nw (this_width this)
  /\ forall x, drawn_height pf (SetWidth c x :: h1) (SrcCanvas tc) nh
               = final nh (this_height this).
Proof.
  intros c tc h1 [Halloc Hw Hh] Hcreated Hdw Hdh.
  assert (tc <> c) as Hne by (unfold tc, c; lia).
  unfold drawn_width, drawn_height, final in *. split.
  - destruct (truthy nw); [done|].
    apply (reports_width pf Hstandard); [|done].
    unfold h1. by rewrite (width_of_other created _ c tc).
  - intros x. destruct (truthy nh); [done|].
    apply (reports_height pf Hstandard); [|done].
    change (SetWidth c x :: h1) with ((SetWidth c x :: created) ++ history w0).
    rewrite (height_of_other _ _ c tc); [done| |done].
    constructor; [done | exact Hcreated].
Qed.

Lemma resize_sizes (this : ImageRaw) (size : ImageRaw.SizeOption)
    (w0 w' : world) (r : ImageRaw) (nw nh : number) :
  cache_allocated w0 -> in_step w0 this ->
  ImageRaw.resize (this_width this) (this_height this) size = Some (nw, nh) ->
  is_dimension (final nw (this_width this)) ->
  is_dimension (final nh (this_height this)) ->
  ImageRawWorkerResize.resize pf production this size w0 = (Normal r, w')
  \/ ImageRawDocumentResize.resize pf production this size w0 = (Normal r, w') ->
  this_width r = final nw (this_width this)
  /\ this_height r = final nh (this_height this)
  /\ in_step w' r
  /\ cache_allocated w'.
Proof.
  intros Hcache Hstep Hsize Hdw Hdh [Hrun|Hrun].
  - apply worker_resize_inv in Hrun
      as (nw' & nh' & created & ctx & asked & d & Hsize' & Hcreated & Hasked & Hd & ->
          & Hcount & Hctx & Hother & tail & Hh & Htail).
    rewrite Hsize in Hsize'. injection Hsize' as <- <-.
    assert (Forall (on_canvas (canvases w0)) created) as Hon.
    { destruct Hcreated as [->| ->]; by repeat constructor. }
    destruct (drawn_sizes this w0 created nw nh Hstep Hon Hdw Hdh) as [Hfw Hfh].
    rewrite Hfw in *. rewrite Hfh in *.
    destruct Hasked as [[-> Hhit]|(-> & _ & Hasked)].
    { by rewrite (Hcache (canvases w0)) in Hhit. }
    match type of Hd with
    | ctx_getImageData _ ?h _ = _ =>
        assert (width_of h (canvases w0) = Some (final nw (this_width this))) as Hwd
          by (cbn; by rewrite Nat.eqb_refl);
        assert (height_of h (canvases w0) = Some (final nh (this_height this))) as Hhd
          by (cbn; by rewrite Nat.eqb_refl)
    end.
    destruct (reads_size pf Hstandard _ _ _ _ _ _ _ Hasked Hwd Hhd Hdw Hdh Hd) as [Hiw Hih].
    destruct Hstep as [Halloc Hw Hh'].
    split; [exact Hiw|]. split; [exact Hih|]. split.
    + constructor; cbn [applied this_canvas this_width this_height].
      * rewrite Hcount. lia.
      * rewrite Hh, width_of_quiet by done. cbn. by rewrite Nat.eqb_refl.
      * rewrite Hh, height_of_quiet by done. cbn. by rewrite Nat.eqb_refl.
    + intros k Hk. rewrite Hcount in Hk.
      rewrite Hother by lia. apply Hcache. lia.
  - apply document_resize_inv in Hrun
      as (nw' & nh' & drawing & reading & d & Hsize' & Hdrawing & Hreading & Hd & ->
          & Hcount & Hsame & tail & Hh & Htail).
    rewrite Hsize in Hsize'. injection Hsize' as <- <-.
    assert (Forall (on_canvas (canvases w0)) [NewCanvas (canvases w0)]) as Hon
      by (by repeat constructor).
    destruct (drawn_sizes this w0 [NewCanvas (canvases w0)] nw nh Hstep Hon Hdw Hdh)
      as [Hfw Hfh].
    cbn [app] in Hfw, Hfh. rewrite Hfw in *. rewrite Hfh in *.
    match type of Hd with
    | ctx_getImageData _ ?h _ = _ =>
        assert (width_of h (canvases w0) = Some (final nw (this_width this))) as Hwd
          by (cbn; by rewrite Nat.eqb_refl);
        assert (height_of h (canvases w0) = Some (final nh (this_height this))) as Hhd
          by (cbn; by rewrite Nat.eqb_refl)
    end.
    destruct (reads_size pf Hstandard _ _ _ _ _ _ _ Hreading Hwd Hhd Hdw Hdh Hd) as [Hiw Hih].
    destruct Hstep as [Halloc Hw Hh'].
    split; [exact Hiw|]. split; [exact Hih|]. split.
    + constructor; cbn [applied this_canvas this_width this_height].
      * rewrite Hcount. lia.
      * rewrite Hh, width_of_quiet by done. cbn. by rewrite Nat.eqb_refl.
      * rewrite Hh, height_of_quiet by done. cbn. by rewrite Nat.eqb_refl.
    + intros k Hk. rewrite Hcount in Hk. rewrite Hsame. apply Hcache. lia.
Qed.

End WithPlatform.

End ResizeSizeFacts.

Module ResizeDimensionFacts.
Import Platform CanvasSize ResizeRunFacts ResizeSizeFacts.


(** The fixtures are what the constructor makes. *)
Lemma instance_of_made (d : ImageRawData) :
  ImageRawWorker.new_ImageRaw standard_platform d initial_world
  = (Normal (instance_of d), world_of d).
Proof. reflexivity. Qed.





Section WithPlatform.
Variable pf : platform.
Variable production : bool.
Hypothesis Hstandard : standard_canvas pf.



End WithPlatform.

End ResizeDimensionFacts.

Import Platform CanvasSize ResizeRunFacts ResizeSizeFacts ResizeDimensionFacts.







Import Results.

(** X13: [resize] with neither width nor height throws before anything
    happens: no canvas is made and nothing is drawn.  When [resize]
    returns, in either variant of the class, the instance still has its own
    canvas, and its bytes, width and height are exactly those of its image
    data, which is what the last [getImageData] of the call answered: it
    was asked of the context of the new canvas, right after the instance's
    own canvas had been drawn on the new canvas through that context (in
    the document-only variant, through the context the new canvas gave when
    asked before).  On a canvas that keeps the sizes assigned to it the
    instance and its canvas agree on the size again afterwards. *)
Theorem resize_applies_what_was_read
    (pf : platform) (production : bool) (this : ImageRaw)
    (size : ImageRaw.SizeOption) (w : world) :
  (ImageRaw.so_width size = None -> ImageRaw.so_height size = None ->
     ImageRawWorkerResize.resize pf production this size w
     = (Throw (Invariant.invariant_failed production
                 "both width and height are undefined"), w)
     /\ ImageRawDocumentResize.resize pf production this size w
        = (Throw (Invariant.invariant_failed production
                    "both width and height are undefined"), w))
  /\ (forall r w',
        ImageRawWorkerResize.resize pf production this size w = (Normal r, w') ->
        this_canvas r = this_canvas this
        /\ holds {| data := id_data (this_imageData r);
                    width := id_width (this_imageData r);
                    height := id_height (this_imageData r) |} r
        /\ read_after_draw pf w' (SrcCanvas (this_canvas this)) (canvases w)
             (this_imageData r))
  /\ (forall r w',
        ImageRawDocumentResize.resize pf production this size w = (Normal r, w') ->
        this_canvas r = this_canvas this
        /\ holds {| data := id_data (this_imageData r);
                    width := id_width (this_imageData r);
                    height := id_height (this_imageData r) |} r
        /\ read_after_draw_on pf w' (SrcCanvas (this_canvas this)) (canvases w)
             (this_imageData r))
  /\ (forall nw nh r w',
        standard_canvas pf -> cache_allocated w -> in_step w this ->
        ImageRaw.resize (this_width this) (this_height this) size = Some (nw, nh) ->
        is_dimension (final nw (this_width this)) ->
        is_dimension (final nh (this_height this)) ->
        ImageRawWorkerResize.resize pf production this size w = (Normal r, w')
        \/ ImageRawDocumentResize.resize pf production this size w = (Normal r, w') ->
        in_step w' r /\ cache_allocated w').
Proof.
  split; [|split; [|split]].
  - intros Hw Hh.
    unfold ImageRawWorkerResize.resize, ImageRawDocumentResize.resize, ImageRaw.resize.
    by rewrite Hw, Hh.
  - intros r w' Hrun.
    apply worker_resize_inv in Hrun
      as (nw & nh & created & ctx & asked & d & _ & _ & _ & Hd & -> & _ & Hctx & _
          & tail & Hh & Htail).
    split; [done|]. split; [done|].
    exists ctx. eexists. split; [|split; [exact Hctx | exact Hd]].
    rewrite Hh, last_read_quiet by done. reflexivity.
  - intros r w' Hrun.
    apply document_resize_inv in Hrun
      as (nw & nh & drawing & reading & d & _ & Hdrawing & Hreading & Hd & -> & _ & _
          & tail & Hh & Htail).
    split; [done|]. split; [done|].
    exists drawing, reading. eexists.
    split; [|split; [exact Hdrawing | split; [exact Hreading | exact Hd]]].
    rewrite Hh, last_read_quiet by done. reflexivity.
  - intros nw nh r w' Hstandard Hcache Hstep Hsize Hdw Hdh Hrun.
    by destruct (resize_sizes pf production Hstandard this size w w' r nw nh
                   Hcache Hstep Hsize Hdw Hdh Hrun) as (_ & _ & ? & ?).
Qed.

Lemma resize_applies_what_was_read_witness :
  let this := instance_of tall_data in
  let size := {| ImageRaw.so_width := None; ImageRaw.so_height := Some (of_Z 55) |} in
  let r :=
    applied this
      {| id_data := blank (of_Z 7) (of_Z 55);
         id_width := of_Z 7; id_height := of_Z 55 |} in
  let run :=
    ImageRawWorkerResize.resize standard_platform false this size (world_of tall_data) in
  fst run = Normal r
  /\ this_canvas r = 0%nat
  /\ holds {| data := blank (of_Z 7) (of_Z 55); width := of_Z 7; height := of_Z 55 |} r
  /\ read_after_draw standard_platform (snd run) (SrcCanvas 0%nat) 1%nat
       (this_imageData r).
Proof.
  intros this size r run.
  assert (fst run = Normal r) as Hfst by (vm_compute; reflexivity).
  split; [exact Hfst|].
  assert (run = (Normal r, snd run)) as Hrun
    by (apply injective_projections; [exact Hfst | reflexivity]).
  destruct (resize_applies_what_was_read standard_platform false this size
              (world_of tall_data)) as (_ & Hworker & _).
  exact (Hworker r (snd run) Hrun).
Defined.

(* ===================================================================== *)
(** * Image elements: what the conversion throws and returns              *)
(* ===================================================================== *)

Module ThrowsFacts.
Import Platform Conversion.
Local Open Scope js_scope.

Section WithPredicate.
Variable P : exn -> Prop.

Lemma throws_mret {A} (a : A) : throws_only P (mret a).
Proof. intros w e w' H. discriminate. Qed.

Lemma throws_throw {A} (e : exn) : P e -> throws_only P (@throw A e).
Proof. intros HP w e' w' H. unfold throw in H. by simplify_eq. Qed.

Lemma throws_bind {A B} (c : M A) (k : A -> M B) :
  throws_only P c -> (forall a, throws_only P (k a)) -> throws_only P (bind c k).
Proof.
  intros Hc Hk w e w' H. unfold bind in H.
  destruct (c w) as [[a|e0] w1] eqn:Hrun.
  - exact (Hk a w1 e w' H).
  - simplify_eq. exact (Hc w e w' Hrun).
Qed.

Lemma throws_try_catch {A} (body : M A) (handler : exn -> M A) :
  (forall e, throws_only P (handler e)) -> throws_only P (try_catch body handler).
Proof.
  intros Hh w e w' H. unfold try_catch in H.
  destruct (body w) as [[a|e0] w1]; [discriminate|]. exact (Hh e0 w1 e w' H).
Qed.

Lemma throws_try_finally {A} (body : M A) (finalizer : M unit) :
  throws_only P body -> throws_only P finalizer ->
  throws_only P (try_finally body finalizer).
Proof.
  intros Hb Hf w e w' H. unfold try_finally in H.
  destruct (body w) as [r w1] eqn:Hbody.
  destruct (finalizer w1) as [[u|e1] w2] eqn:Hfin; simplify_eq.
  - exact (Hb w e w1 Hbody).
  - exact (Hf w1 e w' Hfin).
Qed.

Lemma throws_call {A} (ev : event) (answer : list event -> completion A) :
  (forall h e, answer h = Throw e -> P e) -> throws_only P (call ev answer).
Proof. intros Ha w e w' H. unfold call in H. simplify_eq. eauto. Qed.

Lemma throws_call_unit (ev : event) (answer : list event -> option exn) :
  (forall h e, answer h = Some e -> P e) -> throws_only P (call_unit ev answer).
Proof.
  intros Ha. apply throws_call. intros h e H.
  destruct (answer h) eqn:Hans; simplify_eq. eauto.
Qed.

Lemma throws_pure {A} (f : world -> completion A) :
  (forall w e, f w = Throw e -> P e) -> throws_only P (fun w => (f w, w)).
Proof. intros Hf w e w' H. simplify_eq. eauto. Qed.

Lemma throws_or_else_lazy (a : option number) (b : M number) :
  throws_only P b -> throws_only P (or_else_lazy a b).
Proof.
  intros Hb. unfold or_else_lazy. destruct a as [x|]; [|done].
  destruct (truthy x); [apply throws_mret | done].
Qed.

Lemma throws_new_canvas : throws_only P ImageRawWorker.new_canvas.
Proof. intros w e w' H. discriminate. Qed.

Lemma throws_getContext2D (pf : platform) (c : canvas) :
  throws_only P (ImageRawWorker.getContext2D pf c).
Proof.
  intros w e w' H. unfold ImageRawWorker.getContext2D in H.
  destruct (contextCache w !! c); [discriminate|].
  destruct (canvas_getContext pf (history w) c); discriminate.
Qed.

Lemma throws_createElement_canvas : throws_only P ImageRawDocument.createElement_canvas.
Proof. intros w e w' H. discriminate. Qed.

Lemma throws_getContext (pf : platform) (c : canvas) :
  throws_only P (ImageRawDocument.getContext pf c).
Proof. intros w e w' H. discriminate. Qed.

End WithPredicate.

End ThrowsFacts.

Ltac throws_step :=
  first
    [ apply ThrowsFacts.throws_bind; [|intros ?]
    | apply ThrowsFacts.throws_try_catch; intros ?
    | apply ThrowsFacts.throws_try_finally
    | apply ThrowsFacts.throws_or_else_lazy
    | apply ThrowsFacts.throws_mret
    | apply ThrowsFacts.throws_new_canvas
    | apply ThrowsFacts.throws_getContext2D
    | apply ThrowsFacts.throws_createElement_canvas
    | apply ThrowsFacts.throws_getContext
    | apply ThrowsFacts.throws_throw; right; cbn; tauto
    | apply ThrowsFacts.throws_call_unit; intros ? ? ?;
        first [discriminate | left; econstructor; eassumption]
    | apply ThrowsFacts.throws_call; intros ? ? ?;
        first [discriminate | left; econstructor; eassumption]
    | apply ThrowsFacts.throws_pure; intros ? ? ?;
        first [discriminate | left; econstructor; eassumption]
    | match goal with
      | |- Conversion.throws_only _ (if ?b then _ else _) => destruct b
      | |- Conversion.throws_only _ (match ?x with _ => _ end) => destruct x
      end ].

Module ConversionThrows.
Import Platform Conversion ThrowsFacts.
Local Open Scope js_scope.

Section WithPlatform.
Variable pf : platform.

Local Abbreviation fails := (throws_only (conversion_failure pf worker_errors)).
Local Abbreviation fails_document :=
  (throws_only (conversion_failure pf document_errors)).

Lemma worker_new_ImageRaw_throws (d : ImageRawData) :
  fails (ImageRawWorker.new_ImageRaw pf d).
Proof.
  unfold ImageRawWorker.new_ImageRaw, ImageRawWorker.createCanvas,
    ImageRawWorker.canvasPutImageData.
  repeat throws_step.
Qed.

Lemma worker_fromImageBitmap_throws (bitmap : ImageBitmap) :
  fails (ImageRawWorker.fromImageBitmap pf bitmap).
Proof.
  unfold ImageRawWorker.fromImageBitmap, ImageRawWorker.has_zero_dimension,
    ImageRawWorker.read_bitmap_width, ImageRawWorker.read_bitmap_height,
    ImageRawWorker.createCanvas, ImageRawWorker.close_quietly, ImageRawWorker.ctx_read.
  repeat first [apply worker_new_ImageRaw_throws | throws_step].
Qed.

Lemma worker_rasterize_image_throws (img : HTMLImageElement) :
  fails (ImageRawWorker.rasterize_image pf img).
Proof.
  unfold ImageRawWorker.rasterize_image.
  destruct (HAS_CREATE_IMAGE_BITMAP pf) eqn:Hcib.
  - unfold ImageRawWorker.createOptimizedImageBitmap. rewrite Hcib. cbn [negb].
    repeat first [apply worker_fromImageBitmap_throws | throws_step].
  - unfold ImageRawWorker.createCanvas, ImageRawWorker.canvasDrawImage,
      ImageRawWorker.getImageData, ImageRawWorker.ctx_read.
    repeat first [apply worker_new_ImageRaw_throws | throws_step].
Qed.

Lemma worker_fromHTMLImageElement_throws (img : HTMLImageElement) :
  IS_WORKER pf = false ->
  fails (ImageRawWorker.fromHTMLImageElement pf img).
Proof.
  intros Hmain. unfold ImageRawWorker.fromHTMLImageElement, ImageRawWorker.decode.
  rewrite Hmain.
  repeat first [apply worker_rasterize_image_throws | throws_step].
Qed.

Lemma document_new_ImageRaw_throws (d : ImageRawData) :
  fails_document (ImageRawDocument.new_ImageRaw pf d).
Proof.
  unfold ImageRawDocument.new_ImageRaw, ImageRawDocument.canvasPutImageData.
  repeat throws_step.
Qed.

Lemma document_fromHTMLImageElement_throws (img : HTMLImageElement) :
  fails_document (ImageRawDocument.fromHTMLImageElement pf img).
Proof.
  unfold ImageRawDocument.fromHTMLImageElement, ImageRawDocument.decode,
    ImageRawDocument.rasterize_image, ImageRawDocument.canvasDrawImage,
    ImageRawDocument.canvasGetImageData, ImageRawDocument.getContext_nonnull,
    ImageRawDocument.ctx_read.
  repeat first [apply document_new_ImageRaw_throws | throws_step].
Qed.

End WithPlatform.

End ConversionThrows.

Module ConversionReads.
Import Platform CanvasSize Conversion Results HistoryFacts ResizeRunFacts.
Local Open Scope js_scope.

Lemma last_read_skip (evs h : list event) :
  Forall reads_nothing evs -> last_read (evs ++ h) = last_read h.
Proof.
  induction 1 as [|ev evs Hev _ IH]; [done|].
  destruct ev; cbn in *; done.
Qed.

Lemma try_finally_inv {A} (body : M A) (finalizer : M unit) (w w' : world) (a : A) :
  try_finally body finalizer w = (Normal a, w') ->
  exists wb, body w = (Normal a, wb) /\ snd (finalizer wb) = w'.
Proof.
  unfold try_finally. destruct (body w) as [r wb].
  destruct (finalizer wb) as [[u|e] wf] eqn:Hfin; intros H; simplify_eq.
  exists wb. by rewrite Hfin.
Qed.

(** A computation that reads no pixels and keeps the cache leaves the
    latest read and the cached contexts as they were. *)
Lemma undisturbed {A} (c : M A) (w : world) :
  emits reads_nothing c -> keeps c ->
  last_read (history (snd (c w))) = last_read (history w)
  /\ forall k x, contextCache w !! k = Some x -> contextCache (snd (c w)) !! k = Some x.
Proof.
  intros Hemits Hkeeps. destruct (Hemits w) as (evs & Hh & Hevs). split.
  - rewrite Hh. by apply last_read_skip.
  - intros k x. apply Hkeeps.
Qed.

Section WithPlatform.
Variable pf : platform.

(** ** The worker-capable variant *)

Lemma worker_new_canvas_reads_nothing : emits reads_nothing ImageRawWorker.new_canvas.
Proof. intros w. exists [NewCanvas (canvases w)]. split; [done | by constructor]. Qed.

Lemma worker_getContext2D_reads_nothing (c : canvas) :
  emits reads_nothing (ImageRawWorker.getContext2D pf c).
Proof.
  intros w. unfold ImageRawWorker.getContext2D.
  destruct (contextCache w !! c); [by exists []|].
  exists [GetContext c].
  destruct (canvas_getContext pf (history w) c); (split; [done | by constructor]).
Qed.

Lemma worker_new_ImageRaw_reads_nothing (d : ImageRawData) :
  emits reads_nothing (ImageRawWorker.new_ImageRaw pf d).
Proof.
  unfold ImageRawWorker.new_ImageRaw, ImageRawWorker.createCanvas,
    ImageRawWorker.canvasPutImageData.
  repeat first [ apply worker_new_canvas_reads_nothing
               | apply worker_getContext2D_reads_nothing
               | emits_step ].
Qed.

Lemma worker_close_quietly_reads_nothing (bitmap : ImageBitmap) :
  emits reads_nothing (ImageRawWorker.close_quietly pf bitmap).
Proof. unfold ImageRawWorker.close_quietly. repeat emits_step. Qed.

Lemma worker_new_ImageRaw_inv (d : ImageRawData) (w w1 : world) (r : ImageRaw) :
  ImageRawWorker.new_ImageRaw pf d w = (Normal r, w1) ->
  holds d r
  /\ last_read (history w1) = last_read (history w)
  /\ forall k x, contextCache w !! k = Some x -> contextCache w1 !! k = Some x.
Proof.
  intros Hrun.
  destruct (undisturbed (ImageRawWorker.new_ImageRaw pf d) w
              (worker_new_ImageRaw_reads_nothing d)
              (ContextCacheFacts.keeps_new_ImageRaw pf d)) as [Hread Hcache].
  rewrite Hrun in Hread, Hcache. split; [|done].
  unfold ImageRawWorker.new_ImageRaw in Hrun.
  apply bind_inv in Hrun as (c & wa & _ & Hrun).
  apply bind_inv in Hrun as (i & wb & _ & Hrun).
  apply bind_inv in Hrun as ([] & wc & _ & Hrun).
  unfold mret in Hrun. by simplify_eq.
Qed.

Lemma worker_getContext2D_inv (c : canvas) (w w1 : world) (ctx : context) :
  ImageRawWorker.getContext2D pf c w = (Normal (Some ctx), w1) ->
  contextCache w1 !! c = Some ctx /\ canvases w1 = canvases w.
Proof.
  intros Hrun. split.
  - exact (ContextCacheFacts.getContext2D_caches pf c w w1 ctx Hrun).
  - unfold ImageRawWorker.getContext2D in Hrun.
    destruct (contextCache w !! c); [by simplify_eq|].
    destruct (canvas_getContext pf (history w) c); by simplify_eq.
Qed.

Lemma worker_has_zero_dimension_inv (bitmap : ImageBitmap) (w w1 : world) (b : bool) :
  ImageRawWorker.has_zero_dimension bitmap w = (Normal b, w1) ->
  canvases w1 = canvases w.
Proof.
  unfold ImageRawWorker.has_zero_dimension, ImageRawWorker.read_bitmap_width,
    ImageRawWorker.read_bitmap_height, bind, call, mret. cbn.
  destruct (bitmap_width bitmap =? 0); intros H; by simplify_eq.
Qed.

Lemma worker_fromImageBitmap_inv (bitmap : ImageBitmap) (w w1 : world) (r : ImageRaw) :
  ImageRawWorker.fromImageBitmap pf bitmap w = (Normal r, w1) ->
  exists d,
    read_after_draw pf w1 (SrcBitmap bitmap) (canvases w) d
    /\ holds (buffer_of d) r.
Proof.
  intros Hrun. unfold ImageRawWorker.fromImageBitmap in Hrun.
  apply bind_inv in Hrun as (invalid & wa & Hzero & Hrun).
  apply worker_has_zero_dimension_inv in Hzero as Hca.
  destruct invalid; [discriminate|].
  apply bind_inv in Hrun as (x & wb & Hx & Hrun).
  apply bind_inv in Hrun as (y & wc & Hy & Hrun).
  unfold ImageRawWorker.read_bitmap_width, call in Hx.
  unfold ImageRawWorker.read_bitmap_height, call in Hy. simplify_eq.
  apply bind_inv in Hrun as (c & wd & Hcanvas & Hrun).
  apply worker_createCanvas_inv in Hcanvas as (-> & _ & _ & _).
  cbn [record canvases] in Hrun. rewrite Hca in Hrun.
  apply bind_inv in Hrun as (octx & we & Hctx & Hrun).
  destruct octx as [ctx|].
  2:{ apply bind_inv in Hrun as (? & ? & _ & Hrun). discriminate. }
  apply worker_getContext2D_inv in Hctx as [Hcached _].
  apply try_finally_inv in Hrun as (wf & Hbody & Hclose).
  apply bind_inv in Hbody as ([] & wg & Hdraw & Hbody).
  apply call_unit_inv in Hdraw as [_ ->].
  apply bind_inv in Hbody as (d & wh & Hread & Hbody).
  unfold ImageRawWorker.ctx_read, call in Hread.
  cbn [record history contextCache canvases] in Hread. simplify_eq.
  apply worker_new_ImageRaw_inv in Hbody as (Hholds & Hlast & Hkeeps).
  cbn [record history contextCache canvases] in Hlast, Hkeeps.
  destruct (undisturbed (ImageRawWorker.close_quietly pf bitmap) wf
              (worker_close_quietly_reads_nothing bitmap)
              (ContextCacheFacts.keeps_close_quietly pf bitmap)) as [Hlast' Hkeeps'].
  exists d. split; [|exact Hholds].
  exists ctx, (history we). split; [|split; [|done]].
  - by rewrite Hlast', Hlast.
  - by apply Hkeeps', Hkeeps.
Qed.


Lemma worker_createOptimizedImageBitmap_inv (src : source) (w w1 : world)
    (bitmap : ImageBitmap) :
  ImageRawWorker.createOptimizedImageBitmap pf src w = (Normal bitmap, w1) ->
  canvases w1 = canvases w
  /\ exists h options, createImageBitmap pf h src options = Normal bitmap.
Proof.
  unfold ImageRawWorker.createOptimizedImageBitmap.
  destruct (negb (HAS_CREATE_IMAGE_BITMAP pf)); [discriminate|].
  unfold try_catch, call. cbn.
  destruct (createImageBitmap pf (history w) src true) eqn:Hfirst.
  - intros H. simplify_eq. split; [done | eauto].
  - destruct (createImageBitmap pf _ src false) eqn:Hsecond; intros H; simplify_eq.
    split; [done | eauto].
Qed.

Lemma worker_rasterize_image_inv (img : HTMLImageElement) (w w1 : world) (r : ImageRaw) :
  ImageRawWorker.rasterize_image pf img w = (Normal r, w1) ->
  exists src d,
    drawn_from pf img src
    /\ read_after_draw pf w1 src (canvases w) d
    /\ holds (buffer_of d) r.
Proof.
  intros Hrun. unfold ImageRawWorker.rasterize_image in Hrun.
  destruct (HAS_CREATE_IMAGE_BITMAP pf).
  - apply bind_inv in Hrun as (bitmap & wa & Hcreate & Hrun).
    apply worker_createOptimizedImageBitmap_inv in Hcreate as (Hca & h & options & Hmade).
    apply worker_fromImageBitmap_inv in Hrun as (d & Hread & Hholds).
    rewrite Hca in Hread.
    exists (SrcBitmap bitmap), d. split; [|done]. by eapply its_bitmap.
  - apply bind_inv in Hrun as (c & wa & Hcanvas & Hrun).
    apply worker_createCanvas_inv in Hcanvas as (-> & _ & _ & _).
    apply bind_inv in Hrun as ([] & wb & Hdraw & Hrun).
    apply worker_canvasDrawImage_inv in Hdraw as (ctx & asked & _ & ->).
    apply bind_inv in Hrun as (d & wc & Hread & Hrun).
    rewrite (worker_getImageData_hit pf (canvases w) ctx) in Hread
      by (cbn; by rewrite lookup_insert_eq).
    cbn [record history contextCache canvases] in Hread. simplify_eq.
    apply worker_new_ImageRaw_inv in Hrun as (Hholds & Hlast & Hkeeps).
    cbn [record history contextCache canvases] in Hlast, Hkeeps.
    exists (SrcImage img), d. split; [constructor|]. split; [|exact Hholds].
    exists ctx. eexists. split; [exact Hlast|]. split; [|done].
    apply Hkeeps. by rewrite lookup_insert_eq.
Qed.

(** ** The document-only variant *)

Lemma document_new_ImageRaw_reads_nothing (d : ImageRawData) :
  emits reads_nothing (ImageRawDocument.new_ImageRaw pf d).
Proof.
  intros w. unfold ImageRawDocument.new_ImageRaw, ImageRawDocument.createElement_canvas,
    ImageRawDocument.canvasPutImageData, ImageRawDocument.getContext,
    bind, call_unit, call, mret, throw, record. cbn.
  destruct (new_ImageData pf (data d) (width d) (height d)); cbn;
    [|by exists [NewCanvas (canvases w)]; split; [|repeat constructor]].
  destruct (canvas_getContext pf _ (canvases w)) as [ctx|]; cbn.
  - destruct (ctx_putImageData pf _ ctx _); cbn;
      (eexists [_; _; _; _; _]; split; [reflexivity | by repeat constructor]).
  - eexists [_; _; _; _]. split; [reflexivity | by repeat constructor].
Qed.

Lemma document_new_ImageRaw_inv (d : ImageRawData) (w w1 : world) (r : ImageRaw) :
  ImageRawDocument.new_ImageRaw pf d w = (Normal r, w1) ->
  holds d r /\ last_read (history w1) = last_read (history w).
Proof.
  intros Hrun.
  destruct (document_new_ImageRaw_reads_nothing d w) as (evs & Hh & Hevs).
  rewrite Hrun in Hh. cbn [snd] in Hh. split; [|rewrite Hh; by apply last_read_skip].
  unfold ImageRawDocument.new_ImageRaw in Hrun.
  apply bind_inv in Hrun as (c & wa & _ & Hrun).
  apply bind_inv in Hrun as (i & wb & _ & Hrun).
  apply bind_inv in Hrun as ([] & wc & _ & Hrun).
  unfold mret in Hrun. by simplify_eq.
Qed.

Lemma document_rasterize_image_inv (img : HTMLImageElement) (w w1 : world) (r : ImageRaw) :
  ImageRawDocument.rasterize_image pf img w = (Normal r, w1) ->
  exists d,
    read_after_draw_on pf w1 (SrcImage img) (canvases w) d
    /\ holds (buffer_of d) r.
Proof.
  intros Hrun. unfold ImageRawDocument.rasterize_image in Hrun.
  apply bind_inv in Hrun as (c & wa & Hcanvas & Hrun).
  unfold ImageRawDocument.createElement_canvas in Hcanvas. simplify_eq.
  apply bind_inv in Hrun as ([] & wb & Hdraw & Hrun).
  apply document_canvasDrawImage_inv in Hdraw as (drawing & Hdrawing & ->).
  cbn [history contextCache canvases] in Hdrawing.
  apply bind_inv in Hrun as (d & wc & Hread & Hrun).
  apply document_canvasGetImageData_inv in Hread as (reading & Hreading & Hd & ->).
  cbn [history contextCache canvases] in Hreading, Hd.
  apply document_new_ImageRaw_inv in Hrun as (Hholds & Hlast).
  cbn [history contextCache canvases] in Hlast.
  exists d. split; [|exact Hholds].
  exists drawing, reading. eexists.
  split; [exact Hlast|]. split; [exact Hdrawing|]. split; [exact Hreading | exact Hd].
Qed.

End WithPlatform.

End ConversionReads.

Module ConversionEvents.
Import Platform HistoryFacts.
Local Open Scope js_scope.

Section WithPlatform.
Variable pf : platform.

Local Abbreviation any := (fun _ : event => True).

Lemma new_canvas_emits : emits any ImageRawWorker.new_canvas.
Proof. intros w. exists [NewCanvas (canvases w)]. split; [done | by constructor]. Qed.

Lemma getContext2D_emits (c : canvas) : emits any (ImageRawWorker.getContext2D pf c).
Proof.
  intros w. unfold ImageRawWorker.getContext2D.
  destruct (contextCache w !! c); [by exists []|].
  exists [GetContext c].
  destruct (canvas_getContext pf (history w) c); (split; [done | by constructor]).
Qed.

Lemma worker_rasterize_image_emits (img : HTMLImageElement) :
  emits any (ImageRawWorker.rasterize_image pf img).
Proof.
  unfold ImageRawWorker.rasterize_image, ImageRawWorker.createOptimizedImageBitmap,
    ImageRawWorker.fromImageBitmap, ImageRawWorker.has_zero_dimension,
    ImageRawWorker.read_bitmap_width, ImageRawWorker.read_bitmap_height,
    ImageRawWorker.close_quietly, ImageRawWorker.ctx_read,
    ImageRawWorker.getImageData, ImageRawWorker.canvasDrawImage,
    ImageRawWorker.new_ImageRaw, ImageRawWorker.canvasPutImageData,
    ImageRawWorker.createCanvas, read_width, read_height.
  repeat first [apply new_canvas_emits | apply getContext2D_emits | emits_step].
Qed.

Lemma createElement_canvas_emits : emits any ImageRawDocument.createElement_canvas.
Proof. intros w. exists [NewCanvas (canvases w)]. split; [done | by constructor]. Qed.

Lemma getContext_emits (c : canvas) : emits any (ImageRawDocument.getContext pf c).
Proof. intros w. exists [GetContext c]. split; [done | by constructor]. Qed.

Lemma document_rasterize_image_emits (img : HTMLImageElement) :
  emits any (ImageRawDocument.rasterize_image pf img).
Proof.
  unfold ImageRawDocument.rasterize_image, ImageRawDocument.canvasDrawImage,
    ImageRawDocument.canvasGetImageData, ImageRawDocument.getContext_nonnull,
    ImageRawDocument.ctx_read, ImageRawDocument.new_ImageRaw,
    ImageRawDocument.canvasPutImageData, read_width, read_height.
  repeat first [apply createElement_canvas_emits | apply getContext_emits | emits_step].
Qed.

End WithPlatform.

End ConversionEvents.

Import Platform CanvasSize Conversion Results.
Import ImageElementFacts ConversionThrows ConversionReads ConversionEvents.

(** C10: an image element that is not loaded yet ([complete] false or
    [naturalWidth] zero) is not rejected as not ready.  In both variants of
    the class [fromHTMLImageElement] awaits [decode()] before anything
    else.  If that rejects, the call fails with the platform's rejection.
    If it resolves, the loaded element is converted: whatever the call
    then throws came out of a platform call or is one of the variant's own
    conversion errors, none of which is a not-ready error; and whatever it
    returns holds the bytes, width and height that [getImageData] answered
    for the canvas made during the call, right after the loaded element
    (or, in the worker-capable variant, a bitmap made from it) had been
    drawn on that canvas.  On a platform whose calls all succeed the call
    returns.
    A video element, by contrast, is rejected with the not-ready error
    when [readyState < 2], before any call into the platform. *)
Theorem fromHTMLImageElement_awaits_decode
    (pf : platform) (img : HTMLImageElement) (w : world) :
  complete img = false \/ naturalWidth img = 0 ->
  let w' := record (Decode (image_id img)) w in
  (IS_WORKER pf = false ->
   let run := ImageRawWorker.fromHTMLImageElement pf img w in
   run = match image_decode pf (history w) img with
         | Normal loaded => ImageRawWorker.rasterize_image pf loaded w'
         | Throw e => (Throw e, w')
         end
   /\ (exists evs, history (snd run) = evs ++ Decode (image_id img) :: history w)
   /\ (forall e w1, run = (Throw e, w1) -> conversion_failure pf worker_errors e)
   /\ (forall r w1, run = (Normal r, w1) ->
       exists loaded src d,
         image_decode pf (history w) img = Normal loaded
         /\ drawn_from pf loaded src
         /\ read_after_draw pf w1 src (canvases w) d
         /\ holds (buffer_of d) r)
   /\ (cooperative pf -> exists r w1, run = (Normal r, w1)))
  /\ (let run := ImageRawDocument.fromHTMLImageElement pf img w in
      run = match image_decode pf (history w) img with
            | Normal loaded => ImageRawDocument.rasterize_image pf loaded w'
            | Throw e => (Throw e, w')
            end
      /\ (exists evs, history (snd run) = evs ++ Decode (image_id img) :: history w)
      /\ (forall e w1, run = (Throw e, w1) -> conversion_failure pf document_errors e)
      /\ (forall r w1, run = (Normal r, w1) ->
          exists loaded d,
            image_decode pf (history w) img = Normal loaded
            /\ read_after_draw_on pf w1 (SrcImage loaded) (canvases w) d
            /\ holds (buffer_of d) r)
      /\ (cooperative pf -> exists r w1, run = (Normal r, w1)))
  /\ ~ In not_ready_error (worker_errors ++ document_errors)
  /\ (forall video, readyState video < 2 ->
      (IS_WORKER pf = false ->
         ImageRawWorker.fromHTMLVideoElement pf video w = (Throw not_ready_error, w))
      /\ ImageRawDocument.fromHTMLVideoElement pf video w = (Throw not_ready_error, w)).
Proof.
  intros Hpending w'.
  assert (ImageRawWorker.not_loaded img = true) as Hnl.
  { unfold ImageRawWorker.not_loaded. apply orb_true_iff.
    destruct Hpending as [->| ->]; [by left | by right]. }
  split; [|split; [|split]].
  - intros Hmain run.
    assert (run = match image_decode pf (history w) img with
                  | Normal loaded => ImageRawWorker.rasterize_image pf loaded w'
                  | Throw e => (Throw e, w')
                  end) as Hrun.
    { unfold run, ImageRawWorker.fromHTMLImageElement.
      rewrite Hmain, Hnl. unfold bind, ImageRawWorker.decode, call.
      by destruct (image_decode pf (history w) img). }
    split; [exact Hrun|]. split; [|split; [|split]].
    + rewrite Hrun. destruct (image_decode pf (history w) img) as [loaded|e].
      * destruct (worker_rasterize_image_emits pf loaded w') as (evs & Hh & _).
        exists evs. by rewrite Hh.
      * by exists [].
    + intros e w1 Hthrow.
      exact (worker_fromHTMLImageElement_throws pf img Hmain w e w1 Hthrow).
    + intros r w1 Hreturn. rewrite Hrun in Hreturn.
      destruct (image_decode pf (history w) img) as [loaded|e]; [|discriminate].
      apply worker_rasterize_image_inv in Hreturn as (src & d & Hsrc & Hread & Hholds).
      by exists loaded, src, d.
    + intros Hpf. rewrite Hrun.
      destruct (coop_decode pf Hpf (history w) img) as [loaded ->].
      destruct (worker_rasterize_image_returns pf Hpf loaded w') as (r & w1 & Hr & _).
      by exists r, w1.
  - intros run.
    assert (run = match image_decode pf (history w) img with
                  | Normal loaded => ImageRawDocument.rasterize_image pf loaded w'
                  | Throw e => (Throw e, w')
                  end) as Hrun.
    { unfold run, ImageRawDocument.fromHTMLImageElement.
      change (ImageRawDocument.not_loaded img) with (ImageRawWorker.not_loaded img).
      rewrite Hnl. unfold bind, ImageRawDocument.decode, call.
      by destruct (image_decode pf (history w) img). }
    split; [exact Hrun|]. split; [|split; [|split]].
    + rewrite Hrun. destruct (image_decode pf (history w) img) as [loaded|e].
      * destruct (document_rasterize_image_emits pf loaded w') as (evs & Hh & _).
        exists evs. by rewrite Hh.
      * by exists [].
    + intros e w1 Hthrow.
      exact (document_fromHTMLImageElement_throws pf img w e w1 Hthrow).
    + intros r w1 Hreturn. rewrite Hrun in Hreturn.
      destruct (image_decode pf (history w) img) as [loaded|e]; [|discriminate].
      apply document_rasterize_image_inv in Hreturn as (d & Hread & Hholds).
      by exists loaded, d.
    + intros Hpf. rewrite Hrun.
      destruct (coop_decode pf Hpf (history w) img) as [loaded ->].
      destruct (document_rasterize_image_returns pf Hpf loaded w') as (r & w1 & Hr & _).
      by exists r, w1.
  - unfold not_ready_error, worker_errors, document_errors. cbn. intros H.
    repeat (destruct H as [H|H]; [discriminate|]). done.
  - intros video Hready. apply Z.ltb_lt in Hready. split.
    + intros Hmain. unfold ImageRawWorker.fromHTMLVideoElement. by rewrite Hmain, Hready.
    + unfold ImageRawDocument.fromHTMLVideoElement. by rewrite Hready.
Qed.

Lemma fromHTMLImageElement_awaits_decode_witness :
  let run :=
    ImageRawWorker.fromHTMLImageElement ImageRawWorker.fickle_platform
      pending_image initial_world in
  let run_document :=
    ImageRawDocument.fromHTMLImageElement ImageRawWorker.fickle_platform
      pending_image initial_world in
  (exists r w1,
     run = (Normal r, w1)
     /\ holds {| data := [x00; x00; x00; xff]; width := of_Z 1; height := of_Z 1 |} r)
  /\ (exists evs, history (snd run) = evs ++ [Decode 3])
  /\ (exists r w1,
        run_document = (Normal r, w1)
        /\ holds {| data := [x00; x00; x00; xff]; width := of_Z 1; height := of_Z 1 |} r)
  /\ (exists evs, history (snd run_document) = evs ++ [Decode 3])
  /\ ImageRawWorker.fromHTMLVideoElement ImageRawWorker.fickle_platform
       pending_video initial_world
     = (Throw not_ready_error, initial_world).
Proof.
  intros run run_document.
  destruct (fromHTMLImageElement_awaits_decode ImageRawWorker.fickle_platform
              pending_image initial_world (or_introl eq_refl))
    as (Hworker & Hdocument & _ & Hvideo).
  destruct (Hworker eq_refl) as (_ & Hevents & _ & Hreads & Hreturns).
  destruct Hdocument as (_ & Hevents' & _ & Hreads' & Hreturns').
  split; [|split; [|split; [|split]]].
  - destruct (Hreturns fickle_platform_cooperative) as (r & w1 & Hrun).
    exists r, w1. split; [exact Hrun|].
    destruct (Hreads r w1 Hrun)
      as (loaded & src & d & _ & _ & (ctx & h & _ & _ & Hd) & Hholds).
    cbn in Hd. by simplify_eq.
  - exact Hevents.
  - destruct (Hreturns' fickle_platform_cooperative) as (r & w1 & Hrun).
    exists r, w1. split; [exact Hrun|].
    destruct (Hreads' r w1 Hrun)
      as (loaded & d & _ & (drawing & reading & h & _ & _ & _ & Hd) & Hholds).
    cbn in Hd. by simplify_eq.
  - exact Hevents'.
  - apply (Hvideo pending_video); reflexivity.
Defined.
